(** * naabal: the Gearbox stream cipher and the BIG archive model

    A shallow embedding of [naabal/util/__init__.py],
    [naabal/util/gbx_crypt.py], [naabal/formats/big/__init__.py] and the
    record framework of [naabal/formats/__init__.py].

    Python integers are unbounded, so every integer is a [Z] and the bit
    operators are the ones of [Z] (two's complement on negative numbers, as in
    Python).  A [bytearray] or a byte [str] is a [list Z] whose elements lie
    in [0, 256).  A raised exception is the [Raise] outcome of [result]. *)

From stdpp Require Import base numbers list gmap strings sorting.

Local Open Scope Z_scope.

(** ** Exceptions and results *)

Inductive exn : Set :=
| IndexError
| ZeroDivisionError
| ValueError
| TypeError
| NameError
| AttributeError
| IOError
| OSError
| StructError
| GearboxEncryptionException.

Inductive result (A : Type) : Type :=
| Ok (a : A)
| Raise (e : exn).
Arguments Ok {A} a.
Arguments Raise {A} e.

#[global] Instance result_ret : MRet result := λ A a, Ok a.
#[global] Instance result_bind : MBind result :=
  λ A B f m, match m with Ok a => f a | Raise e => Raise e end.

(** [for x in xs: acc = body(acc, x)], where the body may raise. *)
Fixpoint for_each {A B : Type} (body : A → B → result A) (acc : A) (xs : list B)
  : result A :=
  match xs with
  | [] => Ok acc
  | x :: xs' => acc' ← body acc x; for_each body acc' xs'
  end.

(** ** Exceptions that carry a value, and the ones of [naabal.errors]

    [KeyError] carries the key that was looked up.
    [StructuredFileFormatException] is the class of [naabal.errors] the record
    framework raises. *)
Inductive exn_ext : Type :=
| Builtin (e : exn)
| KeyError (key : option string)
| StructuredFileFormatException.

Inductive outcome (A : Type) : Type :=
| Return (a : A)
| Throw (e : exn_ext).
Arguments Return {A} a.
Arguments Throw {A} e.

#[global] Instance outcome_ret : MRet outcome := λ A a, Return a.
#[global] Instance outcome_bind : MBind outcome :=
  λ A B f m, match m with Return a => f a | Throw e => Throw e end.

(** A result seen as an outcome. *)
Definition of_result {A : Type} (r : result A) : outcome A :=
  match r with Ok a => Return a | Raise e => Throw (Builtin e) end.

(** ** Python sequences *)

Definition bytes := list Z.

Definition is_byte (b : Z) : Prop := 0 ≤ b < 256.
Definition is_bytes (d : bytes) : Prop := Forall is_byte d.

Definition len {A : Type} (l : list A) : Z := Z.of_nat (length l).

(** [l[i]]: a negative index counts from the end, an index out of range raises
    [IndexError]. *)
Definition getitem {A : Type} (l : list A) (i : Z) : result A :=
  let j := if bool_decide (i < 0) then i + len l else i in
  if bool_decide (j < 0) then Raise IndexError
  else match l !! Z.to_nat j with
       | Some x => Ok x
       | None => Raise IndexError
       end.

(** [l[i] = x] on a list or bytearray: same index rules, the length is kept. *)
Definition setitem {A : Type} (l : list A) (i : Z) (x : A) : result (list A) :=
  let j := if bool_decide (i < 0) then i + len l else i in
  if bool_decide (0 ≤ j < len l) then Ok (<[Z.to_nat j := x]> l)
  else Raise IndexError.

(** [l[a:b]] for [0 <= a]: the bounds are clipped to the sequence. *)
Definition slice {A : Type} (l : list A) (a b : Z) : list A :=
  take (Z.to_nat (b - a)) (drop (Z.to_nat a) l).

(** [xrange(start, stop, step)] for a positive step. *)
Definition xrange (start stop step : Z) : list Z :=
  (λ k : nat, start + step * Z.of_nat k) <$>
    seq 0 (Z.to_nat ((stop - start + step - 1) `div` step)).

(** [range(n)]. *)
Definition range (n : Z) : list Z := xrange 0 n 1.

(** ** naabal.util *)

Module util.

(** [split_by(iterable, chunk_size)], consumed as a list. *)
Definition split_by {A : Type} (iterable : list A) (chunk_size : Z) : list (list A) :=
  (λ pos, slice iterable pos (pos + chunk_size)) <$> xrange 0 (len iterable) chunk_size.

(** [ROTL = lambda uint32, bits: ((uint32 << bits) | (uint32 >> (32 - bits)))].
    Nothing reduces the result, or the argument, to 32 bits. *)
Definition ROTL (uint32 bits : Z) : Z :=
  Z.lor (Z.shiftl uint32 bits) (Z.shiftr uint32 (32 - bits)).

(** [SPLIT_TO_BYTES]: the four low bytes, least significant first. *)
Definition SPLIT_TO_BYTES (uint32 : Z) : bytes :=
  (λ s, Z.shiftr (Z.land uint32 (Z.shiftl 255 s)) s) <$> xrange 0 32 8.

Definition CAST_TO_CHAR (uint32 : Z) : Z := Z.land uint32 255.

(** Modelled from the spec: [COMBINE_BYTES] is imported from
    [naabal.util.c_macros], which is not among the sources.  The spec says the
    keys are consumed "as sequences of 4-byte little-endian words", so a chunk
    of bytes is read as a little-endian number. *)
Definition COMBINE_BYTES (chunk : bytes) : Z :=
  foldr (λ b acc, Z.lor b (Z.shiftl acc 8)) 0 chunk.

End util.

(** ** Python file objects

    The built-in file (and [StringIO]) as the code uses it: a byte content and
    a cursor.  Reading never raises; it returns what is left when fewer bytes
    than asked remain. *)

Module PyFile.

(** The cursor is never negative: it is a natural number. *)
Record t : Type := mk { content : bytes; pos : nat }.

Definition SEEK_SET : Z := 0.
Definition SEEK_CUR : Z := 1.
Definition SEEK_END : Z := 2.

Definition tell (f : t) : Z := Z.of_nat (pos f).

(** The bytes from the cursor to the end. *)
Definition remaining (f : t) : bytes := drop (pos f) (content f).

(** [f.read(size)]: [None] or a negative size read to the end. *)
Definition read (size : option Z) (f : t) : bytes * t :=
  let data := match size with
              | None => remaining f
              | Some n => if bool_decide (n < 0) then remaining f
                          else take (Z.to_nat n) (remaining f)
              end in
  (data, mk (content f) (pos f + length data)).

(** [f.seek(offset, whence)]: a negative target is an [IOError] (EINVAL) and
    leaves the cursor where it was. *)
Definition seek (offset whence : Z) (f : t) : result t :=
  let base := if bool_decide (whence = SEEK_SET) then 0
              else if bool_decide (whence = SEEK_CUR) then tell f
              else len (content f) in
  if bool_decide (base + offset < 0) then Raise IOError
  else Ok (mk (content f) (Z.to_nat (base + offset))).

End PyFile.

(** The unsigned number a byte string holds, least significant byte first. *)
Definition le_uint (data : bytes) : Z := foldr (λ b acc, b + 256 * acc) 0 data.

(** [struct.unpack('<L', data)[0]] (size 4) and [struct.unpack('<H', data)[0]]
    (size 2): the buffer must have exactly the size of the format. *)
Definition unpack_le (size : Z) (data : bytes) : result Z :=
  if bool_decide (len data = size) then Ok (le_uint data) else Raise StructError.

(** ** naabal.util.gbx_crypt *)

Module GearboxCrypt.

Record t : Type := mk {
  _chunk_size : Z;
  _data_size : Z;
  _key_size : Z;
  _encryption_key : bytes
}.

Section combine_keys.
(** [self._key_size] and [self._data_size], set before the call. *)
Variables (key_size data_size : Z).
(** The two keys after [COMBINE_BYTES] over [split_by(key, 4)]. *)
Variables (local_words global_words : list Z).

(** [c = global_key[CAST_TO_CHAR(c ^ bytes[j])] ^ (c >> 8)] *)
Definition inner_round (bytes_ : bytes) (c j : Z) : result Z :=
  bj ← getitem bytes_ j;
  g ← getitem global_words (util.CAST_TO_CHAR (Z.lxor c bj));
  mret (Z.lxor g (Z.shiftr c 8)).

(** The body of [for b in range(4)]; the state is [(c, combined_key)]. *)
Definition sub_round (i : Z) (st : Z * bytes) (b : Z) : result (Z * bytes) :=
  let bytes_ := util.SPLIT_TO_BYTES (util.ROTL (st.1 + data_size) 8) in
  c ← for_each (inner_round bytes_) st.1 (range 4);
  combined_key ← setitem st.2 (i + b) (util.CAST_TO_CHAR c);
  mret (c, combined_key).

(** The body of [for i in xrange(0, self._key_size, 4)]. *)
Definition block (combined_key : bytes) (i : Z) : result bytes :=
  c ← getitem local_words (i `div` 4);
  st ← for_each (sub_round i) (c, combined_key) (range 4);
  mret st.2.

Definition combine_words : result bytes :=
  for_each block (replicate (Z.to_nat key_size) 0) (xrange 0 key_size 4).
End combine_keys.

Definition _combine_keys (key_size data_size : Z) (local_key global_key : bytes)
  : result bytes :=
  let local_words := util.COMBINE_BYTES <$> util.split_by local_key 4 in
  let global_words := util.COMBINE_BYTES <$> util.split_by global_key 4 in
  combine_words key_size data_size local_words global_words.

Definition __init__ (data_size : Z) (local_key global_key : bytes) (chunk_size : Z)
  : result t :=
  let key_size := len local_key in
  key ← _combine_keys key_size data_size local_key global_key;
  mret (mk chunk_size data_size key_size key).

Definition default_chunk_size : Z := 4 * 1024.

(** [_key_stream(length, start_pos)] is a generator: its items are computed
    one at a time, and the one at which [i % ks] or [key[...]] fails raises
    when it is asked for. *)
Definition key_item (self : t) (i : Z) : result Z :=
  if bool_decide (_key_size self = 0) then Raise ZeroDivisionError
  else getitem (_encryption_key self) (i `mod` _key_size self).

Definition _key_stream (self : t) (length start_pos : Z) : list (result Z) :=
  key_item self <$> xrange start_pos (start_pos + length) 1.

(** [bytearray(op(c, k) for c, k in izip(data, key_data))]: [izip] takes an
    item of [data] first and stops when [data] is exhausted; a raising item
    of the generator aborts the construction. *)
Fixpoint zip_bytes (op : Z → Z → Z) (data : bytes) (key_data : list (result Z))
  : result bytes :=
  match data, key_data with
  | [], _ => Ok []
  | _ :: _, [] => Ok []
  | c :: data', k :: key_data' =>
      kv ← k; out ← zip_bytes op data' key_data'; mret (op c kv :: out)
  end.

Definition decrypt (self : t) (data : bytes) (offset : Z) : result bytes :=
  let key_data := _key_stream self (len data) offset in
  zip_bytes (λ c k, Z.land 255 (c + k)) data key_data.

Definition encrypt (self : t) (data : bytes) (offset : Z) : result bytes :=
  let key_data := _key_stream self (len data) offset in
  zip_bytes (λ c k, Z.land 255 (c - k)) data key_data.

(** The [while chunk:] loop of [decrypt_stream] and [encrypt_stream].  The
    output buffer is the sequence of the bytes written so far.  [fuel] bounds
    the number of loop tests; [None] means it ran out.  An exception leaves
    the buffers as they were when it was raised. *)
Fixpoint stream_loop (fuel : nat) (cipher : bytes → Z → result bytes)
    (chunk_size : Z) (chunk : bytes) (offset : Z)
    (input_buffer : PyFile.t) (output_buffer : bytes)
  : option (PyFile.t * bytes * result unit) :=
  match fuel with
  | O => None
  | S fuel' =>
      if bool_decide (chunk = []) then Some (input_buffer, output_buffer, Ok ())
      else
        match cipher chunk offset with
        | Raise e => Some (input_buffer, output_buffer, Raise e)
        | Ok data =>
            let output_buffer' := output_buffer ++ data in
            let offset' := offset + len chunk in
            let rd := PyFile.read (Some chunk_size) input_buffer in
            stream_loop fuel' cipher chunk_size rd.1 offset' rd.2 output_buffer'
        end
  end.

Definition stream (fuel : nat) (cipher : bytes → Z → result bytes) (chunk_size : Z)
    (input_buffer : PyFile.t) (output_buffer : bytes) (offset : Z)
  : option (PyFile.t * bytes * result Z) :=
  let start_pos := PyFile.tell input_buffer in
  let offset := offset + start_pos in
  let rd := PyFile.read (Some chunk_size) input_buffer in
  match stream_loop fuel cipher chunk_size rd.1 offset rd.2 output_buffer with
  | None => None
  | Some (inp, out, r) => Some (inp, out, _ ← r; mret (PyFile.tell inp - start_pos))
  end.

Definition decrypt_stream (fuel : nat) (self : t)
    (input_buffer : PyFile.t) (output_buffer : bytes) (offset : Z) :=
  stream fuel (decrypt self) (_chunk_size self) input_buffer output_buffer offset.

Definition encrypt_stream (fuel : nat) (self : t)
    (input_buffer : PyFile.t) (output_buffer : bytes) (offset : Z) :=
  stream fuel (encrypt self) (_chunk_size self) input_buffer output_buffer offset.

End GearboxCrypt.

(** ** The key schedule as the specification words it

    A second definition, written from the specification and not from the
    code, to compare [_combine_keys] with: words are 32 bits wide and
    [rotate_left] is the rotation of a 32-bit word. *)

Module KeyScheduleSpec.

Definition word (x : Z) : Z := x `mod` 2 ^ 32.
Definition low_byte (x : Z) : Z := x `mod` 256.

(** Rotation of the 32-bit word [x] to the left by 8 bits. *)
Definition rotate_left_8 (x : Z) : Z :=
  (word x * 2 ^ 8) `mod` 2 ^ 32 + word x `div` 2 ^ 24.

(** Little-endian decomposition of a 32-bit word into 4 bytes. *)
Definition decompose (x : Z) : list Z :=
  [x `mod` 256; (x `div` 2 ^ 8) `mod` 256; (x `div` 2 ^ 16) `mod` 256;
   (x `div` 2 ^ 24) `mod` 256].

(** A little-endian 32-bit word from 4 bytes. *)
Definition le_word (b : list Z) : Z :=
  nth 0 b 0 + 2 ^ 8 * nth 1 b 0 + 2 ^ 16 * nth 2 b 0 + 2 ^ 24 * nth 3 b 0.

Fixpoint words (key : bytes) (n : nat) : list Z :=
  match n with
  | O => []
  | S n' => le_word (take 4 key) :: words (drop 4 key) n'
  end.

Section schedule.
Variables (data_size : Z) (substitution_table : list Z).

(** [c = substitution_table[low_byte(c XOR byte)] XOR (c >> 8)] *)
Definition inner (c byte : Z) : Z :=
  Z.lxor (nth (Z.to_nat (low_byte (Z.lxor c byte))) substitution_table 0)
         (c `div` 2 ^ 8).

(** One sub-round: the value of [c] after the 4 inner rounds. *)
Definition sub (c : Z) : Z :=
  foldl inner c (decompose (rotate_left_8 (c + data_size))).

(** The 4 combined-key bytes of the block that starts from word [c]. *)
Definition block_bytes (c : Z) : list Z :=
  let c0 := sub c in let c1 := sub c0 in let c2 := sub c1 in let c3 := sub c2 in
  [low_byte c0; low_byte c1; low_byte c2; low_byte c3].
End schedule.

Definition combine_keys (data_size : Z) (local_key global_key : bytes) : bytes :=
  let table := words global_key 256 in
  mjoin (block_bytes data_size table <$> words local_key (length local_key / 4)).

End KeyScheduleSpec.

(** ** Sorting by a string key

    [list.sort(key=...)] is a stable sort.  Byte strings compare
    lexicographically by character code, and [None] (the name of a member that
    was never loaded) sorts before every string. *)

Definition key_leb (a b : option string) : bool :=
  match a, b with
  | None, _ => true
  | Some _, None => false
  | Some x, Some y => String.leb x y
  end.

Definition key_le (a b : option string) : Prop := key_leb a b = true.

Section sort.
Context {A : Type} (key : A → option string).

Fixpoint insert_by (x : A) (l : list A) : list A :=
  match l with
  | [] => [x]
  | y :: l' => if key_leb (key x) (key y) then x :: l else y :: insert_by x l'
  end.

Definition list_sort (l : list A) : list A := foldr insert_by [] l.
End sort.

(** ** naabal.formats.big *)

(** [timestamp_to_datetime] is imported from [naabal.util] and is not among
    the sources: a datetime is kept as the timestamp it was made from. *)
Inductive datetime : Set := timestamp_to_datetime (timestamp : Z).

(** What [os.stat] returns, as far as the code reads it. *)
Record stat_result : Set := { st_mtime : Z; st_size : Z }.

Module BigInfo.

(** The class attributes are the defaults of a fresh object.  [_bigfile] is
    the identity of the owning archive; [_real_filename] is set by
    [ExternalBigInfo.load] only. *)
Record t : Type := mk {
  _bigfile : nat;
  _offset : Z;
  _name : option string;
  _mtime : option datetime;
  _real_size : Z;
  _stored_size : Z;
  _real_filename : option string
}.

Definition __init__ (bigfile : nat) : t := mk bigfile 0 None None 0 0 None.

Definition name (self : t) := _name self.
Definition mtime (self : t) := _mtime self.
Definition real_size (self : t) := _real_size self.
Definition stored_size (self : t) := _stored_size self.

Definition is_compressed (self : t) : bool :=
  bool_decide (real_size self > stored_size self).

End BigInfo.

(** The [file] argument of [load]: an object with a [read] attribute (of which
    only [name] is used), or a path. *)
Inductive file_arg : Set :=
| FileObject (name : string)
| Path (path : string).

Module ExternalBigInfo.

(** [load(self, file, alt_filename=None)].  [os_stat] is [os.stat], [None]
    where it raises [OSError].  The variable [filename] read when
    [alt_filename is None] is bound nowhere. *)
Definition load (os_stat : string → option stat_result)
    (self : BigInfo.t) (file : file_arg) (alt_filename : option string)
  : result BigInfo.t :=
  let real_filename := match file with FileObject n => n | Path p => p end in
  alt ← (match alt_filename with None => Raise NameError | Some a => Ok a end);
  fstat ← (match os_stat real_filename with None => Raise OSError | Some s => Ok s end);
  mret (BigInfo.mk (BigInfo._bigfile self) 0 (Some alt)
          (Some (timestamp_to_datetime (st_mtime fstat)))
          (st_size fstat) (st_size fstat) (Some real_filename)).

End ExternalBigInfo.

Module BigFile.

(** Python's object store, as far as member lists go.  A list object lives at
    a location of [heap]; [BigFile._members = []] is one list object, made
    when the class is defined, and an instance reaches it through the class
    until the instance gets a [_members] attribute of its own.  [attrs] maps
    an instance to the location its own [_members] attribute holds. *)
Record world : Type := mk {
  heap : gmap nat (list BigInfo.t);
  attrs : gmap nat nat
}.

Definition class_members : nat := 0%nat.

(** The store once the class is defined. *)
Definition initial : world := mk {[ class_members := [] ]} ∅.

(** [self._members]: the instance attribute if there is one, else the class's. *)
Definition _members (w : world) (self : nat) : nat :=
  default class_members (attrs w !! self).

Definition get_members (w : world) (self : nat) : list BigInfo.t :=
  default [] (heap w !! _members w self).

Definition get_filenames (w : world) (self : nat) : list (option string) :=
  BigInfo.name <$> get_members w self.

(** [__len__] *)
Definition __len__ (w : world) (self : nat) : Z := len (get_members w self).

(** [get_member(filename)]: the loop returns at the first member whose name
    equals [filename]; its [else] branch raises [KeyError(filename)] when the
    loop ends without a match.  [filename] is a string, or [None]. *)
Fixpoint find_member (filename : option string) (members : list BigInfo.t)
  : outcome BigInfo.t :=
  match members with
  | [] => Throw (KeyError filename)
  | member :: members' =>
      if decide (BigInfo.name member = filename) then Return member
      else find_member filename members'
  end.

Definition get_member (w : world) (self : nat) (filename : option string)
  : outcome BigInfo.t :=
  find_member filename (get_members w self).

(** [self._members.sort(key=lambda m: m.name)], in place. *)
Definition _sort_members (w : world) (self : nat) : world :=
  let l := _members w self in
  mk (<[l := list_sort BigInfo.name (default [] (heap w !! l))]> (heap w)) (attrs w).

(** [load]: [members] is the new list [self._get_members()] returns (the
    method is the concrete format's), stored in a list object of its own. *)
Definition load (w : world) (self : nat) (members : list BigInfo.t) : world :=
  let l := fresh (dom (heap w)) in
  _sort_members (mk (<[l := members]> (heap w)) (<[self := l]> (attrs w))) self.

Definition add (w : world) (self : nat) (biginfo : BigInfo.t) (sort_after : bool)
  : world :=
  let l := _members w self in
  let w' := mk (<[l := default [] (heap w !! l) ++ [biginfo]]> (heap w)) (attrs w) in
  if sort_after then _sort_members w' self else w'.

(** A loop over a store: an exception stops it and keeps the store. *)
Fixpoint for_each_st {S B : Type} (body : S → B → S * result unit) (s : S)
    (xs : list B) : S * result unit :=
  match xs with
  | [] => (s, Ok ())
  | x :: xs' =>
      match body s x with
      | (s', Ok _) => for_each_st body s' xs'
      | (s', Raise e) => (s', Raise e)
      end
  end.

Section filesystem.
(** [os.stat], [os.walk(path, topdown=False)] as the list it yields,
    [os.path.join] and [s.replace(old, '', 1)]. *)
Variables (os_stat : string → option stat_result)
          (os_walk : string → list (string * list string * list string))
          (os_path_join : string → string → string)
          (replace_first : string → string → string).

Definition get_biginfo (self : nat) (filename : file_arg)
    (alt_filename : option string) : result BigInfo.t :=
  let big_info := BigInfo.__init__ self in
  ExternalBigInfo.load os_stat big_info filename alt_filename.

Definition add_file (w : world) (self : nat) (fileobj : file_arg)
  : world * result unit :=
  match get_biginfo self fileobj None with
  | Ok bi => (add w self bi true, Ok ())
  | Raise e => (w, Raise e)
  end.

Definition add_all_file (self : nat) (path : string) (exclude : string → bool)
    (w : world) (filename : string) : world * result unit :=
  if negb (exclude filename) then
    let partial_filename := replace_first filename path in
    match get_biginfo self (Path filename) (Some partial_filename) with
    | Ok bi => (add w self bi false, Ok ())
    | Raise e => (w, Raise e)
    end
  else (w, Ok ()).

Definition add_all_dir (self : nat) (path : string) (exclude : string → bool)
    (w : world) (entry : string * list string * list string) : world * result unit :=
  let '(dirpath, _, filenames) := entry in
  for_each_st (add_all_file self path exclude) w (os_path_join dirpath <$> filenames).

(** [exclude] is the predicate after the default [lambda fn: False] has
    replaced [None]. *)
Definition add_all (w : world) (self : nat) (path : string)
    (exclude : string → bool) : world * result unit :=
  match for_each_st (add_all_dir self path exclude) w (os_walk path) with
  | (w', Ok _) => (_sort_members w' self, Ok ())
  | (w', Raise e) => (w', Raise e)
  end.

(** A call of [add] with the default [sort_after], or of [add_all]. *)
Inductive call : Type :=
| Add (biginfo : BigInfo.t)
| AddAll (path : string) (exclude : string → bool).

Definition do_call (self : nat) (w : world) (c : call) : world * result unit :=
  match c with
  | Add bi => (add w self bi true, Ok ())
  | AddAll path exclude => add_all w self path exclude
  end.

(** The names a call adds when it completes. *)
Definition added_names (c : call) : list (option string) :=
  match c with
  | Add bi => [BigInfo.name bi]
  | AddAll path exclude =>
      entry ← os_walk path;
      filename ← os_path_join entry.1.1 <$> entry.2;
      if exclude filename then [] else [Some (replace_first filename path)]
  end.
End filesystem.

End BigFile.

(** Modelled from the spec: [FileInFile] comes from [naabal.util.file_io],
    which is not among the sources.  The spec describes it as "a read-only
    window over a byte range of a parent file" that "exposes a file-like
    read/seek/tell surface scoped to that byte range": a file whose content is
    that range, with a cursor of its own. *)
Definition FileInFile (parent : PyFile.t) (start length : Z) : PyFile.t :=
  PyFile.mk (slice (PyFile.content parent) start (start + length)) 0%nat.

(** Code that works on a file handle: the handle is threaded through and an
    exception keeps the handle as it was when it was raised. *)
Definition io (A : Type) : Type := PyFile.t → PyFile.t * result A.

#[global] Instance io_ret : MRet io := λ A a h, (h, Ok a).
#[global] Instance io_bind : MBind io :=
  λ A B f m h, match m h with
               | (h', Ok a) => f a h'
               | (h', Raise e) => (h', Raise e)
               end.

Definition io_seek (offset whence : Z) : io unit :=
  λ h, match PyFile.seek offset whence h with
       | Ok h' => (h', Ok ())
       | Raise e => (h, Raise e)
       end.
Definition io_tell : io Z := λ h, (h, Ok (PyFile.tell h)).
Definition io_read (size : option Z) : io bytes :=
  λ h, let rd := PyFile.read size h in (rd.2, Ok rd.1).
Definition io_lift {A : Type} (r : result A) : io A := λ h, (h, r).
Definition io_raise {A : Type} (e : exn) : io A := io_lift (Raise e).

Module GearboxEncryptedBigFile.

Definition ENCRYPTION_KEY_MARKER : Z := 0.
Definition ENCRYPTION_KEY_MAX_SIZE : Z := 1024.

(** The attributes of an instance that the encryption layer uses.  [_crypto]
    is [None] until a key is loaded. *)
Record t : Type := mk {
  _handle : PyFile.t;
  _real_handle : option PyFile.t;
  _crypto : option GearboxCrypt.t
}.

Section master_key.
(** [MASTER_KEY] is [None] in this class and a byte string in the classes
    of the concrete formats. *)
Variable MASTER_KEY : option bytes.

(** [GearboxCrypt(encrypted_data_size, local_encryption_key, self.MASTER_KEY)] *)
Definition new_crypt (encrypted_data_size : Z) (local_encryption_key : bytes)
  : result GearboxCrypt.t :=
  match MASTER_KEY with
  | None => Raise TypeError
  | Some global_key =>
      GearboxCrypt.__init__ encrypted_data_size local_encryption_key global_key
        GearboxCrypt.default_chunk_size
  end.

Definition _load_encryption : io GearboxCrypt.t :=
  _ ← io_seek (-4) PyFile.SEEK_END;
  last_int_loc ← io_tell;
  d ← io_read (Some 4);
  marker_offset ← io_lift (unpack_le 4 d);
  if bool_decide (marker_offset < last_int_loc - 6) then
    _ ← io_seek (- marker_offset) PyFile.SEEK_CUR;
    encrypted_data_size ← io_tell;
    d ← io_read (Some 4);
    marker ← io_lift (unpack_le 4 d);
    if bool_decide (marker = ENCRYPTION_KEY_MARKER) then
      d ← io_read (Some 2);
      encryption_key_bytes ← io_lift (unpack_le 2 d);
      if bool_decide (encryption_key_bytes ≤ ENCRYPTION_KEY_MAX_SIZE) then
        local_encryption_key ← io_read (Some encryption_key_bytes);
        io_lift (new_crypt encrypted_data_size local_encryption_key)
      else io_raise GearboxEncryptionException
    else io_raise GearboxEncryptionException
  else io_raise GearboxEncryptionException.

(** [load].  [super_load] is [BigFile.load], which reads the records of the
    concrete format through the new handle. *)
Definition load (super_load : t → t * result unit) (self : t) : t * result unit :=
  match _load_encryption (_handle self) with
  | (h, Raise e) => (mk h (_real_handle self) (_crypto self), Raise e)
  | (h, Ok crypto) =>
      let data_size := GearboxCrypt._data_size crypto in
      super_load (mk (FileInFile h 0 data_size) (Some h) (Some crypto))
  end.

(** [check_format] up to the call of the parent's [check_format]. *)
Definition check_format (super_check_format : t → t * bool) (self : t) : t * bool :=
  match _load_encryption (_handle self) with
  | (h, Raise e) => (mk h (_real_handle self) (_crypto self), false)
  | (h, Ok crypto) => super_check_format (mk h (_real_handle self) (Some crypto))
  end.
End master_key.

(** [self._crypto.decrypt(self._handle.read(size), offset)] *)
Definition _read_encrypted (crypto : GearboxCrypt.t) (size : option Z) : io bytes :=
  offset ← io_tell;
  data ← io_read size;
  io_lift (GearboxCrypt.decrypt crypto data offset).

(** [read(size=None)].  The property [data_size] is [self._crypto._data_size],
    so it raises [AttributeError] while [_crypto] is [None]; once a cipher is
    there it is the integer the cipher was made with, never [None]. *)
Definition read (self : t) (size : option Z) : t * result bytes :=
  match _crypto self with
  | None => (self, Raise AttributeError)
  | Some crypto =>
      let data_size := GearboxCrypt._data_size crypto in
      let cur_pos := PyFile.tell (_handle self) in
      let r :=
        if bool_decide (cur_pos < data_size) then
          let size' := match size with
                       | None => data_size - cur_pos
                       | Some s => if bool_decide (cur_pos + s > data_size)
                                   then data_size - cur_pos else s
                       end in
          _read_encrypted crypto (Some size') (_handle self)
        else io_read size (_handle self) in
      (mk r.1 (_real_handle self) (_crypto self), r.2)
  end.

End GearboxEncryptedBigFile.


(** ** Notions the statements use *)

(** What [decrypt] and [encrypt] share: the bytes of [data] combined by [op]
    with the items of the key stream. *)
Definition keyed (self : GearboxCrypt.t) (op : Z → Z → Z) (data : bytes) (offset : Z)
  : result bytes :=
  GearboxCrypt.zip_bytes op data
    (GearboxCrypt._key_stream self (len data) offset).

(** The keystream byte at the absolute offset [p]:
    [combined_key[p mod key_size]]. *)
Definition keystream (self : GearboxCrypt.t) (p : Z) : Z :=
  nth (Z.to_nat (p `mod` GearboxCrypt._key_size self))
      (GearboxCrypt._encryption_key self) 0.

(** The derived key has [_key_size] bytes and is not empty. *)
Definition keyed_instance (self : GearboxCrypt.t) : Prop :=
  0 < GearboxCrypt._key_size self ∧
  len (GearboxCrypt._encryption_key self) = GearboxCrypt._key_size self.

Fixpoint keyed_bytes (self : GearboxCrypt.t) (op : Z → Z → Z) (data : bytes) (offset : Z)
  : bytes :=
  match data with
  | [] => []
  | c :: data' => op c (keystream self offset) :: keyed_bytes self op data' (offset + 1)
  end.

(** The file with its cursor at the end of the content it had left. *)
Definition at_end (f : PyFile.t) : PyFile.t :=
  PyFile.mk (PyFile.content f) (PyFile.pos f + length (PyFile.remaining f)).

(** The trailer of an encrypted archive, read off the content [c] of the
    file: [EOF] is its length, [backptr] the little-endian integer in its last
    4 bytes, the marker and the declared key length the 4 and 2 bytes at
    [EOF - backptr], and the key field the [key_len] bytes after them (clipped
    to the file, as a slice is). *)
Definition EOF (c : bytes) : Z := len c.
Definition backptr (c : bytes) : Z := le_uint (slice c (EOF c - 4) (EOF c)).
Definition encrypted_region_size (c : bytes) : Z := EOF c - backptr c.
Definition marker_field (c : bytes) : bytes :=
  slice c (encrypted_region_size c) (encrypted_region_size c + 4).
Definition key_len_field (c : bytes) : bytes :=
  slice c (encrypted_region_size c + 4) (encrypted_region_size c + 6).
Definition key_len (c : bytes) : Z := le_uint (key_len_field c).
Definition key_field (c : bytes) : bytes :=
  slice c (encrypted_region_size c + 6) (encrypted_region_size c + 6 + key_len c).

(** A file of 21 bytes: 11 bytes of payload, a zero marker, a declared key
    length of 100 and a back pointer of 10, so that only the 4 bytes of the
    back pointer itself follow the key length. *)
Definition short_key_file : PyFile.t :=
  PyFile.mk (replicate 11 7 ++ [0;0;0;0; 100;0; 10;0;0;0]) 0.

(** A file of 30 bytes with a well-formed trailer: 12 bytes of payload, a zero
    marker, a key length of 8, the key 01..08 and a back pointer of 18. *)
Definition good_file : PyFile.t :=
  PyFile.mk (replicate 12 7 ++ [0;0;0;0; 8;0; 1;2;3;4;5;6;7;8; 18;0;0;0]) 0.

(** A file of 12 zero bytes: its back pointer is 0, which puts the marker at
    the very end of the file. *)
Definition zero_file : PyFile.t := PyFile.mk (replicate 12 0) 0.

(** A file whose trailer declares a key of 1025 bytes, and an archive just
    opened on it. *)
Definition long_key_file : PyFile.t :=
  PyFile.mk (replicate 12 7 ++ [0;0;0;0; 1;4; 1;2;3;4;5;6;7;8; 18;0;0;0]) 0.
Definition long_key_archive : GearboxEncryptedBigFile.t :=
  GearboxEncryptedBigFile.mk long_key_file None None.

(** An archive on [good_file] after its cipher was loaded, its handle at
    position 5. *)
Definition loaded_archive : GearboxEncryptedBigFile.t :=
  GearboxEncryptedBigFile.mk (PyFile.mk (PyFile.content good_file) 5) None
    (Some (GearboxCrypt.mk 4096 12 8 [10; 189; 39; 2; 18; 173; 95; 42])).

(** A file system with one file, [data/a.txt], of 100 bytes. *)
Definition example_stat (path : string) : option stat_result :=
  if bool_decide (path = "data/a.txt"%string)
  then Some {| st_mtime := 1420070400; st_size := 100 |} else None.

(** The order of a sort by [key]. *)
Definition by_key {A : Type} (key : A → option string) (x y : A) : Prop :=
  key_le (key x) (key y).

(** A member as [get_biginfo] makes it for [data/a.txt] under the name
    [a.txt], for an archive numbered 1. *)
Definition member_a : BigInfo.t :=
  BigInfo.mk 1 0 (Some "a.txt"%string) (Some (timestamp_to_datetime 1420070400))
    100 100 (Some "data/a.txt"%string).

(** A small file system for the examples: the walk of [data] finds the one
    file [a.txt]; joining puts a slash between directory and file; the
    replacement drops [old] where the string starts with it (the only case the
    example meets). *)
Definition example_walk (path : string) : list (string * list string * list string) :=
  if bool_decide (path = "data"%string) then [("data"%string, [], ["a.txt"%string])]
  else [].
Definition example_join (dirpath fn : string) : string :=
  (dirpath +:+ "/" +:+ fn)%string.
Definition example_replace (s old : string) : string :=
  if String.prefix old s
  then String.substring (String.length old) (String.length s - String.length old) s
  else s.

(** Two members as the index of a container lists them, out of order. *)
Definition member_b : BigInfo.t :=
  BigInfo.mk 1 2048 (Some "b.txt"%string) (Some (timestamp_to_datetime 1420070400))
    100 100 None.
Definition member_c : BigInfo.t :=
  BigInfo.mk 1 1024 (Some "c.txt"%string) (Some (timestamp_to_datetime 1420070400))
    300 100 None.
Definition example_calls : list BigFile.call :=
  [BigFile.Add member_a; BigFile.AddAll "data"%string (λ _, false)].

(** The sums [c + data_size] of the four sub-rounds of the block that starts
    from the word [c] fit in 32 bits. *)
Definition block_fits (data_size : Z) (table : list Z) (c : Z) : Prop :=
  let c0 := KeyScheduleSpec.sub data_size table c in
  let c1 := KeyScheduleSpec.sub data_size table c0 in
  let c2 := KeyScheduleSpec.sub data_size table c1 in
  0 ≤ c + data_size < 2 ^ 32 ∧ 0 ≤ c0 + data_size < 2 ^ 32 ∧
  0 ≤ c1 + data_size < 2 ^ 32 ∧ 0 ≤ c2 + data_size < 2 ^ 32.

(** A cipher object with a chunk size of 3 and an input of 7 bytes with its
    cursor at 2, for the examples. *)
Definition example_cipher : GearboxCrypt.t := GearboxCrypt.mk 3 100 4 [1;2;3;4].
Definition example_input : PyFile.t := PyFile.mk [10;20;30;40;50;60;70] 2.

(** A substitution table for the examples: 256 words, word [k] made of the
    bytes [k], [255 - k], [90], [7]. *)
Definition example_master_key : bytes :=
  mjoin ((λ k : nat, [Z.of_nat k; 255 - Z.of_nat k; 90; 7]) <$> seq 0 256).

(** ** The record framework of [naabal/formats/__init__.py] *)

(** A value as [struct.unpack] hands it to a field's [read], and as a
    field's [write] hands it back: one integer, or a tuple of integers. *)
Inductive raw : Set :=
| RInt (x : Z)
| RTuple (xs : list Z).

(** ** Python's [struct], for the unsigned integer codes

    The record types of the concrete formats are not among the sources; the
    framework hands their format strings to [struct].  The codes modelled are
    the unsigned integers ['B'], ['H'], ['L'] and ['Q'] under the byte orders
    ['<'] and ['>'], which have standard sizes and no padding.  A format is
    the list of its codes. *)

Module struct.

Inductive code : Set := B | H | L | Q.
Inductive order : Set := LittleEndian | BigEndian.

Definition size (c : code) : nat :=
  match c with B => 1 | H => 2 | L => 4 | Q => 8 end.

(** [struct.calcsize] *)
Definition calcsize (fmt : list code) : Z :=
  foldr (λ c acc, Z.of_nat (size c) + acc) 0 fmt.

(** The [n] low bytes of [x], least significant first. *)
Fixpoint le_bytes (n : nat) (x : Z) : bytes :=
  match n with
  | O => []
  | S n' => x `mod` 256 :: le_bytes n' (x `div` 256)
  end.

Definition decode (o : order) (data : bytes) : Z :=
  match o with LittleEndian => le_uint data | BigEndian => le_uint (reverse data) end.

Definition encode (o : order) (n : nat) (x : Z) : bytes :=
  match o with LittleEndian => le_bytes n x | BigEndian => reverse (le_bytes n x) end.

Fixpoint unpack_values (o : order) (fmt : list code) (data : bytes) : list Z :=
  match fmt with
  | [] => []
  | c :: fmt' =>
      decode o (take (size c) data) :: unpack_values o fmt' (drop (size c) data)
  end.

(** [struct.unpack(fmt, data)]: [struct.error] unless the buffer has the size
    of the format. *)
Definition unpack (o : order) (fmt : list code) (data : bytes) : result (list Z) :=
  if bool_decide (len data = calcsize fmt) then Ok (unpack_values o fmt data)
  else Raise StructError.

(** [struct.pack(fmt, *values)]: [struct.error] when the number of values is
    not the number of codes, when a value is not an integer, or when it does
    not fit its code. *)
Fixpoint pack (o : order) (fmt : list code) (values : list raw)
  : result bytes :=
  match fmt, values with
  | [], [] => Ok []
  | c :: fmt', RInt x :: values' =>
      if bool_decide (0 ≤ x < 256 ^ Z.of_nat (size c)) then
        rest ← pack o fmt' values'; mret (encode o (size c) x ++ rest)
      else Raise StructError
  | _, _ => Raise StructError
  end.

End struct.

(** A handle as the record framework uses it: code over a state [S] that may
    raise, keeping the state it had reached. *)
Definition st (S A : Type) : Type := S → S * outcome A.

#[global] Instance st_ret {S : Type} : MRet (st S) := λ A a s, (s, Return a).
#[global] Instance st_bind {S : Type} : MBind (st S) :=
  λ A B f m s, match m s with
               | (s', Return a) => f a s'
               | (s', Throw e) => (s', Throw e)
               end.
Definition st_lift {S A : Type} (r : outcome A) : st S A := λ s, (s, r).

(** ** naabal.formats: StructuredFileSection *)

Module StructuredFileSection.

(** An entry of [STRUCTURE]: the dictionary with the keys [key], [fmt],
    [len], [default], [read] and [write].  [read] is [None] where the function
    raises (any exception is caught by [load]); [write] keeps its exception.
    A negative [len] is left out: [len] is a natural number. *)
Record member (V : Type) : Type := mk_member {
  key : string;
  fmt : list struct.code;
  len_ : nat;
  default : V;
  read : raw → option V;
  write : V → outcome raw
}.
Arguments mk_member {V}.
Arguments key {V}.
Arguments fmt {V}.
Arguments len_ {V}.
Arguments default {V}.
Arguments read {V}.
Arguments write {V}.

Section cls.
(** A subclass: its [ENDIANNESS] and [STRUCTURE], over the values [V] its
    fields hold. *)
Context {V : Type}.
Variable ENDIANNESS : struct.order.
Variable STRUCTURE : list (member V).

(** [data_format] without its first character, [ENDIANNESS]:
    [''.join(member['fmt'] * member['len'] for member in cls.STRUCTURE)] *)
Definition data_format : list struct.code :=
  m ← STRUCTURE; mjoin (replicate (len_ m) (fmt m)).

Definition data_size : Z := struct.calcsize data_format.

Definition keys : list string := key <$> STRUCTURE.

(** [unpack(data)] *)
Definition unpack (data : bytes) : outcome (list Z) :=
  if bool_decide (len data ≠ data_size) then Throw StructuredFileFormatException
  else of_result (struct.unpack ENDIANNESS data_format data).

(** The body of the loop of [load]; the state is [(self._data, idx)]. *)
Definition load_member (unpacked_data : list Z) (st : gmap string V * Z) (m : member V)
  : outcome (gmap string V * Z) :=
  member_data ← (if bool_decide (len_ m = 1%nat)
                 then x ← of_result (getitem unpacked_data st.2); Return (RInt x)
                 else Return (RTuple (slice unpacked_data st.2
                                        (st.2 + Z.of_nat (len_ m)))));
  parsed_member_data ← (match read m member_data with
                        | Some v => Return v
                        | None => Throw StructuredFileFormatException
                        end);
  mret (<[key m := parsed_member_data]> st.1, st.2 + Z.of_nat (len_ m)).

Fixpoint load_members (unpacked_data : list Z) (st : gmap string V * Z)
    (ms : list (member V)) : outcome (gmap string V * Z) :=
  match ms with
  | [] => Return st
  | m :: ms' => st' ← load_member unpacked_data st m; load_members unpacked_data st' ms'
  end.

(** What [load] does with the bytes it read. *)
Definition load_data (data : bytes) : outcome (gmap string V) :=
  unpacked_data ← unpack data;
  st ← load_members unpacked_data (∅, 0) STRUCTURE;
  mret st.1.

(** The body of the loop of [save]; the state is [unpacked_data]. *)
Definition save_member (data : gmap string V) (unpacked_data : list raw) (m : member V)
  : outcome (list raw) :=
  v ← (match data !! key m with
       | Some v => Return v
       | None => Throw (KeyError (Some (key m)))
       end);
  w ← write m v;
  if bool_decide (1 < len_ m)%nat then
    match w with
    | RTuple xs => Return (unpacked_data ++ (RInt <$> xs))
    | RInt _ => Throw (Builtin TypeError)
    end
  else Return (unpacked_data ++ [w]).

Fixpoint save_members (data : gmap string V) (unpacked_data : list raw)
    (ms : list (member V)) : outcome (list raw) :=
  match ms with
  | [] => Return unpacked_data
  | m :: ms' => u ← save_member data unpacked_data m; save_members data u ms'
  end.

(** What [save] hands to [handle.write]. *)
Definition save_data (data : gmap string V) : outcome bytes :=
  unpacked_data ← save_members data [] STRUCTURE;
  of_result (struct.pack ENDIANNESS data_format unpacked_data).

(** [_load_defaults]: a dictionary comprehension, where a later entry of a key
    replaces an earlier one. *)
Definition _load_defaults : gmap string V :=
  foldl (λ d m, <[key m := default m]> d) ∅ STRUCTURE.

Section handle.
(** The handle: [tell()], [read(size)] and [write(data)] over a state [S]. *)
Context {S : Type}.
Variable handle_tell : st S Z.
Variable handle_read : Z → st S bytes.
Variable handle_write : bytes → st S unit.

(** [load(handle)]; [handle.tell()] is an argument of the log call. *)
Definition load : st S (gmap string V) :=
  _ ← handle_tell; data ← handle_read data_size; st_lift (load_data data).

(** [save(handle)] *)
Definition save (data : gmap string V) : st S unit :=
  packed ← st_lift (save_data data); handle_write packed.

(** [__init__(handle=None)] *)
Definition __init__ (handle : bool) : st S (gmap string V) :=
  if handle then load else mret _load_defaults.
End handle.
End cls.

(** The value has the shape [load] hands to the field's [read]: one integer
    for a field of length 1, a tuple of that length otherwise. *)
Definition shaped {V : Type} (m : member V) (g : raw) : Prop :=
  match g with
  | RInt _ => len_ m = 1%nat
  | RTuple xs => len_ m ≠ 1%nat ∧ length xs = len_ m
  end.

(** [write] gives back what [read] was given. *)
Definition write_inverts_read {V : Type} (m : member V) : Prop :=
  ∀ g v, read m g = Some v → write m v = Return g.

(** What [write] returns has the shape of the field, and [read] gives back
    what [write] was given. *)
Definition read_inverts_write {V : Type} (m : member V) : Prop :=
  ∀ v g, write m v = Return g → shaped m g ∧ read m g = Some v.

End StructuredFileSection.

(** ** naabal.formats: StructuredFileSequence *)

Module StructuredFileSequence.

Section cls.
(** A subclass over a handle state [St]: [CHILD_TYPE(handle)] and
    [child.save(handle)] of its [CHILD_TYPE], whose instances are [C], and
    its [_get_expected_length(handle)]. *)
Context {St C : Type}.
Variable child_load : st St C.
Variable child_save : C → st St unit.
Variable _get_expected_length : st St Z.

(** [[self.CHILD_TYPE(handle) for i in xrange(n)]] *)
Fixpoint load_children (n : nat) : st St (list C) :=
  match n with
  | O => mret []
  | S n' => c ← child_load; cs ← load_children n'; mret (c :: cs)
  end.

(** [load(handle)]; the log call asks for the expected length once more. *)
Definition load : st St (list C) :=
  _ ← _get_expected_length;
  n ← _get_expected_length;
  load_children (Z.to_nat n).

(** [for child in self._data_list: child.save(handle)] *)
Fixpoint save_children (data_list : list C) : st St unit :=
  match data_list with
  | [] => mret ()
  | child :: rest => _ ← child_save child; save_children rest
  end.

(** [save(handle)] *)
Definition save (data_list : list C) : st St unit :=
  _ ← _get_expected_length; save_children data_list.

(** [__init__(handle=None)] *)
Definition __init__ (handle : bool) : st St (list C) :=
  if handle then load else mret [].
End cls.

(** [_get_expected_length] of the base class: [raise NotImplemented()] calls
    the constant [NotImplemented], which is not callable. *)
Definition base_get_expected_length {St : Type} : st St Z :=
  st_lift (Throw (Builtin TypeError)).

End StructuredFileSequence.

(** Fields that keep what [struct] gives them: one integer, and a tuple of
    [n] integers.  Their [write] refuses a value of another shape. *)
Definition int_field (key : string) (c : struct.code)
  : StructuredFileSection.member raw :=
  StructuredFileSection.mk_member key [c] 1 (RInt 0)
    (λ g, match g with RInt _ => Some g | RTuple _ => None end)
    (λ v, match v with
          | RInt _ => Return v
          | RTuple _ => Throw (Builtin TypeError)
          end).

Definition tuple_field (key : string) (c : struct.code) (n : nat)
  : StructuredFileSection.member raw :=
  StructuredFileSection.mk_member key [c] n (RTuple (replicate n 0))
    (λ g, match g with
          | RTuple xs => if bool_decide (length xs = n) then Some g else None
          | RInt _ => None
          end)
    (λ v, match v with
          | RTuple xs => if bool_decide (length xs = n) then Return v
                         else Throw (Builtin ValueError)
          | RInt _ => Throw (Builtin TypeError)
          end).

Definition example_structure : list (StructuredFileSection.member raw) :=
  [int_field "count" struct.L; tuple_field "size" struct.H 2;
   int_field "flags" struct.B].

Definition example_record : bytes := [1; 2; 0; 0; 128; 2; 224; 1; 7].

Definition example_values : gmap string raw :=
  <["flags" := RInt 7]> (<["size" := RTuple [640; 480]]>
    (<["count" := RInt 513]> (<["comment" := RInt 0]> ∅))).

(** A file of two records of [example_structure] and two more bytes. *)
Definition example_records : PyFile.t :=
  PyFile.mk (example_record ++ [3; 0; 0; 0; 1; 0; 2; 0; 255] ++ [9; 9]) 0.

(** ** A Python file as the handle of a record *)

(** [f.write(data)] on a file that is open for writing and not in append
    mode: the bytes replace what is at the cursor and extend the file; a
    cursor beyond the end leaves a gap of zero bytes.  Writing no bytes
    changes nothing. *)
Definition file_write_at (data : bytes) (f : PyFile.t) : PyFile.t :=
  let c := PyFile.content f in
  let p := PyFile.pos f in
  match data with
  | [] => f
  | _ => PyFile.mk (take p c ++ replicate (p - length c) 0 ++ data
                      ++ drop (p + length data) c)
                   (p + length data)
  end.

Definition file_tell : st PyFile.t Z := λ f, (f, Return (PyFile.tell f)).
Definition file_read (size : Z) : st PyFile.t bytes :=
  λ f, let rd := PyFile.read (Some size) f in (rd.2, Return rd.1).
Definition file_write (data : bytes) : st PyFile.t unit :=
  λ f, (file_write_at data f, Return ()).

(** ** The encrypted archive as the handle of a record

    [tell] is the one of [StructuredFile], [self._handle.tell()]; [read] is
    the decrypting [read] of the archive. *)
Definition archive_tell : st GearboxEncryptedBigFile.t Z :=
  λ self, (self, Return (PyFile.tell (GearboxEncryptedBigFile._handle self))).
Definition archive_read (size : Z) : st GearboxEncryptedBigFile.t bytes :=
  λ self, let r := GearboxEncryptedBigFile.read self (Some size) in
          (r.1, of_result r.2).

(** ** naabal.formats: StructuredFile

    The file methods of the class hand the call to [self._handle], the file
    [open(filename, mode)] returned.  After [close] the handle is [None], and
    a method call on [None] is an [AttributeError].

    An object in [_data] is an instance of a record class: of a subclass of
    [StructuredFileSection], given by its [ENDIANNESS] and [STRUCTURE], or of
    a subclass of [StructuredFileSequence] whose [CHILD_TYPE] is such a
    section class and whose [_get_expected_length(handle)] computes the
    length from what [handle] has loaded so far. *)

Module StructuredFile.

(** What an instance holds, its class left out. *)
Inductive data (V : Type) : Type :=
| SectionData (d : gmap string V)
| SequenceData (l : list (gmap string V)).
Arguments SectionData {V} d.
Arguments SequenceData {V} l.

(** An entry of [STRUCTURE] is a key and a [member_type]. *)
Inductive member_type (V : Type) : Type :=
| SectionType (ENDIANNESS : struct.order)
    (STRUCTURE : list (StructuredFileSection.member V))
| SequenceType (ENDIANNESS : struct.order)
    (CHILD_STRUCTURE : list (StructuredFileSection.member V))
    (expected_length : gmap string (data V) → outcome Z).
Arguments SectionType {V} ENDIANNESS STRUCTURE.
Arguments SequenceType {V} ENDIANNESS CHILD_STRUCTURE expected_length.

(** An instance: its class and what it holds. *)
Inductive instance (V : Type) : Type :=
| SectionObject (ENDIANNESS : struct.order)
    (STRUCTURE : list (StructuredFileSection.member V)) (_data : gmap string V)
| SequenceObject (ENDIANNESS : struct.order)
    (CHILD_STRUCTURE : list (StructuredFileSection.member V))
    (expected_length : gmap string (data V) → outcome Z)
    (_data_list : list (gmap string V)).
Arguments SectionObject {V} ENDIANNESS STRUCTURE _data.
Arguments SequenceObject {V} ENDIANNESS CHILD_STRUCTURE expected_length _data_list.

Definition data_of {V : Type} (x : instance V) : data V :=
  match x with
  | SectionObject _ _ d => SectionData d
  | SequenceObject _ _ _ l => SequenceData l
  end.

Record t (V : Type) : Type := mk {
  _handle : option PyFile.t;
  _mode : option string;
  _name : option string;
  _closed : bool;
  _data : option (gmap string (instance V))
}.
Arguments mk {V}.
Arguments _handle {V}.
Arguments _mode {V}.
Arguments _name {V}.
Arguments _closed {V}.
Arguments _data {V}.

(** The mode the handle was opened with. *)
Definition has (c : string) (mode : option string) : bool :=
  match mode with
  | Some m => bool_decide (is_Some (String.index 0 c m))
  | None => false
  end.
Definition readable (mode : option string) : bool :=
  has "r" mode || has "+" mode.
Definition appending (mode : option string) : bool := has "a" mode.
Definition writable (mode : option string) : bool :=
  has "w" mode || has "a" mode || has "+" mode.

Section methods.
Context {V : Type}.

Definition closed (self : t V) : bool := _closed self.

(** The object with another handle, and with another [_data]. *)
Definition with_handle (self : t V) (h : PyFile.t) : t V :=
  mk (Some h) (_mode self) (_name self) (_closed self) (_data self).
Definition with_data (self : t V) (d : gmap string (instance V)) : t V :=
  mk (_handle self) (_mode self) (_name self) (_closed self) (Some d).

(** [self._handle.op(...)] *)
Definition on_handle {A : Type} (op : st PyFile.t A) : st (t V) A :=
  λ self, match _handle self with
          | None => (self, Throw (Builtin AttributeError))
          | Some h => let r := op h in (with_handle self r.1, r.2)
          end.

(** [close()]: the attributes are reset before [handle.close()] is called. *)
Definition close : st (t V) unit :=
  λ self, let self' := mk None None None true (_data self) in
          match _handle self with
          | None => (self', Throw (Builtin AttributeError))
          | Some _ => (self', Return ())
          end.

(** [isatty()], for a handle on a regular file. *)
Definition isatty : st (t V) bool :=
  λ self, if closed self then (self, Return false)
          else on_handle (λ h, (h, Return false)) self.

(** [read(size=-1)]: a file that was not opened for reading raises
    [IOError]. *)
Definition read (size : option Z) : st (t V) bytes :=
  λ self, on_handle (λ h, if readable (_mode self)
                          then let rd := PyFile.read size h in (rd.2, Return rd.1)
                          else (h, Throw (Builtin IOError))) self.

Definition seek (offset whence : Z) : st (t V) unit :=
  on_handle (λ h, match PyFile.seek offset whence h with
                  | Ok h' => (h', Return ())
                  | Raise e => (h, Throw (Builtin e))
                  end).

Definition tell : st (t V) Z := on_handle file_tell.

(** [write(data)]: a file that was not opened for writing raises [IOError];
    one opened for appending writes at its end. *)
Definition write (data : bytes) : st (t V) unit :=
  λ self, on_handle (λ h, if negb (writable (_mode self))
                          then (h, Throw (Builtin IOError))
                          else if appending (_mode self)
                          then file_write data
                                 (PyFile.mk (PyFile.content h) (length (PyFile.content h)))
                          else file_write data h) self.

(** [self._data[key] = value] and [self._data[key]] *)
Definition set_item (key : string) (value : instance V) : st (t V) unit :=
  λ self, match _data self with
          | None => (self, Throw (Builtin TypeError))
          | Some d => (with_data self (<[key := value]> d), Return ())
          end.
Definition get_item (key : string) : st (t V) (instance V) :=
  λ self, match _data self with
          | None => (self, Throw (Builtin TypeError))
          | Some d => match d !! key with
                      | Some x => (self, Return x)
                      | None => (self, Throw (KeyError (Some key)))
                      end
          end.

(** [_get_expected_length(handle)] of a sequence class. *)
Definition _get_expected_length (expected_length : gmap string (data V) → outcome Z)
  : st (t V) Z :=
  λ self, match _data self with
          | None => (self, Throw (Builtin TypeError))
          | Some d => (self, expected_length (data_of <$> d))
          end.

(** [StructuredFileSection.load] and [save] with the file as the handle. *)
Definition section_load (o : struct.order)
    (STRUCTURE : list (StructuredFileSection.member V)) : st (t V) (gmap string V) :=
  StructuredFileSection.load o STRUCTURE tell (λ n, read (Some n)).
Definition section_save (o : struct.order)
    (STRUCTURE : list (StructuredFileSection.member V)) (d : gmap string V)
  : st (t V) unit :=
  StructuredFileSection.save o STRUCTURE write d.

(** [member_type(self)] *)
Definition construct (mt : member_type V) : st (t V) (instance V) :=
  match mt with
  | SectionType o STRUCTURE =>
      d ← section_load o STRUCTURE; mret (SectionObject o STRUCTURE d)
  | SequenceType o CHILD expected_length =>
      l ← StructuredFileSequence.load (section_load o CHILD)
             (_get_expected_length expected_length);
      mret (SequenceObject o CHILD expected_length l)
  end.

(** [instance.save(self)] *)
Definition save_instance (x : instance V) : st (t V) unit :=
  match x with
  | SectionObject o STRUCTURE d => section_save o STRUCTURE d
  | SequenceObject o CHILD expected_length l =>
      StructuredFileSequence.save (section_save o CHILD)
        (_get_expected_length expected_length) l
  end.

Section structure.
Variable STRUCTURE : list (string * member_type V).

(** [for key, member_type in self.STRUCTURE: self._data[key] = member_type(self)] *)
Fixpoint load_members (ms : list (string * member_type V)) : st (t V) unit :=
  match ms with
  | [] => mret ()
  | (key, mt) :: ms' => x ← construct mt; _ ← set_item key x; load_members ms'
  end.

(** [load()] *)
Definition load : st (t V) unit :=
  _ ← seek 0 PyFile.SEEK_SET;
  _ ← (λ self, (with_data self ∅, Return ()));
  load_members STRUCTURE.

(** [for key, member_type in self.STRUCTURE: self._data[key].save(self)] *)
Fixpoint save_members (ms : list (string * member_type V)) : st (t V) unit :=
  match ms with
  | [] => mret ()
  | (key, _) :: ms' => x ← get_item key; _ ← save_instance x; save_members ms'
  end.

(** [save()] *)
Definition save : st (t V) unit :=
  _ ← seek 0 PyFile.SEEK_SET; save_members STRUCTURE.
End structure.
End methods.

End StructuredFile.

(** ** Notions the further statements use *)

(** The store after a step: this archive's list grew at its end, the list
    objects the instances use are the same, and the lists of other list
    objects are untouched. *)
Definition extends (self : nat) (w w' : BigFile.world) : Prop :=
  BigFile.attrs w' = BigFile.attrs w ∧
  (∃ bis, BigFile.get_members w' self = BigFile.get_members w self ++ bis) ∧
  (∀ l, l ≠ BigFile._members w self → BigFile.heap w' !! l = BigFile.heap w !! l).

(** What a call on [self] leaves alone: the list objects the instances use,
    and every list object but the one of [self]. *)
Definition frame (self : nat) (w w' : BigFile.world) : Prop :=
  BigFile.attrs w' = BigFile.attrs w ∧
  (∀ l, l ≠ BigFile._members w self → BigFile.heap w' !! l = BigFile.heap w !! l).

(** A file like [good_file] whose trailer declares a key of 6 bytes, with a
    back pointer of 16, and an archive just opened on it. *)
Definition odd_key_file : PyFile.t :=
  PyFile.mk (replicate 12 7 ++ [0;0;0;0; 6;0; 1;2;3;4;5;6; 16;0;0;0]) 0.
Definition odd_key_archive : GearboxEncryptedBigFile.t :=
  GearboxEncryptedBigFile.mk odd_key_file None None.

(** A record of 6 bytes. *)
Definition example_header : list (StructuredFileSection.member raw) :=
  [int_field "offset" struct.L; int_field "kind" struct.H].

(** A record class that [save] can write back: fields of one format code and
    a length of at least 1, whose [write] gives back what [read] was given,
    under keys that differ. *)
Definition record_ok {V : Type} (STRUCTURE : list (StructuredFileSection.member V))
  : Prop :=
  Forall (λ m, length (StructuredFileSection.fmt m) = 1%nat
               ∧ (1 ≤ StructuredFileSection.len_ m)%nat
               ∧ StructuredFileSection.write_inverts_read m) STRUCTURE
  ∧ NoDup (StructuredFileSection.keys STRUCTURE).

(** A member type of such records; the expected length of a sequence, once
    it is known, stays known when more members are loaded. *)
Definition member_type_ok {V : Type} (mt : StructuredFile.member_type V) : Prop :=
  match mt with
  | StructuredFile.SectionType _ STRUCTURE => record_ok STRUCTURE
  | StructuredFile.SequenceType _ CHILD expected_length =>
      record_ok CHILD
      ∧ ∀ d d' n, d ⊆ d' → expected_length d = Return n →
                  ∃ n', expected_length d' = Return n'
  end.

(** A file of records: a header of one byte, the number of entries, and the
    entries, records of [example_structure]. *)
Definition example_entry_count (d : gmap string (StructuredFile.data raw)) : outcome Z :=
  match d !! "header" with
  | Some (StructuredFile.SectionData h) =>
      match h !! "entries" with
      | Some (RInt n) => Return n
      | _ => Throw (Builtin TypeError)
      end
  | _ => Throw (Builtin TypeError)
  end.

Definition example_file_structure : list (string * StructuredFile.member_type raw) :=
  [("header", StructuredFile.SectionType struct.LittleEndian [int_field "entries" struct.B]);
   ("entries", StructuredFile.SequenceType struct.LittleEndian example_structure
                 example_entry_count)].

(** The file, opened in the mode [r+b], its cursor at 5. *)
Definition example_structured_file : StructuredFile.t raw :=
  StructuredFile.mk
    (Some (PyFile.mk ([2] ++ example_record ++ [3; 0; 0; 0; 1; 0; 2; 0; 255] ++ [9; 9]) 5))
    (Some "r+b") (Some "example.big") false None.

Definition example_loaded_file : StructuredFile.t raw :=
  (StructuredFile.load example_file_structure example_structured_file).1.

(** * Properties *)

(** ** Arithmetic and sequences *)

Lemma land_255 (x : Z) : Z.land 255 x = x `mod` 256.
Proof. rewrite Z.land_comm. exact (Z.land_ones x 8 ltac:(lia)). Qed.

Lemma len_nil {A : Type} : len (@nil A) = 0.
Proof. reflexivity. Qed.

Lemma len_cons {A : Type} (x : A) (l : list A) : len (x :: l) = len l + 1.
Proof. unfold len. simpl. lia. Qed.

Lemma len_app {A : Type} (l k : list A) : len (l ++ k) = len l + len k.
Proof. unfold len. rewrite length_app. lia. Qed.

Lemma len_insert {A : Type} (l : list A) (i : nat) (x : A) : len (<[i := x]> l) = len l.
Proof. unfold len. rewrite length_insert. reflexivity. Qed.

Lemma len_nonneg {A : Type} (l : list A) : 0 ≤ len l.
Proof. unfold len. lia. Qed.

Lemma xrange_unit (a : Z) (n : nat) :
  xrange a (a + Z.of_nat n) 1 = (λ k : nat, a + 1 * Z.of_nat k) <$> seq 0 n.
Proof.
  unfold xrange. do 2 f_equal.
  replace (a + Z.of_nat n - a + 1 - 1) with (Z.of_nat n) by lia.
  rewrite Z.div_1_r. lia.
Qed.

Lemma xrange_unit_cons (a : Z) (n : nat) :
  xrange a (a + Z.of_nat (S n)) 1 = a :: xrange (a + 1) (a + 1 + Z.of_nat n) 1.
Proof.
  rewrite !xrange_unit. simpl. f_equal; [lia|].
  rewrite <- seq_shift, <- list_fmap_compose.
  apply list_fmap_ext. intros _ k _. simpl. lia.
Qed.

Lemma getitem_nonneg {A : Type} (l : list A) (i : Z) :
  0 ≤ i →
  getitem l i = match l !! Z.to_nat i with Some x => Ok x | None => Raise IndexError end.
Proof.
  intros Hi. unfold getitem.
  rewrite (bool_decide_false (i < 0)) by lia.
  rewrite (bool_decide_false (i < 0)) by lia. reflexivity.
Qed.

Lemma setitem_in_range {A : Type} (l : list A) (i : Z) (x : A) :
  0 ≤ i < len l → setitem l i x = Ok (<[Z.to_nat i := x]> l).
Proof.
  intros Hi. unfold setitem.
  rewrite (bool_decide_false (i < 0)) by lia.
  rewrite bool_decide_true by lia. reflexivity.
Qed.

(** ** The cipher, byte by byte *)

Section cipher.
Import GearboxCrypt.
Variable self : GearboxCrypt.t.
Variable op : Z → Z → Z.

Lemma keyed_nil offset : keyed self op [] offset = Ok [].
Proof. reflexivity. Qed.

Lemma keyed_cons c data offset :
  keyed self op (c :: data) offset =
  kv ← key_item self offset; out ← keyed self op data (offset + 1); mret (op c kv :: out).
Proof.
  unfold keyed, _key_stream, len. simpl length.
  rewrite xrange_unit_cons. reflexivity.
Qed.

(** Ciphering a concatenation is ciphering the parts, the second one keyed
    where the first one ends; the first exception met is the one raised. *)
Lemma keyed_app a b offset :
  keyed self op (a ++ b) offset =
  x ← keyed self op a offset; y ← keyed self op b (offset + len a); mret (x ++ y).
Proof.
  revert offset. induction a as [|c a IH]; intros offset.
  - simpl app. rewrite keyed_nil, len_nil, Z.add_0_r. simpl.
    destruct (keyed self op b offset); reflexivity.
  - simpl app. rewrite !keyed_cons, IH, len_cons.
    replace (offset + (len a + 1)) with (offset + 1 + len a) by lia.
    destruct (key_item self offset); simpl; [|reflexivity].
    destruct (keyed self op a (offset + 1)); simpl; [|reflexivity].
    destruct (keyed self op b (offset + 1 + len a)); reflexivity.
Qed.

Lemma key_item_ok p : keyed_instance self → key_item self p = Ok (keystream self p).
Proof.
  intros [Hpos Hlen]. unfold key_item, keystream.
  rewrite bool_decide_false by lia.
  pose proof (Z.mod_pos_bound p (_key_size self) Hpos) as Hm.
  rewrite getitem_nonneg by lia.
  destruct (_ !! _) eqn:E.
  - f_equal. symmetry. apply nth_lookup_Some with (d := 0) in E. exact E.
  - apply lookup_ge_None in E. unfold len in Hlen. lia.
Qed.

Lemma keyed_ok data offset :
  keyed_instance self → keyed self op data offset = Ok (keyed_bytes self op data offset).
Proof.
  intros Hk. revert offset. induction data as [|c data IH]; intros offset.
  - reflexivity.
  - rewrite keyed_cons, key_item_ok, IH by done. reflexivity.
Qed.

Lemma keyed_bytes_length data offset :
  length (keyed_bytes self op data offset) = length data.
Proof. revert offset. induction data; intros; simpl; auto. Qed.

Lemma keyed_bytes_lookup data offset (i : nat) :
  keyed_bytes self op data offset !! i
  = (λ c, op c (keystream self (offset + Z.of_nat i))) <$> data !! i.
Proof.
  revert offset i. induction data as [|c data IH]; intros offset i.
  - reflexivity.
  - destruct i as [|i]; simpl.
    + rewrite Z.add_0_r. reflexivity.
    + rewrite IH.
      replace (offset + 1 + Z.of_nat i) with (offset + Z.of_nat (S i)) by lia.
      reflexivity.
Qed.
End cipher.

Lemma decrypt_keyed self data offset :
  GearboxCrypt.decrypt self data offset = keyed self (λ c k, Z.land 255 (c + k)) data offset.
Proof. reflexivity. Qed.

Lemma encrypt_keyed self data offset :
  GearboxCrypt.encrypt self data offset = keyed self (λ c k, Z.land 255 (c - k)) data offset.
Proof. reflexivity. Qed.

(** ** The key schedule keeps the length of the key *)

Lemma for_each_inv {A B : Type} (P : A → Prop) (body : A → B → result A) xs :
  (∀ a x a', P a → body a x = Ok a' → P a') →
  ∀ acc r, P acc → for_each body acc xs = Ok r → P r.
Proof.
  intros Hbody. induction xs as [|x xs IH]; intros acc r Hacc Hr; simpl in Hr.
  - congruence.
  - destruct (body acc x) as [a'|e] eqn:E; simpl in Hr; [|discriminate].
    eapply IH; [|exact Hr]. eauto.
Qed.

Lemma setitem_length {A : Type} (l l' : list A) i x :
  setitem l i x = Ok l' → length l' = length l.
Proof.
  unfold setitem. case_bool_decide; [|discriminate].
  intros [= <-]. apply length_insert.
Qed.

Lemma bind_Ok {A B : Type} (m : result A) (f : A → result B) (r : B) :
  m ≫= f = Ok r → ∃ a, m = Ok a ∧ f a = Ok r.
Proof. destruct m as [a|e]; [eauto|discriminate]. Qed.

Lemma sub_round_length ds gw i st b st' :
  GearboxCrypt.sub_round ds gw i st b = Ok st' → length st'.2 = length st.2.
Proof.
  unfold GearboxCrypt.sub_round. intros H.
  apply bind_Ok in H as (c & _ & H).
  apply bind_Ok in H as (ck & Hset & H).
  injection H as <-. simpl. eapply setitem_length, Hset.
Qed.

Lemma block_length ds lw gw ck i ck' :
  GearboxCrypt.block ds lw gw ck i = Ok ck' → length ck' = length ck.
Proof.
  unfold GearboxCrypt.block. intros H.
  apply bind_Ok in H as (c & _ & H).
  apply bind_Ok in H as (st & Hloop & H).
  injection H as <-.
  apply (for_each_inv (λ st : Z * bytes, length st.2 = length ck)) in Hloop; auto.
  intros a x a' Ha Hb. apply sub_round_length in Hb. congruence.
Qed.

Lemma combine_keys_length ks ds lk gk key :
  GearboxCrypt._combine_keys ks ds lk gk = Ok key → length key = Z.to_nat ks.
Proof.
  unfold GearboxCrypt._combine_keys, GearboxCrypt.combine_words. intros H.
  apply (for_each_inv (λ ck : bytes, length ck = Z.to_nat ks)) in H; auto.
  - intros a x a' Ha Hb. apply block_length in Hb. congruence.
  - apply length_replicate.
Qed.

(** What the constructor leaves in the object. *)
Lemma init_fields ds lk gk cs self :
  GearboxCrypt.__init__ ds lk gk cs = Ok self →
  GearboxCrypt._chunk_size self = cs ∧ GearboxCrypt._data_size self = ds ∧
  GearboxCrypt._key_size self = len lk ∧
  len (GearboxCrypt._encryption_key self) = len lk.
Proof.
  unfold GearboxCrypt.__init__. intros H.
  apply bind_Ok in H as (key & E & H). injection H as <-. simpl. repeat split.
  apply combine_keys_length in E. unfold len in *. lia.
Qed.

Lemma init_keyed ds lk gk cs self :
  GearboxCrypt.__init__ ds lk gk cs = Ok self → lk ≠ [] → keyed_instance self.
Proof.
  intros H Hne. apply init_fields in H as (_ & _ & Hks & Hlen).
  unfold keyed_instance. rewrite Hks, Hlen. split; [|done].
  destruct lk; [done|]. rewrite len_cons. pose proof (len_nonneg lk). lia.
Qed.

(** ** Streaming *)

Lemma read_remaining (n : Z) (f : PyFile.t) :
  0 ≤ n → (PyFile.read (Some n) f).1 ++ PyFile.remaining (PyFile.read (Some n) f).2
          = PyFile.remaining f.
Proof.
  intros Hn. unfold PyFile.read, PyFile.remaining.
  rewrite bool_decide_false by lia. simpl.
  rewrite <- drop_drop. set (rest := drop (PyFile.pos f) (PyFile.content f)).
  rewrite length_take.
  destruct (decide (Z.to_nat n ≤ length rest)%nat).
  - rewrite Nat.min_l by lia. apply take_drop.
  - rewrite Nat.min_r by lia. rewrite take_ge, drop_all by lia. apply app_nil_r.
Qed.

Lemma read_empty (n : Z) (f : PyFile.t) :
  1 ≤ n → (PyFile.read (Some n) f).1 = [] → PyFile.remaining (PyFile.read (Some n) f).2 = [].
Proof.
  intros Hn He. pose proof (read_remaining n f ltac:(lia)) as H.
  rewrite He, app_nil_l in H. rewrite H.
  unfold PyFile.read in He. rewrite bool_decide_false in He by lia.
  cbn [fst] in He.
  destruct (PyFile.remaining f); [done|].
  destruct (Z.to_nat n) eqn:En; [lia|]. discriminate.
Qed.

Lemma at_end_read (n : Z) (f : PyFile.t) :
  0 ≤ n → at_end (PyFile.read (Some n) f).2 = at_end f.
Proof.
  intros Hn. pose proof (read_remaining n f Hn) as H.
  apply (f_equal length) in H. rewrite length_app in H.
  unfold at_end. rewrite <- H.
  set (rd := PyFile.read (Some n) f) in *.
  assert (PyFile.content rd.2 = PyFile.content f) as -> by reflexivity.
  assert (PyFile.pos rd.2 = (PyFile.pos f + length rd.1)%nat) as -> by reflexivity.
  f_equal. lia.
Qed.

Section stream.
Variable cipher : bytes → Z → result bytes.
Hypothesis cipher_nil : ∀ o, cipher [] o = Ok [].
Hypothesis cipher_app : ∀ a b o,
  cipher (a ++ b) o = x ← cipher a o; y ← cipher b (o + len a); mret (x ++ y).
Variable chunk_size : Z.
Hypothesis chunk_size_pos : 1 ≤ chunk_size.

Lemma stream_loop_spec fuel : ∀ chunk offset inp out,
  (chunk = [] → PyFile.remaining inp = []) →
  (length (chunk ++ PyFile.remaining inp) < fuel)%nat →
  ∃ inp' out' r,
    GearboxCrypt.stream_loop fuel cipher chunk_size chunk offset inp out
      = Some (inp', out', r) ∧
    match cipher (chunk ++ PyFile.remaining inp) offset with
    | Ok data => inp' = at_end inp ∧ out' = out ++ data ∧ r = Ok ()
    | Raise e => r = Raise e
    end.
Proof using cipher_nil cipher_app chunk_size_pos.
  induction fuel as [|fuel IH]; intros chunk offset inp out Hchunk Hfuel; [lia|].
  simpl. case_bool_decide as Hc.
  - subst chunk. rewrite (Hchunk eq_refl), cipher_nil. simpl.
    eexists _, _, _. split; [reflexivity|]. rewrite app_nil_r.
    split; [|done]. unfold at_end. rewrite (Hchunk eq_refl). simpl.
    destruct inp; simpl. f_equal. lia.
  - rewrite cipher_app.
    destruct (cipher chunk offset) as [data|e] eqn:E; simpl.
    2:{ eexists _, _, _. split; reflexivity. }
    pose proof (read_remaining chunk_size inp ltac:(lia)) as Hrd.
    destruct (IH (PyFile.read (Some chunk_size) inp).1 (offset + len chunk)
                (PyFile.read (Some chunk_size) inp).2 (out ++ data))
      as (inp' & out' & r & Hloop & Hres).
    + apply read_empty. lia.
    + rewrite Hrd. rewrite length_app in Hfuel. destruct chunk; [done|].
      simpl in Hfuel. lia.
    + rewrite Hrd in Hres. exists inp', out', r. split; [exact Hloop|].
      destruct (cipher (PyFile.remaining inp) (offset + len chunk)) as [data2|e];
        simpl; [|exact Hres].
      destruct Hres as (-> & -> & ->).
      rewrite at_end_read by lia. rewrite app_assoc. done.
Qed.

Lemma stream_spec fuel inp out offset :
  (length (PyFile.remaining inp) < fuel)%nat →
  ∃ inp' out' r,
    GearboxCrypt.stream fuel cipher chunk_size inp out offset = Some (inp', out', r) ∧
    match cipher (PyFile.remaining inp) (offset + PyFile.tell inp) with
    | Ok data => inp' = at_end inp ∧ out' = out ++ data
                 ∧ r = Ok (len (PyFile.remaining inp))
    | Raise e => r = Raise e
    end.
Proof using cipher_nil cipher_app chunk_size_pos.
  intros Hfuel. unfold GearboxCrypt.stream.
  pose proof (read_remaining chunk_size inp ltac:(lia)) as Hrd.
  destruct (stream_loop_spec fuel (PyFile.read (Some chunk_size) inp).1
              (offset + PyFile.tell inp) (PyFile.read (Some chunk_size) inp).2 out)
    as (inp' & out' & r & Hloop & Hres).
  - apply read_empty. lia.
  - rewrite Hrd. exact Hfuel.
  - rewrite Hloop, Hrd in *. eexists _, _, _. split; [reflexivity|].
    destruct (cipher (PyFile.remaining inp) (offset + PyFile.tell inp)); simpl.
    + destruct Hres as (-> & -> & ->). rewrite at_end_read by lia.
      split; [done|]. split; [done|]. simpl. f_equal.
      unfold PyFile.tell, len, at_end. simpl. lia.
    + rewrite Hres. reflexivity.
Qed.
End stream.

(** ** The cipher: direction, inverse, streaming *)

Lemma keyed_bytes_inverse self d o :
  is_bytes d →
  keyed_bytes self (λ c k, Z.land 255 (c + k))
    (keyed_bytes self (λ c k, Z.land 255 (c - k)) d o) o = d.
Proof.
  intros Hd. revert o. induction Hd as [|c d Hc Hd IH]; intros o; simpl.
  - reflexivity.
  - rewrite IH. f_equal. rewrite !land_255.
    rewrite Zplus_mod_idemp_l. replace (c - keystream self o + keystream self o) with c by lia.
    apply Z.mod_small. exact Hc.
Qed.

(** C2, as the code has it: [encrypt] subtracts the keystream byte and
    [decrypt] adds it.  For every cipher object made by the constructor from a
    local key that is not empty, every byte sequence [d] and every offset [o],
    both calls return a sequence as long as [d]; the byte of [d] at index [i]
    lies at the absolute offset [o + i], where [encrypt] gives
    [(d[i] - keystream[o + i]) mod 256] and [decrypt] gives
    [(d[i] + keystream[o + i]) mod 256], the keystream byte being
    [combined_key[(o + i) mod key_size]]. *)
Theorem cipher_direction ds lk gk cs self (d : bytes) (o : Z) :
  GearboxCrypt.__init__ ds lk gk cs = Ok self → lk ≠ [] →
  ∃ e pl : bytes,
    GearboxCrypt.encrypt self d o = Ok e ∧ GearboxCrypt.decrypt self d o = Ok pl ∧
    length e = length d ∧ length pl = length d ∧
    ∀ (i : nat) (c : Z), d !! i = Some c →
      e !! i = Some ((c - keystream self (o + Z.of_nat i)) `mod` 256) ∧
      pl !! i = Some ((c + keystream self (o + Z.of_nat i)) `mod` 256).
Proof.
  intros Hinit Hne. pose proof (init_keyed _ _ _ _ _ Hinit Hne) as Hk.
  eexists _, _.
  rewrite encrypt_keyed, decrypt_keyed, !keyed_ok by exact Hk.
  split; [reflexivity|]. split; [reflexivity|].
  rewrite !keyed_bytes_length. split; [reflexivity|]. split; [reflexivity|].
  intros i c Hi. rewrite !keyed_bytes_lookup, Hi. simpl.
  rewrite !land_255. done.
Qed.

Lemma cipher_direction_witness :
  GearboxCrypt.__init__ 100 [1;2;3;4;5;6;7;8] example_master_key 4096
    = Ok (GearboxCrypt.mk 4096 100 8 [98;5;87;42;106;5;95;82]) ∧
  [1;2;3;4;5;6;7;8] ≠ ([] : bytes) ∧
  ∃ e pl : bytes,
    GearboxCrypt.encrypt (GearboxCrypt.mk 4096 100 8 [98;5;87;42;106;5;95;82]) [10;200] 7
      = Ok e ∧
    GearboxCrypt.decrypt (GearboxCrypt.mk 4096 100 8 [98;5;87;42;106;5;95;82]) [10;200] 7
      = Ok pl ∧
    length e = 2%nat ∧ length pl = 2%nat ∧
    ∀ (i : nat) (c : Z), [10;200] !! i = Some c →
      e !! i = Some ((c - keystream (GearboxCrypt.mk 4096 100 8 [98;5;87;42;106;5;95;82])
                         (7 + Z.of_nat i)) `mod` 256) ∧
      pl !! i = Some ((c + keystream (GearboxCrypt.mk 4096 100 8 [98;5;87;42;106;5;95;82])
                          (7 + Z.of_nat i)) `mod` 256).
Proof.
  split; [vm_compute; reflexivity|]. split; [discriminate|].
  apply (cipher_direction 100 [1;2;3;4;5;6;7;8] example_master_key 4096).
  - vm_compute; reflexivity.
  - discriminate.
Defined.

(** C2 as the specification words it fails: with the key derived from the
    local key 01..08, [encrypt] of the byte 10 at offset 0 is
    [(10 - 98) mod 256 = 168], not [(10 + 98) mod 256 = 108], and [decrypt]
    of it is 108, not 168. *)
Lemma cipher_direction_counterexample :
  GearboxCrypt.__init__ 100 [1;2;3;4;5;6;7;8] example_master_key 4096
    = Ok (GearboxCrypt.mk 4096 100 8 [98;5;87;42;106;5;95;82]) ∧
  keystream (GearboxCrypt.mk 4096 100 8 [98;5;87;42;106;5;95;82]) 0 = 98 ∧
  GearboxCrypt.encrypt (GearboxCrypt.mk 4096 100 8 [98;5;87;42;106;5;95;82]) [10] 0
    = Ok [168] ∧
  GearboxCrypt.decrypt (GearboxCrypt.mk 4096 100 8 [98;5;87;42;106;5;95;82]) [10] 0
    = Ok [108] ∧
  GearboxCrypt.encrypt (GearboxCrypt.mk 4096 100 8 [98;5;87;42;106;5;95;82]) [10] 0
    ≠ Ok [(10 + 98) `mod` 256] ∧
  GearboxCrypt.decrypt (GearboxCrypt.mk 4096 100 8 [98;5;87;42;106;5;95;82]) [10] 0
    ≠ Ok [(10 - 98) `mod` 256].
Proof. repeat split; vm_compute; congruence. Qed.

(** C3, for a key that is not empty: for every cipher object made by the
    constructor from a non-empty local key, every byte sequence [d] and every
    offset [o], [decrypt(encrypt(d, o), o)] returns [d]. *)
Theorem cipher_inverse ds lk gk cs self (d : bytes) (o : Z) :
  GearboxCrypt.__init__ ds lk gk cs = Ok self → lk ≠ [] → is_bytes d →
  (e ← GearboxCrypt.encrypt self d o; GearboxCrypt.decrypt self e o) = Ok d.
Proof.
  intros Hinit Hne Hd. pose proof (init_keyed _ _ _ _ _ Hinit Hne) as Hk.
  rewrite encrypt_keyed, keyed_ok by exact Hk. simpl.
  rewrite decrypt_keyed, keyed_ok by exact Hk.
  f_equal. apply keyed_bytes_inverse, Hd.
Qed.

Lemma cipher_inverse_witness :
  GearboxCrypt.__init__ 100 [1;2;3;4;5;6;7;8] example_master_key 4096
    = Ok (GearboxCrypt.mk 4096 100 8 [98;5;87;42;106;5;95;82]) ∧
  [1;2;3;4;5;6;7;8] ≠ ([] : bytes) ∧ is_bytes [0;255;17] ∧
  (e ← GearboxCrypt.encrypt (GearboxCrypt.mk 4096 100 8 [98;5;87;42;106;5;95;82])
         [0;255;17] 1000;
   GearboxCrypt.decrypt (GearboxCrypt.mk 4096 100 8 [98;5;87;42;106;5;95;82]) e 1000)
  = Ok [0;255;17].
Proof.
  assert (is_bytes [0;255;17]) as Hd by (repeat constructor; unfold is_byte; lia).
  split; [vm_compute; reflexivity|]. split; [discriminate|]. split; [exact Hd|].
  apply (cipher_inverse 100 [1;2;3;4;5;6;7;8] example_master_key 4096).
  - vm_compute; reflexivity.
  - discriminate.
  - exact Hd.
Defined.

(** C3 fails for the cipher object of an empty local key, which the
    constructor makes without complaint: [encrypt] of one byte raises
    [ZeroDivisionError] at [i % ks], so nothing is returned to decrypt. *)
Lemma cipher_inverse_counterexample :
  GearboxCrypt.__init__ 16 [] example_master_key 4096 = Ok (GearboxCrypt.mk 4096 16 0 []) ∧
  is_bytes [1] ∧
  GearboxCrypt.encrypt (GearboxCrypt.mk 4096 16 0 []) [1] 0 = Raise ZeroDivisionError ∧
  (e ← GearboxCrypt.encrypt (GearboxCrypt.mk 4096 16 0 []) [1] 0;
   GearboxCrypt.decrypt (GearboxCrypt.mk 4096 16 0 []) e 0) ≠ Ok [1].
Proof.
  split; [vm_compute; reflexivity|].
  split; [repeat constructor; unfold is_byte; lia|].
  split; [vm_compute; reflexivity|]. vm_compute. discriminate.
Qed.

(** C7: for every cipher object, every input stream, every starting offset
    [o] and every chunk size of at least 1, [decrypt_stream] (and
    [encrypt_stream]) terminates, and what it wrote is the single-call
    [decrypt] ([encrypt]) of all the input that was left, keyed at [o] plus
    the initial position of the input; it returns the number of bytes
    consumed and leaves the input at its end.  If the single call raises, the
    stream raises the same exception.  The right-hand side does not mention
    the chunk size. *)
Theorem stream_chunk_independence (self : GearboxCrypt.t) (fuel : nat)
    (inp : PyFile.t) (out : bytes) (o : Z) :
  1 ≤ GearboxCrypt._chunk_size self →
  (length (PyFile.remaining inp) < fuel)%nat →
  (∃ inp' out' r,
     GearboxCrypt.decrypt_stream fuel self inp out o = Some (inp', out', r) ∧
     match GearboxCrypt.decrypt self (PyFile.remaining inp) (o + PyFile.tell inp) with
     | Ok data => inp' = at_end inp ∧ out' = out ++ data
                  ∧ r = Ok (len (PyFile.remaining inp))
     | Raise e => r = Raise e
     end) ∧
  (∃ inp' out' r,
     GearboxCrypt.encrypt_stream fuel self inp out o = Some (inp', out', r) ∧
     match GearboxCrypt.encrypt self (PyFile.remaining inp) (o + PyFile.tell inp) with
     | Ok data => inp' = at_end inp ∧ out' = out ++ data
                  ∧ r = Ok (len (PyFile.remaining inp))
     | Raise e => r = Raise e
     end).
Proof.
  intros Hcs Hfuel. split.
  - apply stream_spec; auto. intros a b o'. apply keyed_app.
  - apply stream_spec; auto. intros a b o'. apply keyed_app.
Qed.

Lemma stream_chunk_independence_witness :
  1 ≤ GearboxCrypt._chunk_size example_cipher ∧
  (length (PyFile.remaining example_input) < 10)%nat ∧
  (∃ inp' out' r,
     GearboxCrypt.decrypt_stream 10 example_cipher example_input [] 5
       = Some (inp', out', r) ∧
     match GearboxCrypt.decrypt example_cipher (PyFile.remaining example_input)
             (5 + PyFile.tell example_input) with
     | Ok data => inp' = at_end example_input ∧ out' = [] ++ data
                  ∧ r = Ok (len (PyFile.remaining example_input))
     | Raise e => r = Raise e
     end) ∧
  (∃ inp' out' r,
     GearboxCrypt.encrypt_stream 10 example_cipher example_input [] 5
       = Some (inp', out', r) ∧
     match GearboxCrypt.encrypt example_cipher (PyFile.remaining example_input)
             (5 + PyFile.tell example_input) with
     | Ok data => inp' = at_end example_input ∧ out' = [] ++ data
                  ∧ r = Ok (len (PyFile.remaining example_input))
     | Raise e => r = Raise e
     end).
Proof.
  split; [simpl; lia|]. split; [simpl; lia|].
  apply (stream_chunk_independence example_cipher 10 example_input [] 5); simpl; lia.
Defined.

(** ** The trailer *)

Lemma len_slice {A : Type} (c : list A) (a b : Z) :
  0 ≤ a → len (slice c a b) = Z.max 0 (Z.min (b - a) (len c - a)).
Proof.
  intros Ha. unfold slice, len. rewrite length_take, length_drop. lia.
Qed.

Lemma io_bind_unfold {A B : Type} (m : io A) (f : A → io B) (h : PyFile.t) :
  (m ≫= f) h = match m h with
               | (h', Ok a) => f a h'
               | (h', Raise e) => (h', Raise e)
               end.
Proof. reflexivity. Qed.

Lemma io_read_at (n : Z) (c : bytes) (p : nat) :
  0 ≤ n →
  io_read (Some n) (PyFile.mk c p)
  = (PyFile.mk c (p + length (slice c (Z.of_nat p) (Z.of_nat p + n))),
     Ok (slice c (Z.of_nat p) (Z.of_nat p + n))).
Proof.
  intros Hn. unfold io_read, PyFile.read, PyFile.remaining, slice. simpl.
  rewrite bool_decide_false by lia.
  replace (Z.to_nat (Z.of_nat p + n - Z.of_nat p)) with (Z.to_nat n) by lia.
  rewrite Nat2Z.id. reflexivity.
Qed.

Lemma seek_end_4 (c : bytes) (p : nat) :
  io_seek (-4) PyFile.SEEK_END (PyFile.mk c p)
  = if bool_decide (len c < 4) then (PyFile.mk c p, Raise IOError)
    else (PyFile.mk c (Z.to_nat (len c - 4)), Ok ()).
Proof.
  unfold io_seek, PyFile.seek. simpl.
  replace (len c + -4) with (len c - 4) by lia.
  rewrite (bool_decide_ext (len c - 4 < 0) (len c < 4)) by lia.
  case_bool_decide; reflexivity.
Qed.

Lemma seek_cur (c : bytes) (p : nat) (off : Z) :
  0 ≤ Z.of_nat p + off →
  io_seek off PyFile.SEEK_CUR (PyFile.mk c p)
  = (PyFile.mk c (Z.to_nat (Z.of_nat p + off)), Ok ()).
Proof.
  intros H. unfold io_seek, PyFile.seek, PyFile.tell. simpl.
  rewrite bool_decide_false by lia. reflexivity.
Qed.

(** The outcome of [_load_encryption] as a function of the content of the
    file. *)
Lemma load_encryption_result MK (h : PyFile.t) :
  (GearboxEncryptedBigFile._load_encryption MK h).2 =
  let c := PyFile.content h in
  if bool_decide (EOF c < 4) then Raise IOError
  else if bool_decide (backptr c < EOF c - 4 - 6) then
    if bool_decide (len (marker_field c) = 4) then
      if bool_decide (le_uint (marker_field c) = 0) then
        if bool_decide (len (key_len_field c) = 2) then
          if bool_decide (key_len c ≤ 1024) then
            GearboxEncryptedBigFile.new_crypt MK (encrypted_region_size c)
              (PyFile.read (Some (key_len c))
                 (PyFile.mk c (Z.to_nat (encrypted_region_size c + 6)))).1
          else Raise GearboxEncryptionException
        else Raise StructError
      else Raise GearboxEncryptionException
    else Raise StructError
  else Raise GearboxEncryptionException.
Proof.
  destruct h as [c p0]. cbn zeta. cbn [PyFile.content].
  unfold GearboxEncryptedBigFile._load_encryption.
  rewrite io_bind_unfold, seek_end_4. unfold EOF at 1.
  destruct (decide (len c < 4)) as [HE|HE];
    [rewrite !(bool_decide_true (len c < 4)) by exact HE; reflexivity
    |rewrite !(bool_decide_false (len c < 4)) by exact HE].
  rewrite io_bind_unfold. unfold io_tell at 1. cbn [PyFile.tell PyFile.pos].
  rewrite io_bind_unfold, io_read_at by lia.
  rewrite Z2Nat.id by lia.
  replace (len c - 4 + 4) with (len c) by lia.
  assert (len (slice c (len c - 4) (len c)) = 4) as Hl4
    by (rewrite len_slice by lia; lia).
  rewrite io_bind_unfold. unfold io_lift at 1, unpack_le at 1.
  rewrite bool_decide_true by exact Hl4.
  fold (EOF c). fold (backptr c).
  replace (Z.to_nat (EOF c - 4) + length (slice c (EOF c - 4) (EOF c)))%nat
    with (Z.to_nat (EOF c)) by (unfold EOF, len in *; lia).
  unfold PyFile.tell. cbn [PyFile.pos]. rewrite Z2Nat.id by (unfold EOF; lia).
  destruct (decide (backptr c < EOF c - 4 - 6)) as [HB|HB];
    [rewrite !(bool_decide_true (backptr c < EOF c - 4 - 6)) by exact HB
    |rewrite !(bool_decide_false (backptr c < EOF c - 4 - 6)) by exact HB; reflexivity].
  rewrite io_bind_unfold, seek_cur by (unfold EOF in *; lia).
  rewrite Z2Nat.id by (pose proof (len_nonneg c); unfold EOF; lia).
  replace (EOF c + - backptr c) with (encrypted_region_size c)
    by (unfold encrypted_region_size; lia).
  assert (0 ≤ encrypted_region_size c) as Hp
    by (unfold encrypted_region_size, EOF in *; lia).
  rewrite io_bind_unfold. unfold io_tell at 1. cbn [PyFile.tell PyFile.pos].
  rewrite io_bind_unfold, io_read_at by lia.
  rewrite Z2Nat.id by lia. fold (marker_field c).
  rewrite io_bind_unfold. unfold io_lift at 1, unpack_le at 1.
  destruct (decide (len (marker_field c) = 4)) as [HM|HM];
    [rewrite !(bool_decide_true (len (marker_field c) = 4)) by exact HM
    |rewrite !(bool_decide_false (len (marker_field c) = 4)) by exact HM; reflexivity].
  unfold GearboxEncryptedBigFile.ENCRYPTION_KEY_MARKER.
  destruct (decide (le_uint (marker_field c) = 0)) as [HZ|HZ];
    [rewrite !(bool_decide_true (le_uint (marker_field c) = 0)) by exact HZ
    |rewrite !(bool_decide_false (le_uint (marker_field c) = 0)) by exact HZ; reflexivity].
  replace (Z.to_nat (encrypted_region_size c) + length (marker_field c))%nat
    with (Z.to_nat (encrypted_region_size c + 4)) by (unfold len in HM; lia).
  rewrite io_bind_unfold, io_read_at by lia.
  rewrite Z2Nat.id by lia.
  replace (encrypted_region_size c + 4 + 2) with (encrypted_region_size c + 6) by lia.
  fold (key_len_field c).
  rewrite io_bind_unfold. unfold io_lift at 1, unpack_le at 1.
  destruct (decide (len (key_len_field c) = 2)) as [HK|HK];
    [rewrite !(bool_decide_true (len (key_len_field c) = 2)) by exact HK
    |rewrite !(bool_decide_false (len (key_len_field c) = 2)) by exact HK; reflexivity].
  fold (key_len c). unfold GearboxEncryptedBigFile.ENCRYPTION_KEY_MAX_SIZE.
  destruct (decide (key_len c ≤ 1024)) as [HL|HL];
    [rewrite !(bool_decide_true (key_len c ≤ 1024)) by exact HL
    |rewrite !(bool_decide_false (key_len c ≤ 1024)) by exact HL; reflexivity].
  replace (Z.to_nat (encrypted_region_size c + 4) + length (key_len_field c))%nat
    with (Z.to_nat (encrypted_region_size c + 6)) by (unfold len in HK; lia).
  rewrite io_bind_unfold. unfold io_read at 1, io_lift, PyFile.tell.
  cbn [snd PyFile.pos]. rewrite Z2Nat.id by lia. reflexivity.
Qed.



Lemma le_uint_nonneg (d : bytes) : is_bytes d → 0 ≤ le_uint d.
Proof.
  induction 1 as [|b d Hb Hd IH]; simpl; [lia|]. unfold is_byte in Hb. lia.
Qed.

Lemma is_bytes_slice (c : bytes) (a b : Z) : is_bytes c → is_bytes (slice c a b).
Proof. intros H. unfold slice. apply Forall_take, Forall_drop, H. Qed.

Lemma read_slice (n : Z) (c : bytes) (p : Z) :
  0 ≤ n → 0 ≤ p →
  (PyFile.read (Some n) (PyFile.mk c (Z.to_nat p))).1 = slice c p (p + n).
Proof.
  intros Hn Hp. unfold PyFile.read, PyFile.remaining, slice. simpl.
  rewrite bool_decide_false by lia. f_equal. lia.
Qed.

(** C4, as the code has it: whenever [_load_encryption] returns a cipher on a
    file of bytes, the file has at least 4 bytes, its back pointer is below
    [EOF - 10], the 4 bytes at [EOF - backptr] are a zero marker, the 2 bytes
    after them declare a key length of at most 1024, and the cipher is the
    one the constructor makes from [EOF - backptr] as the data size, the key
    field and the master key.  The key field is what a read of [key_len] bytes
    returns after the marker and the length: at most [key_len] bytes, and
    only the [backptr - 6] bytes up to the end of the file when fewer are
    left. *)
Theorem trailer_success MK (h h' : PyFile.t) (crypto : GearboxCrypt.t) :
  is_bytes (PyFile.content h) →
  GearboxEncryptedBigFile._load_encryption MK h = (h', Ok crypto) →
  let c := PyFile.content h in
  4 ≤ EOF c ∧ backptr c < EOF c - 10 ∧
  len (marker_field c) = 4 ∧ le_uint (marker_field c) = 0 ∧
  len (key_len_field c) = 2 ∧ 0 ≤ key_len c ≤ 1024 ∧
  GearboxCrypt._data_size crypto = encrypted_region_size c ∧
  len (key_field c) = Z.min (key_len c) (backptr c - 6) ∧
  ∃ master_key,
    MK = Some master_key ∧
    GearboxCrypt.__init__ (encrypted_region_size c) (key_field c) master_key
      GearboxCrypt.default_chunk_size = Ok crypto.
Proof.
  intros Hbytes Hload c.
  pose proof (load_encryption_result MK h) as Hres.
  rewrite Hload in Hres. cbn [snd] in Hres. cbn zeta in Hres. fold c in Hres.
  repeat (case_bool_decide; [|discriminate]). case_bool_decide; [discriminate|].
  do 5 (case_bool_decide; [|discriminate]).
  assert (0 ≤ key_len c) as Hkl by (apply le_uint_nonneg, is_bytes_slice, Hbytes).
  assert (0 ≤ encrypted_region_size c) as Hp
    by (unfold encrypted_region_size, EOF in *; lia).
  rewrite read_slice in Hres by lia. fold (key_field c) in Hres.
  symmetry in Hres.
  assert (6 ≤ backptr c) as Hb6.
  { match goal with H : len (key_len_field c) = 2 |- _ => revert H end.
    unfold key_len_field. rewrite len_slice by lia.
    unfold encrypted_region_size, EOF. lia. }
  repeat split; try lia; try done.
  - unfold GearboxEncryptedBigFile.new_crypt in Hres.
    destruct MK as [mk|]; [|discriminate].
    apply init_fields in Hres. tauto.
  - unfold key_field. rewrite len_slice by lia.
    unfold encrypted_region_size, EOF in *. lia.
  - unfold GearboxEncryptedBigFile.new_crypt in Hres.
    destruct MK as [mk|]; [|discriminate]. eauto.
Qed.

Lemma trailer_success_witness :
  is_bytes (PyFile.content good_file) ∧
  GearboxEncryptedBigFile._load_encryption (Some example_master_key) good_file
  = (PyFile.mk (PyFile.content good_file) 26,
     Ok (GearboxCrypt.mk 4096 12 8 [10; 189; 39; 2; 18; 173; 95; 42])) ∧
  let c := PyFile.content good_file in
  4 ≤ EOF c ∧ backptr c < EOF c - 10 ∧
  len (marker_field c) = 4 ∧ le_uint (marker_field c) = 0 ∧
  len (key_len_field c) = 2 ∧ 0 ≤ key_len c ≤ 1024 ∧
  GearboxCrypt._data_size (GearboxCrypt.mk 4096 12 8 [10; 189; 39; 2; 18; 173; 95; 42])
    = encrypted_region_size c ∧
  len (key_field c) = Z.min (key_len c) (backptr c - 6) ∧
  ∃ master_key,
    Some example_master_key = Some master_key ∧
    GearboxCrypt.__init__ (encrypted_region_size c) (key_field c) master_key
      GearboxCrypt.default_chunk_size
    = Ok (GearboxCrypt.mk 4096 12 8 [10; 189; 39; 2; 18; 173; 95; 42]).
Proof.
  assert (is_bytes (PyFile.content good_file)) as Hb.
  { apply Forall_forall. intros b Hin. unfold is_byte.
    cbv in Hin. set_unfold. lia. }
  split; [exact Hb|]. split; [vm_compute; reflexivity|].
  apply (trailer_success (Some example_master_key) good_file
           (PyFile.mk (PyFile.content good_file) 26)).
  - exact Hb.
  - vm_compute; reflexivity.
Defined.

(** C4 as the specification words it fails on [short_key_file]: the trailer
    declares a key of 100 bytes, 4 bytes are left after the length field,
    [_load_encryption] returns a cipher all the same, made from those 4
    bytes. *)
Lemma trailer_success_counterexample :
  is_bytes (PyFile.content short_key_file) ∧
  GearboxEncryptedBigFile._load_encryption (Some example_master_key) short_key_file
  = (PyFile.mk (PyFile.content short_key_file) 21,
     Ok (GearboxCrypt.mk 4096 11 4 [24; 147; 69; 54])) ∧
  key_len (PyFile.content short_key_file) = 100 ∧
  key_field (PyFile.content short_key_file) = [10; 0; 0; 0] ∧
  len (key_field (PyFile.content short_key_file))
    ≠ key_len (PyFile.content short_key_file).
Proof.
  split.
  { apply Forall_forall. intros b Hin. unfold is_byte.
    cbv in Hin. set_unfold. lia. }
  repeat split; vm_compute; congruence.
Qed.

(** An exception of [_load_encryption] leaves [load] with the cipher the
    archive had. *)
Lemma load_raise MK super_load (self : GearboxEncryptedBigFile.t) e :
  (GearboxEncryptedBigFile._load_encryption MK
     (GearboxEncryptedBigFile._handle self)).2 = Raise e →
  (GearboxEncryptedBigFile.load MK super_load self).2 = Raise e ∧
  GearboxEncryptedBigFile._crypto (GearboxEncryptedBigFile.load MK super_load self).1
  = GearboxEncryptedBigFile._crypto self.
Proof.
  unfold GearboxEncryptedBigFile.load.
  destruct (GearboxEncryptedBigFile._load_encryption MK _) as [h [crypto|e']]; simpl.
  - discriminate.
  - intros [= ->]. done.
Qed.

(** C5, as the code has it.  For every archive over a file of at least 4
    bytes: if the back pointer is not below [(EOF - 4) - 6], that is if the
    marker would start within the first 10 bytes of the file or before it; or
    if the back pointer is at least 4 and the 4 marker bytes at
    [EOF - backptr] are not zero; or if the back pointer is at least 6 and the
    declared key length exceeds 1024; then [_load_encryption] raises
    [GearboxEncryptionException], [load] raises it too, and the archive keeps
    the [_crypto] it had. *)
Theorem trailer_rejection MK super_load (self : GearboxEncryptedBigFile.t) (c : bytes) :
  PyFile.content (GearboxEncryptedBigFile._handle self) = c →
  4 ≤ EOF c →
  EOF c - 4 - 6 ≤ backptr c
  ∨ (4 ≤ backptr c ∧ le_uint (marker_field c) ≠ 0)
  ∨ (6 ≤ backptr c ∧ 1024 < key_len c) →
  (GearboxEncryptedBigFile._load_encryption MK
     (GearboxEncryptedBigFile._handle self)).2 = Raise GearboxEncryptionException ∧
  (GearboxEncryptedBigFile.load MK super_load self).2 = Raise GearboxEncryptionException ∧
  GearboxEncryptedBigFile._crypto (GearboxEncryptedBigFile.load MK super_load self).1
  = GearboxEncryptedBigFile._crypto self.
Proof.
  intros Hc HE Hcases.
  assert ((GearboxEncryptedBigFile._load_encryption MK
             (GearboxEncryptedBigFile._handle self)).2
          = Raise GearboxEncryptionException) as Hres.
  { rewrite load_encryption_result. cbn zeta. rewrite Hc.
    rewrite bool_decide_false by lia.
    case_bool_decide as HB; [|reflexivity].
    assert (len (marker_field c) = Z.min 4 (backptr c)) as HM.
    { unfold marker_field. rewrite len_slice
        by (unfold encrypted_region_size, EOF in *; lia).
      unfold encrypted_region_size, EOF in *. lia. }
    assert (len (key_len_field c) = Z.max 0 (Z.min 2 (backptr c - 4))) as HK.
    { unfold key_len_field. rewrite len_slice
        by (unfold encrypted_region_size, EOF in *; lia).
      unfold encrypted_region_size, EOF in *. lia. }
    destruct Hcases as [H|[[H4 Hm]|[H6 Hk]]]; [lia| |].
    - rewrite bool_decide_true by lia. rewrite bool_decide_false by exact Hm.
      reflexivity.
    - rewrite bool_decide_true by lia.
      case_bool_decide; [|reflexivity].
      rewrite bool_decide_true by lia. rewrite bool_decide_false by lia.
      reflexivity. }
  split; [exact Hres|]. apply load_raise, Hres.
Qed.

Lemma trailer_rejection_witness :
  PyFile.content (GearboxEncryptedBigFile._handle long_key_archive)
  = PyFile.content long_key_file ∧
  4 ≤ EOF (PyFile.content long_key_file) ∧
  (EOF (PyFile.content long_key_file) - 4 - 6 ≤ backptr (PyFile.content long_key_file)
   ∨ (4 ≤ backptr (PyFile.content long_key_file)
      ∧ le_uint (marker_field (PyFile.content long_key_file)) ≠ 0)
   ∨ (6 ≤ backptr (PyFile.content long_key_file)
      ∧ 1024 < key_len (PyFile.content long_key_file))) ∧
  (GearboxEncryptedBigFile._load_encryption (Some example_master_key)
     (GearboxEncryptedBigFile._handle long_key_archive)).2
  = Raise GearboxEncryptionException ∧
  (GearboxEncryptedBigFile.load (Some example_master_key) (λ s, (s, Ok ()))
     long_key_archive).2
  = Raise GearboxEncryptionException ∧
  GearboxEncryptedBigFile._crypto
    (GearboxEncryptedBigFile.load (Some example_master_key) (λ s, (s, Ok ()))
       long_key_archive).1
  = GearboxEncryptedBigFile._crypto long_key_archive.
Proof.
  assert (4 ≤ EOF (PyFile.content long_key_file)) as HE by (vm_compute; congruence).
  assert (6 ≤ backptr (PyFile.content long_key_file)
          ∧ 1024 < key_len (PyFile.content long_key_file)) as Hk
    by (split; vm_compute; congruence).
  split; [reflexivity|]. split; [exact HE|]. split; [right; right; exact Hk|].
  apply (trailer_rejection (Some example_master_key) (λ s, (s, Ok ()))
           long_key_archive (PyFile.content long_key_file) eq_refl HE).
  right; right; exact Hk.
Defined.

(** C5 as the specification words it fails on [zero_file]: the back pointer 0
    passes the bound ([0 < 12 - 4 - 6]) and puts the marker at the end of the
    file, 0 bytes from it; the read of the marker returns nothing and
    [struct.unpack] raises its own error, not the encryption-format one. *)
Lemma trailer_rejection_counterexample :
  4 ≤ EOF (PyFile.content zero_file) ∧
  backptr (PyFile.content zero_file) = 0 ∧
  EOF (PyFile.content zero_file) - encrypted_region_size (PyFile.content zero_file) ≤ 6 ∧
  (GearboxEncryptedBigFile._load_encryption (Some example_master_key) zero_file).2
  = Raise StructError ∧
  (GearboxEncryptedBigFile._load_encryption (Some example_master_key) zero_file).2
  ≠ Raise GearboxEncryptionException.
Proof. repeat split; vm_compute; congruence. Qed.

(** ** The decrypting read *)







(** A read of 100 bytes at position 5 stops at the boundary 12 and decrypts
    the 7 bytes before it. *)
Example decrypting_read_clamped :
  (GearboxEncryptedBigFile.read loaded_archive (Some 100)).2
  = Ok [180; 102; 49; 17; 196; 46; 9].
Proof. vm_compute. reflexivity. Qed.

(** ** Members made from the file system *)

(** C10: a member that [ExternalBigInfo.load] or [get_biginfo] makes has
    offset 0, a real size and a stored size both equal to the size [os.stat]
    reports for the file, and is not compressed. *)
Theorem external_member_not_compressed (os_stat : string → option stat_result)
    (self : BigInfo.t) (bigfile : nat) (file : file_arg) (alt_filename : option string)
    (m : BigInfo.t) :
  ExternalBigInfo.load os_stat self file alt_filename = Ok m
  ∨ BigFile.get_biginfo os_stat bigfile file alt_filename = Ok m →
  BigInfo._offset m = 0 ∧
  (∃ st, os_stat (match file with FileObject n => n | Path q => q end) = Some st ∧
         BigInfo.real_size m = st_size st ∧ BigInfo.stored_size m = st_size st) ∧
  BigInfo.real_size m = BigInfo.stored_size m ∧
  BigInfo.is_compressed m = false.
Proof.
  assert (∀ self0, ExternalBigInfo.load os_stat self0 file alt_filename = Ok m →
    BigInfo._offset m = 0 ∧
    (∃ st, os_stat (match file with FileObject n => n | Path q => q end) = Some st ∧
           BigInfo.real_size m = st_size st ∧ BigInfo.stored_size m = st_size st) ∧
    BigInfo.real_size m = BigInfo.stored_size m ∧
    BigInfo.is_compressed m = false) as Hload.
  { intros self0 H. unfold ExternalBigInfo.load in H.
    apply bind_Ok in H as (alt & _ & H).
    apply bind_Ok in H as (fstat & Hstat & H).
    injection H as <-.
    destruct (os_stat _) as [st|] eqn:E; [|discriminate].
    injection Hstat as ->.
    unfold BigInfo.is_compressed, BigInfo.real_size, BigInfo.stored_size. simpl.
    split; [reflexivity|]. split; [eauto|]. split; [reflexivity|].
    apply bool_decide_false. lia. }
  intros [H|H]; eapply Hload; exact H.
Qed.

Lemma external_member_not_compressed_witness :
  (ExternalBigInfo.load example_stat (BigInfo.__init__ 1) (Path "data/a.txt")
     (Some "a.txt"%string)
   = Ok (BigInfo.mk 1 0 (Some "a.txt"%string) (Some (timestamp_to_datetime 1420070400))
           100 100 (Some "data/a.txt"%string))
   ∨ BigFile.get_biginfo example_stat 1 (Path "data/a.txt") (Some "a.txt"%string)
     = Ok (BigInfo.mk 1 0 (Some "a.txt"%string) (Some (timestamp_to_datetime 1420070400))
             100 100 (Some "data/a.txt"%string))) ∧
  BigInfo._offset
    (BigInfo.mk 1 0 (Some "a.txt"%string) (Some (timestamp_to_datetime 1420070400))
       100 100 (Some "data/a.txt"%string)) = 0 ∧
  (∃ st, example_stat "data/a.txt" = Some st ∧
         BigInfo.real_size
           (BigInfo.mk 1 0 (Some "a.txt"%string) (Some (timestamp_to_datetime 1420070400))
              100 100 (Some "data/a.txt"%string)) = st_size st ∧
         BigInfo.stored_size
           (BigInfo.mk 1 0 (Some "a.txt"%string) (Some (timestamp_to_datetime 1420070400))
              100 100 (Some "data/a.txt"%string)) = st_size st) ∧
  BigInfo.real_size
    (BigInfo.mk 1 0 (Some "a.txt"%string) (Some (timestamp_to_datetime 1420070400))
       100 100 (Some "data/a.txt"%string))
  = BigInfo.stored_size
      (BigInfo.mk 1 0 (Some "a.txt"%string) (Some (timestamp_to_datetime 1420070400))
         100 100 (Some "data/a.txt"%string)) ∧
  BigInfo.is_compressed
    (BigInfo.mk 1 0 (Some "a.txt"%string) (Some (timestamp_to_datetime 1420070400))
       100 100 (Some "data/a.txt"%string)) = false.
Proof.
  split; [left; vm_compute; reflexivity|].
  apply (external_member_not_compressed example_stat (BigInfo.__init__ 1) 1
           (Path "data/a.txt") (Some "a.txt"%string)).
  left. vm_compute. reflexivity.
Defined.

(** ** Sorting *)

Lemma key_le_total (a b : option string) : key_le a b ∨ key_le b a.
Proof.
  unfold key_le. destruct a as [x|], b as [y|]; simpl; auto.
  apply String.leb_total.
Qed.

Section sort_facts.
Context {A : Type} (key : A → option string).

Lemma insert_by_perm x l : insert_by key x l ≡ₚ x :: l.
Proof.
  induction l as [|y l IH]; simpl; [done|].
  destruct (key_leb (key x) (key y)); [done|].
  rewrite IH. apply Permutation_swap.
Qed.

Lemma list_sort_perm l : list_sort key l ≡ₚ l.
Proof.
  induction l as [|x l IH]; simpl; [done|].
  rewrite insert_by_perm, IH. done.
Qed.

Lemma insert_by_hd x y l :
  (by_key key) y x → HdRel (by_key key) y l → HdRel (by_key key) y (insert_by key x l).
Proof.
  intros Hyx Hl. destruct l as [|z l]; simpl.
  - constructor. exact Hyx.
  - destruct (key_leb (key x) (key z)); constructor; [exact Hyx|].
    inversion Hl; assumption.
Qed.

Lemma insert_by_sorted x l : Sorted (by_key key) l → Sorted (by_key key) (insert_by key x l).
Proof.
  induction 1 as [|y l Hs IH Hhd]; simpl.
  - repeat constructor.
  - destruct (key_leb (key x) (key y)) eqn:E.
    + constructor; [constructor; assumption|]. constructor. exact E.
    + constructor; [exact IH|]. apply insert_by_hd; [|exact Hhd].
      destruct (key_le_total (key y) (key x)) as [H|H]; [exact H|].
      unfold key_le in H. congruence.
Qed.

Lemma list_sort_sorted l : Sorted (by_key key) (list_sort key l).
Proof.
  induction l as [|x l IH]; simpl; [constructor|]. apply insert_by_sorted, IH.
Qed.

Lemma list_sort_keys_sorted l : Sorted key_le (key <$> list_sort key l).
Proof.
  eapply Sorted_fmap; [|apply list_sort_sorted].
  intros x y H. exact H.
Qed.
End sort_facts.

(** ** Member lists in the object store *)

Lemma members_sort w self other :
  BigFile._members (BigFile._sort_members w self) other = BigFile._members w other.
Proof. reflexivity. Qed.

Lemma get_members_sort w self :
  BigFile.get_members (BigFile._sort_members w self) self
  = list_sort BigInfo.name (BigFile.get_members w self).
Proof.
  unfold BigFile.get_members. rewrite members_sort.
  unfold BigFile._sort_members. cbn [BigFile.heap].
  rewrite lookup_insert_eq. reflexivity.
Qed.

Lemma members_add w self bi sort_after other :
  BigFile._members (BigFile.add w self bi sort_after) other = BigFile._members w other.
Proof. destruct sort_after; reflexivity. Qed.

Lemma get_members_add w self bi sort_after :
  BigFile.get_members (BigFile.add w self bi sort_after) self
  = (if sort_after then list_sort BigInfo.name else id)
      (BigFile.get_members w self ++ [bi]).
Proof.
  unfold BigFile.add. destruct sort_after.
  - rewrite get_members_sort. f_equal.
    unfold BigFile.get_members, BigFile._members. cbn [BigFile.heap BigFile.attrs].
    rewrite lookup_insert_eq. reflexivity.
  - unfold BigFile.get_members, BigFile._members. cbn [BigFile.heap BigFile.attrs].
    rewrite lookup_insert_eq. reflexivity.
Qed.

(** Two instances whose [_members] are different list objects do not see each
    other's additions. *)
Lemma get_members_add_other w self bi sort_after other :
  BigFile._members w self ≠ BigFile._members w other →
  BigFile.get_members (BigFile.add w self bi sort_after) other
  = BigFile.get_members w other.
Proof.
  intros Hne. unfold BigFile.get_members. rewrite members_add.
  unfold BigFile.add, BigFile._sort_members.
  destruct sort_after; cbn [BigFile.heap BigFile.attrs];
    fold (BigFile._members w self); rewrite ?lookup_insert_ne by done; reflexivity.
Qed.

(** Two instances that never got a list of their own use the same list
    object, the one of the class. *)
Lemma get_members_add_shared w self bi sort_after other :
  BigFile.attrs w !! self = None → BigFile.attrs w !! other = None →
  BigFile.get_members (BigFile.add w self bi sort_after) other
  = BigFile.get_members (BigFile.add w self bi sort_after) self.
Proof.
  intros Hs Ho. unfold BigFile.get_members. rewrite !members_add.
  unfold BigFile._members. rewrite Hs, Ho. reflexivity.
Qed.

Lemma get_members_load w self members :
  BigFile.get_members (BigFile.load w self members) self
  = list_sort BigInfo.name members.
Proof.
  unfold BigFile.load. rewrite get_members_sort. f_equal.
  unfold BigFile.get_members, BigFile._members. cbn [BigFile.heap BigFile.attrs].
  rewrite lookup_insert_eq. simpl. rewrite lookup_insert_eq. reflexivity.
Qed.

Section calls.
Variables (os_stat : string → option stat_result)
          (os_walk : string → list (string * list string * list string))
          (os_path_join : string → string → string)
          (replace_first : string → string → string).
Variable self : nat.

(** A loop whose every step appends members appends them all. *)
Lemma for_each_st_appends {B : Type} (body : BigFile.world → B → BigFile.world * result unit)
    (names : B → list (option string)) :
  (∀ w x w', body w x = (w', Ok ()) →
     ∃ bis, BigFile.get_members w' self = BigFile.get_members w self ++ bis
            ∧ BigInfo.name <$> bis = names x) →
  ∀ xs w w', BigFile.for_each_st body w xs = (w', Ok ()) →
     ∃ bis, BigFile.get_members w' self = BigFile.get_members w self ++ bis
            ∧ BigInfo.name <$> bis = xs ≫= names.
Proof.
  intros Hbody. induction xs as [|x xs IH]; intros w w' H; simpl in H.
  - injection H as <-. exists []. rewrite app_nil_r. done.
  - destruct (body w x) as [w1 [[]|e]] eqn:E; [|discriminate].
    apply Hbody in E as (bis1 & Hm1 & Hn1).
    apply IH in H as (bis2 & Hm2 & Hn2).
    exists (bis1 ++ bis2). rewrite Hm2, Hm1, <- app_assoc. split; [done|].
    rewrite fmap_app, Hn1, Hn2. reflexivity.
Qed.

Lemma add_all_file_appends path exclude w filename w' :
  BigFile.add_all_file os_stat replace_first self path exclude w filename = (w', Ok ()) →
  ∃ bis, BigFile.get_members w' self = BigFile.get_members w self ++ bis
         ∧ BigInfo.name <$> bis
           = (if exclude filename then [] else [Some (replace_first filename path)]).
Proof.
  unfold BigFile.add_all_file. destruct (exclude filename); cbn [negb].
  - intros [= <-]. exists []. rewrite app_nil_r. done.
  - destruct (BigFile.get_biginfo _ _ _ _) as [bi|e] eqn:E; [|discriminate].
    intros [= <-]. exists [bi].
    split; [exact (get_members_add w self bi false)|].
    unfold BigFile.get_biginfo, ExternalBigInfo.load in E. simpl in E.
    apply bind_Ok in E as (fstat & _ & E). injection E as <-. reflexivity.
Qed.

Lemma add_all_dir_appends path exclude w entry w' :
  BigFile.add_all_dir os_stat os_path_join replace_first self path exclude w entry
  = (w', Ok ()) →
  ∃ bis, BigFile.get_members w' self = BigFile.get_members w self ++ bis
         ∧ BigInfo.name <$> bis
           = (os_path_join entry.1.1 <$> entry.2) ≫=
               (λ filename, if exclude filename then []
                            else [Some (replace_first filename path)]).
Proof.
  destruct entry as [[dirpath dirnames] filenames]. unfold BigFile.add_all_dir.
  apply for_each_st_appends. intros w0 x w0'. apply add_all_file_appends.
Qed.

Lemma do_call_spec w c w' :
  BigFile.do_call os_stat os_walk os_path_join replace_first self w c = (w', Ok ()) →
  ∃ ms, BigFile.get_members w' self = list_sort BigInfo.name ms
        ∧ BigInfo.name <$> ms
          = BigFile.get_filenames w self
            ++ BigFile.added_names os_walk os_path_join replace_first c.
Proof.
  destruct c as [bi|path exclude]; simpl.
  - intros [= <-]. eexists. split; [exact (get_members_add w self bi true)|].
    rewrite fmap_app. reflexivity.
  - unfold BigFile.add_all.
    destruct (BigFile.for_each_st _ _ _) as [w1 [[]|e]] eqn:E; [|discriminate].
    intros [= <-]. rewrite get_members_sort.
    apply (for_each_st_appends _ _ (add_all_dir_appends path exclude)) in E
      as (bis & Hm & Hn).
    eexists. split; [reflexivity|]. rewrite Hm, fmap_app, Hn. reflexivity.
Qed.

Lemma calls_spec calls : ∀ w w',
  Sorted key_le (BigFile.get_filenames w self) →
  BigFile.for_each_st
    (BigFile.do_call os_stat os_walk os_path_join replace_first self) w calls
  = (w', Ok ()) →
  Sorted key_le (BigFile.get_filenames w' self) ∧
  BigFile.get_filenames w' self
  ≡ₚ BigFile.get_filenames w self
     ++ (calls ≫= BigFile.added_names os_walk os_path_join replace_first).
Proof.
  induction calls as [|c calls IH]; intros w w' Hsorted H; simpl in H.
  - injection H as <-. simpl. rewrite app_nil_r. done.
  - destruct (BigFile.do_call _ _ _ _ _ w c) as [w1 [[]|e]] eqn:E; [|discriminate].
    apply do_call_spec in E as (ms & Hm & Hn).
    assert (Sorted key_le (BigFile.get_filenames w1 self)) as Hs1.
    { unfold BigFile.get_filenames. rewrite Hm. apply list_sort_keys_sorted. }
    destruct (IH w1 w' Hs1 H) as [Hs Hp]. split; [exact Hs|].
    rewrite Hp. simpl. rewrite app_assoc. apply Permutation_app_tail.
    unfold BigFile.get_filenames at 1. rewrite Hm, list_sort_perm, Hn. done.
Qed.
End calls.

(** C8: for every archive just loaded and every sequence of calls of [add]
    (with the default [sort_after]) and [add_all] that all return, the list
    [get_filenames()] gives afterwards is sorted by name, and it is a
    rearrangement of the names of the loaded members followed by the names
    the calls added: every name is there as many times as it was loaded or
    added, so that no name is there twice unless it was loaded or added
    twice. *)
Theorem sort_invariant (os_stat : string → option stat_result)
    (os_walk : string → list (string * list string * list string))
    (os_path_join replace_first : string → string → string)
    (w0 w1 : BigFile.world) (self : nat) (loaded : list BigInfo.t)
    (calls : list BigFile.call) :
  BigFile.for_each_st
    (BigFile.do_call os_stat os_walk os_path_join replace_first self)
    (BigFile.load w0 self loaded) calls = (w1, Ok ()) →
  Sorted key_le (BigFile.get_filenames w1 self) ∧
  BigFile.get_filenames w1 self
  ≡ₚ (BigInfo.name <$> loaded)
     ++ (calls ≫= BigFile.added_names os_walk os_path_join replace_first) ∧
  (NoDup ((BigInfo.name <$> loaded)
          ++ (calls ≫= BigFile.added_names os_walk os_path_join replace_first)) →
   NoDup (BigFile.get_filenames w1 self)).
Proof.
  intros Hrun.
  assert (BigFile.get_filenames (BigFile.load w0 self loaded) self
          = BigInfo.name <$> list_sort BigInfo.name loaded) as Hload
    by (unfold BigFile.get_filenames; rewrite get_members_load; reflexivity).
  apply calls_spec in Hrun as [Hs Hp].
  2:{ rewrite Hload. apply list_sort_keys_sorted. }
  rewrite Hload, list_sort_perm in Hp.
  split; [exact Hs|]. split; [exact Hp|].
  intros Hnd. rewrite Hp. exact Hnd.
Qed.

Lemma sort_invariant_witness :
  BigFile.for_each_st
    (BigFile.do_call example_stat example_walk example_join example_replace 1%nat)
    (BigFile.load BigFile.initial 1%nat [member_c; member_b]) example_calls
  = ((BigFile.for_each_st
        (BigFile.do_call example_stat example_walk example_join example_replace 1%nat)
        (BigFile.load BigFile.initial 1%nat [member_c; member_b]) example_calls).1,
     Ok ()) ∧
  Sorted key_le
    (BigFile.get_filenames
       (BigFile.for_each_st
          (BigFile.do_call example_stat example_walk example_join example_replace 1%nat)
          (BigFile.load BigFile.initial 1%nat [member_c; member_b]) example_calls).1
       1%nat) ∧
  BigFile.get_filenames
    (BigFile.for_each_st
       (BigFile.do_call example_stat example_walk example_join example_replace 1%nat)
       (BigFile.load BigFile.initial 1%nat [member_c; member_b]) example_calls).1 1%nat
  ≡ₚ (BigInfo.name <$> [member_c; member_b])
     ++ (example_calls ≫= BigFile.added_names example_walk example_join example_replace) ∧
  (NoDup ((BigInfo.name <$> [member_c; member_b])
          ++ (example_calls
                ≫= BigFile.added_names example_walk example_join example_replace)) →
   NoDup
     (BigFile.get_filenames
        (BigFile.for_each_st
           (BigFile.do_call example_stat example_walk example_join example_replace 1%nat)
           (BigFile.load BigFile.initial 1%nat [member_c; member_b]) example_calls).1
        1%nat)).
Proof.
  split; [vm_compute; reflexivity|].
  apply (sort_invariant example_stat example_walk example_join example_replace
           BigFile.initial _ 1%nat [member_c; member_b] example_calls).
  vm_compute; reflexivity.
Defined.

(** What the example run leaves: the two loaded names and the two added ones,
    in order. *)
Example sort_invariant_run :
  BigFile.get_filenames
    (BigFile.for_each_st
       (BigFile.do_call example_stat example_walk example_join example_replace 1%nat)
       (BigFile.load BigFile.initial 1%nat [member_c; member_b]) example_calls).1 1%nat
  = [Some "/a.txt"; Some "a.txt"; Some "b.txt"; Some "c.txt"]%string.
Proof. vm_compute. reflexivity. Qed.

(** ** Sharing of the class's member list *)

(** C9 fails on two archives that were made and not loaded: in the store as
    the class definition leaves it, the archives 1 and 2 have no member list
    of their own; after [add] on archive 1, [get_members()] and
    [get_filenames()] of archive 2 hold the member too. *)
Theorem members_shared_between_instances :
  BigFile.attrs BigFile.initial !! 1%nat = None ∧
  BigFile.attrs BigFile.initial !! 2%nat = None ∧
  BigFile.get_members BigFile.initial 2%nat = [] ∧
  BigFile.get_members (BigFile.add BigFile.initial 1%nat member_a true) 2%nat
  = [member_a] ∧
  BigFile.get_filenames (BigFile.add BigFile.initial 1%nat member_a true) 2%nat
  = [Some "a.txt"%string] ∧
  BigFile.get_members
    (BigFile.add_all example_stat example_walk example_join example_replace
       BigFile.initial 1%nat "data" (λ _, false)).1 2%nat
  ≠ BigFile.get_members BigFile.initial 2%nat.
Proof. repeat split; vm_compute; congruence. Qed.

(** Once both archives are loaded each has a list object of its own, and
    [add] on one leaves the other's members as they were. *)
Lemma members_isolated_once_loaded w a b ma mb bi sort_after :
  a ≠ b →
  let w' := BigFile.load (BigFile.load w a ma) b mb in
  BigFile.get_members (BigFile.add w' a bi sort_after) b = BigFile.get_members w' b.
Proof.
  intros Hab w'. apply get_members_add_other.
  set (w1 := BigFile.load w a ma) in *.
  set (la := fresh (dom (BigFile.heap w))).
  assert (BigFile.attrs w1 !! a = Some la) as Ha.
  { unfold w1, BigFile.load, BigFile._sort_members. cbn [BigFile.attrs].
    apply lookup_insert_eq. }
  assert (la ∈ dom (BigFile.heap w1)) as Hin.
  { unfold w1, BigFile.load, BigFile._sort_members, BigFile._members.
    cbn [BigFile.attrs BigFile.heap]. rewrite lookup_insert_eq. simpl.
    fold la. set_solver. }
  unfold w', BigFile.load. rewrite !members_sort.
  unfold BigFile._members. cbn [BigFile.attrs].
  rewrite lookup_insert_ne by done. rewrite Ha, lookup_insert_eq. simpl.
  intros Heq. rewrite Heq in Hin. exact (is_fresh _ Hin).
Qed.

(** ** The key schedule *)

Lemma byte_at (y s : Z) :
  0 ≤ s → Z.shiftr (Z.land y (Z.shiftl 255 s)) s = (y `div` 2 ^ s) `mod` 256.
Proof.
  intros Hs. rewrite Z.shiftr_land, Z.shiftr_shiftl_l by lia.
  rewrite Z.sub_diag, Z.shiftl_0_r, Z.shiftr_div_pow2 by lia.
  rewrite Z.land_comm. apply land_255.
Qed.

Lemma lor_byte (b acc : Z) : 0 ≤ b < 256 → Z.lor b (Z.shiftl acc 8) = b + 256 * acc.
Proof.
  intros Hb. rewrite <- Z.lxor_lor, <- Z.add_nocarry_lxor.
  - rewrite Z.shiftl_mul_pow2 by lia. lia.
  - apply Z.bits_inj'. intros n Hn. rewrite Z.land_spec, Z.bits_0.
    destruct (decide (n < 8)).
    + rewrite Z.shiftl_spec_low by lia. apply andb_false_r.
    + rewrite (Z.bits_above_log2 b n); [reflexivity|lia|].
      destruct (decide (b = 0)) as [->|]; [simpl; lia|].
      assert (Z.log2 b < 8) by (apply Z.log2_lt_pow2; lia). lia.
  - apply Z.bits_inj'. intros n Hn. rewrite Z.land_spec, Z.bits_0.
    destruct (decide (n < 8)).
    + rewrite Z.shiftl_spec_low by lia. apply andb_false_r.
    + rewrite (Z.bits_above_log2 b n); [reflexivity|lia|].
      destruct (decide (b = 0)) as [->|]; [simpl; lia|].
      assert (Z.log2 b < 8) by (apply Z.log2_lt_pow2; lia). lia.
Qed.

Lemma ROTL_8 (x : Z) : 0 ≤ x < 2 ^ 32 → util.ROTL x 8 = x `div` 2 ^ 24 + 256 * x.
Proof.
  intros Hx. unfold util.ROTL. rewrite Z.lor_comm.
  replace (32 - 8) with 24 by lia. rewrite (Z.shiftr_div_pow2 x 24) by lia.
  apply lor_byte. Z.div_mod_to_equations. lia.
Qed.

Lemma high_part_invisible (v q k : Z) :
  0 < k → (k | 16777216) →
  ((v + 4294967296 * q) `div` k) `mod` 256 = (v `div` k) `mod` 256.
Proof.
  intros Hk [m Hm].
  replace (v + 4294967296 * q) with (v + (256 * m * q) * k)
    by (replace 4294967296 with (256 * 16777216) by lia; rewrite Hm; ring).
  rewrite Z.div_add by lia.
  replace (v `div` k + 256 * m * q) with (v `div` k + (m * q) * 256) by lia.
  apply Z_mod_plus_full.
Qed.

Lemma split_rotl (x : Z) :
  0 ≤ x < 2 ^ 32 →
  util.SPLIT_TO_BYTES (util.ROTL x 8)
  = KeyScheduleSpec.decompose (KeyScheduleSpec.rotate_left_8 x).
Proof.
  intros Hx. rewrite ROTL_8 by exact Hx.
  unfold util.SPLIT_TO_BYTES.
  change (xrange 0 32 8) with [0; 8; 16; 24]. cbn [fmap list_fmap].
  rewrite !byte_at by lia.
  unfold KeyScheduleSpec.decompose, KeyScheduleSpec.rotate_left_8, KeyScheduleSpec.word.
  change (2 ^ 0) with 1. change (2 ^ 8) with 256. change (2 ^ 16) with 65536.
  change (2 ^ 24) with 16777216. change (2 ^ 32) with 4294967296 in *.
  rewrite (Z.mod_small x) by lia.
  set (q := x `div` 16777216).
  set (v := (x * 256) `mod` 4294967296 + q).
  assert (q + 256 * x = v + 4294967296 * q) as ->
    by (unfold v, q; Z.div_mod_to_equations; lia).
  rewrite (high_part_invisible v q 1), (high_part_invisible v q 256),
    (high_part_invisible v q 65536), (high_part_invisible v q 16777216)
    by (first [lia | exists 16777216; lia | exists 65536; lia | exists 256; lia
              | exists 1; lia]).
  rewrite Z.div_1_r. reflexivity.
Qed.

Lemma combine_bytes_le_word (chunk : bytes) :
  is_bytes chunk → (length chunk ≤ 4)%nat →
  util.COMBINE_BYTES chunk = KeyScheduleSpec.le_word chunk.
Proof.
  intros Hb Hl. unfold util.COMBINE_BYTES, KeyScheduleSpec.le_word, is_bytes in *.
  destruct chunk as [|b0 chunk]; [simpl; lia|]. apply Forall_cons in Hb as [H0 Hb].
  destruct chunk as [|b1 chunk];
    [simpl; rewrite !lor_byte by assumption; simpl; lia|].
  apply Forall_cons in Hb as [H1 Hb].
  destruct chunk as [|b2 chunk];
    [simpl; rewrite !lor_byte by assumption; simpl; lia|].
  apply Forall_cons in Hb as [H2 Hb].
  destruct chunk as [|b3 chunk];
    [simpl; rewrite !lor_byte by assumption; simpl; lia|].
  apply Forall_cons in Hb as [H3 Hb].
  destruct chunk as [|b4 chunk]; [|simpl in Hl; lia].
  simpl. rewrite !lor_byte by assumption. simpl. lia.
Qed.

Lemma code_words_lookup (key : bytes) (k : nat) :
  (4 * k < length key)%nat →
  (util.COMBINE_BYTES <$> util.split_by key 4) !! k
  = Some (util.COMBINE_BYTES (take 4 (drop (4 * k) key))).
Proof.
  intros Hk. unfold util.split_by, xrange.
  rewrite !list_lookup_fmap, lookup_seq_lt.
  - simpl. unfold slice. f_equal. f_equal. f_equal; [lia|]. f_equal. lia.
  - assert (Z.of_nat k + 1 ≤ (len key - 0 + 4 - 1) `div` 4)
      by (apply Z.div_le_lower_bound; unfold len; lia).
    lia.
Qed.

Lemma code_words_length (key : bytes) (n : nat) :
  length key = (4 * n)%nat →
  length (util.COMBINE_BYTES <$> util.split_by key 4) = n.
Proof.
  intros Hl. unfold util.split_by, xrange. rewrite !length_fmap, length_seq.
  unfold len. rewrite Hl.
  replace (Z.of_nat (4 * n) - 0 + 4 - 1) with (3 + Z.of_nat n * 4) by lia.
  rewrite Z.div_add by lia. change (3 `div` 4) with 0. lia.
Qed.

Lemma spec_words_lookup (n : nat) : ∀ (key : bytes) (k : nat),
  (k < n)%nat →
  KeyScheduleSpec.words key n !! k
  = Some (KeyScheduleSpec.le_word (take 4 (drop (4 * k) key))).
Proof.
  induction n as [|n IH]; intros key k Hk; [lia|].
  destruct k as [|k]; [reflexivity|].
  change (KeyScheduleSpec.words key (S n) !! S k)
    with (KeyScheduleSpec.words (drop 4 key) n !! k).
  rewrite IH by lia. rewrite drop_drop.
  replace (4 + 4 * k)%nat with (4 * S k)%nat by lia. reflexivity.
Qed.

Lemma spec_words_length (n : nat) (key : bytes) :
  length (KeyScheduleSpec.words key n) = n.
Proof. revert key. induction n; intros; simpl; auto. Qed.

Lemma is_bytes_chunk (key : bytes) (k : nat) :
  is_bytes key → is_bytes (take 4 (drop (4 * k) key)).
Proof. intros H. apply Forall_take, Forall_drop, H. Qed.

Lemma local_words_agree (key : bytes) (n : nat) :
  is_bytes key → length key = (4 * n)%nat →
  util.COMBINE_BYTES <$> util.split_by key 4 = KeyScheduleSpec.words key n.
Proof.
  intros Hb Hl. apply list_eq. intros k.
  destruct (decide (k < n)%nat) as [Hk|Hk].
  - rewrite code_words_lookup, spec_words_lookup by lia. f_equal.
    apply combine_bytes_le_word; [apply is_bytes_chunk, Hb|].
    rewrite length_take. lia.
  - rewrite !lookup_ge_None_2; [done| |].
    + rewrite spec_words_length. lia.
    + rewrite (code_words_length key n Hl). lia.
Qed.

Lemma table_lookup (gk : bytes) (idx : Z) :
  is_bytes gk → 1024 ≤ len gk → 0 ≤ idx < 256 →
  getitem (util.COMBINE_BYTES <$> util.split_by gk 4) idx
  = Ok (nth (Z.to_nat idx) (KeyScheduleSpec.words gk 256) 0).
Proof.
  intros Hb Hl Hi. rewrite getitem_nonneg by lia.
  rewrite code_words_lookup by (unfold len in Hl; lia). f_equal.
  pose proof (spec_words_lookup 256 gk (Z.to_nat idx) ltac:(lia)) as Hs.
  apply nth_lookup_Some with (d := 0) in Hs. rewrite Hs.
  apply combine_bytes_le_word; [apply is_bytes_chunk, Hb|].
  rewrite length_take. lia.
Qed.

Lemma ret_bind {A B : Type} (a : A) (f : A → result B) : Ok a ≫= f = f a.
Proof. reflexivity. Qed.

Section rounds.
Variables (data_size : Z) (global_words table : list Z).
Hypothesis table_ok : ∀ idx, 0 ≤ idx < 256 →
  getitem global_words idx = Ok (nth (Z.to_nat idx) table 0).

Lemma cast_to_char_byte (x : Z) :
  util.CAST_TO_CHAR x = KeyScheduleSpec.low_byte x ∧ 0 ≤ util.CAST_TO_CHAR x < 256.
Proof.
  unfold util.CAST_TO_CHAR, KeyScheduleSpec.low_byte.
  rewrite Z.land_comm, land_255. split; [reflexivity|].
  apply Z.mod_pos_bound. lia.
Qed.

Lemma inner_round_ok (bytes_ : list Z) (c j bj : Z) :
  0 ≤ j → bytes_ !! Z.to_nat j = Some bj →
  GearboxCrypt.inner_round global_words bytes_ c j
  = Ok (KeyScheduleSpec.inner table c bj).
Proof using table_ok.
  intros Hj Hb. unfold GearboxCrypt.inner_round, KeyScheduleSpec.inner.
  rewrite getitem_nonneg, Hb by lia. simpl.
  destruct (cast_to_char_byte (Z.lxor c bj)) as [Hc Hr].
  rewrite table_ok by exact Hr. simpl.
  rewrite Hc, Z.shiftr_div_pow2 by lia. reflexivity.
Qed.

Lemma inner_rounds_ok (b0 b1 b2 b3 c : Z) :
  for_each (GearboxCrypt.inner_round global_words [b0; b1; b2; b3]) c (range 4)
  = Ok (foldl (KeyScheduleSpec.inner table) c [b0; b1; b2; b3]).
Proof using table_ok.
  change (range 4) with [0; 1; 2; 3]. cbn [for_each foldl].
  rewrite (inner_round_ok _ _ 0 b0) by (try lia; reflexivity). simpl.
  rewrite (inner_round_ok _ _ 1 b1) by (try lia; reflexivity). simpl.
  rewrite (inner_round_ok _ _ 2 b2) by (try lia; reflexivity). simpl.
  rewrite (inner_round_ok _ _ 3 b3) by (try lia; reflexivity). reflexivity.
Qed.

Lemma sub_round_ok (i b c : Z) (ck : list Z) :
  0 ≤ c + data_size < 2 ^ 32 → 0 ≤ i + b < len ck →
  GearboxCrypt.sub_round data_size global_words i (c, ck) b
  = Ok (KeyScheduleSpec.sub data_size table c,
        <[Z.to_nat (i + b) := KeyScheduleSpec.low_byte
                                (KeyScheduleSpec.sub data_size table c)]> ck).
Proof using table_ok.
  intros Hc Hi. unfold GearboxCrypt.sub_round. cbn [fst snd].
  rewrite split_rotl by exact Hc. unfold KeyScheduleSpec.decompose at 1.
  rewrite inner_rounds_ok.
  change (foldl (KeyScheduleSpec.inner table) c _)
    with (KeyScheduleSpec.sub data_size table c).
  rewrite ret_bind, setitem_in_range, ret_bind by exact Hi.
  rewrite (proj1 (cast_to_char_byte _)). reflexivity.
Qed.
End rounds.

Section blocks.
Variables (data_size : Z) (local_words global_words table : list Z).
Hypothesis table_ok : ∀ idx, 0 ≤ idx < 256 →
  getitem global_words idx = Ok (nth (Z.to_nat idx) table 0).

Lemma block_ok (k : nat) (c : Z) (pre rest : list Z) (a0 a1 a2 a3 : Z) :
  block_fits data_size table c → local_words !! k = Some c →
  length pre = (4 * k)%nat →
  GearboxCrypt.block data_size local_words global_words
    (pre ++ a0 :: a1 :: a2 :: a3 :: rest) (4 * Z.of_nat k)
  = Ok (pre ++ KeyScheduleSpec.block_bytes data_size table c ++ rest).
Proof using table_ok.
  intros (Hf0 & Hf1 & Hf2 & Hf3) Hc Hpre. unfold GearboxCrypt.block.
  replace ((4 * Z.of_nat k) `div` 4) with (Z.of_nat k)
    by (rewrite Z.mul_comm, Z.div_mul; lia).
  rewrite getitem_nonneg, Nat2Z.id, Hc, ret_bind by lia.
  change (range 4) with [0; 1; 2; 3]. cbn [for_each].
  set (c0 := KeyScheduleSpec.sub data_size table c) in *.
  set (c1 := KeyScheduleSpec.sub data_size table c0) in *.
  set (c2 := KeyScheduleSpec.sub data_size table c1) in *.
  assert (∀ l : list Z, len (pre ++ l) = 4 * Z.of_nat k + len l) as Hlen
    by (intros l; rewrite len_app; unfold len; lia).
  assert (∀ l : list Z, len l = len (pre ++ a0 :: a1 :: a2 :: a3 :: rest) →
            ∀ b, 0 ≤ b < 4 → 0 ≤ 4 * Z.of_nat k + b < len l) as Hin
    by (intros l -> b Hb; rewrite Hlen; unfold len; simpl; lia).
  rewrite (sub_round_ok data_size global_words table table_ok), ret_bind;
    [|exact Hf0|apply Hin; [reflexivity|lia]].
  fold c0.
  rewrite (sub_round_ok data_size global_words table table_ok), ret_bind;
    [|exact Hf1|apply Hin; [rewrite !len_insert; reflexivity|lia]].
  fold c1.
  rewrite (sub_round_ok data_size global_words table table_ok), ret_bind;
    [|exact Hf2|apply Hin; [rewrite !len_insert; reflexivity|lia]].
  fold c2.
  rewrite (sub_round_ok data_size global_words table table_ok), ret_bind;
    [|exact Hf3|apply Hin; [rewrite !len_insert; reflexivity|lia]].
  cbn [snd]. unfold mret, result_ret. f_equal.
  replace (Z.to_nat (4 * Z.of_nat k + 0)) with (length pre + 0)%nat by lia.
  replace (Z.to_nat (4 * Z.of_nat k + 1)) with (length pre + 1)%nat by lia.
  replace (Z.to_nat (4 * Z.of_nat k + 2)) with (length pre + 2)%nat by lia.
  replace (Z.to_nat (4 * Z.of_nat k + 3)) with (length pre + 3)%nat by lia.
  rewrite !insert_app_r. reflexivity.
Qed.

Lemma blocks_ok (ws : list Z) : ∀ (pre : list Z) (k : nat),
  length pre = (4 * k)%nat → drop k local_words = ws →
  Forall (block_fits data_size table) ws →
  for_each (GearboxCrypt.block data_size local_words global_words)
    (pre ++ replicate (4 * length ws) 0)
    ((λ j : nat, 0 + 4 * Z.of_nat j) <$> seq k (length ws))
  = Ok (pre ++ mjoin (KeyScheduleSpec.block_bytes data_size table <$> ws)).
Proof using table_ok.
  induction ws as [|w ws IH]; intros pre k Hpre Hdrop Hfits.
  - reflexivity.
  - apply Forall_cons in Hfits as [Hw Hfits].
    assert (local_words !! k = Some w) as Hk.
    { rewrite <- (Nat.add_0_r k), <- lookup_drop, Hdrop. reflexivity. }
    cbn [length seq fmap list_fmap for_each].
    replace (4 * S (length ws))%nat with (4 + 4 * length ws)%nat by lia.
    cbn [replicate Nat.add].
    rewrite Z.add_0_l, (block_ok k w) by assumption. rewrite ret_bind.
    rewrite app_assoc. rewrite (IH _ (S k)).
    + rewrite <- app_assoc. reflexivity.
    + rewrite length_app, Hpre. simpl. lia.
    + replace (S k) with (k + 1)%nat by lia.
      rewrite <- (drop_drop local_words 1 k), Hdrop. reflexivity.
    + exact Hfits.
Qed.
End blocks.

(** The code's key schedule is the specified one on every input whose sums
    [c + data_size] fit in 32 bits: byte keys, a local key of [4 * n] bytes, a
    global key of at least 256 words. *)
Lemma combine_keys_agree (data_size : Z) (local_key global_key : bytes) (n : nat) :
  is_bytes local_key → is_bytes global_key →
  length local_key = (4 * n)%nat → 1024 ≤ len global_key →
  Forall (block_fits data_size (KeyScheduleSpec.words global_key 256))
         (KeyScheduleSpec.words local_key n) →
  GearboxCrypt._combine_keys (len local_key) data_size local_key global_key
  = Ok (KeyScheduleSpec.combine_keys data_size local_key global_key).
Proof.
  intros Hlk Hgk Hlen Hg Hfits.
  unfold GearboxCrypt._combine_keys, GearboxCrypt.combine_words,
    KeyScheduleSpec.combine_keys.
  rewrite (local_words_agree local_key n Hlk Hlen).
  assert (xrange 0 (len local_key) 4
          = (λ j : nat, 0 + 4 * Z.of_nat j) <$> seq 0 n) as ->.
  { unfold xrange, len. rewrite Hlen. do 2 f_equal.
    replace (Z.of_nat (4 * n) - 0 + 4 - 1) with (3 + Z.of_nat n * 4) by lia.
    rewrite Z.div_add by lia. change (3 `div` 4) with 0. lia. }
  replace (Z.to_nat (len local_key)) with (4 * n)%nat by (unfold len; lia).
  replace (length local_key / 4)%nat with n
    by (rewrite Hlen, Nat.mul_comm, Nat.div_mul; lia).
  pose proof (blocks_ok data_size (KeyScheduleSpec.words local_key n) _
                (KeyScheduleSpec.words global_key 256)
                (λ idx, table_lookup global_key idx Hgk Hg)
                (KeyScheduleSpec.words local_key n) [] 0%nat
                eq_refl eq_refl Hfits) as H.
  rewrite spec_words_length in H. exact H.
Qed.

Lemma is_bytes_check (d : bytes) :
  forallb (λ b, (0 <=? b) && (b <? 256)) d = true → is_bytes d.
Proof.
  intros H. apply Forall_forall. intros b Hin. apply list_elem_of_In in Hin.
  rewrite forallb_forall in H. apply H in Hin. unfold is_byte. lia.
Qed.

Example combine_keys_agree_example :
  GearboxCrypt._combine_keys 8 4096 [0; 1; 2; 3; 99; 88; 77; 66] example_master_key
  = Ok (KeyScheduleSpec.combine_keys 4096 [0; 1; 2; 3; 99; 88; 77; 66] example_master_key).
Proof.
  apply (combine_keys_agree 4096 [0; 1; 2; 3; 99; 88; 77; 66] example_master_key 2).
  - apply is_bytes_check. vm_compute. reflexivity.
  - apply is_bytes_check. vm_compute. reflexivity.
  - reflexivity.
  - vm_compute. congruence.
  - repeat constructor; vm_compute; congruence.
Qed.


(** C1 at a local key word of [0xFFFFF000] and a data size of 4096, whose sum
    is [2^32]: [ROTL] keeps the bit above the word, so the bytes given to the
    inner rounds are [0, 1, 0, 0] where the rotation of the 32-bit sum gives
    [0, 0, 0, 0], and the derived key is not the one of the key schedule as
    specified.  On a key whose sums stay below [2^32] the two agree. *)
Theorem combine_keys_overflow :
  util.SPLIT_TO_BYTES (util.ROTL (4294963200 + 4096) 8) = [0; 1; 0; 0] ∧
  KeyScheduleSpec.decompose (KeyScheduleSpec.rotate_left_8 (4294963200 + 4096))
  = [0; 0; 0; 0] ∧
  GearboxCrypt._combine_keys 4 4096 [0; 240; 255; 255] example_master_key
  = Ok [9; 161; 163; 10] ∧
  KeyScheduleSpec.combine_keys 4096 [0; 240; 255; 255] example_master_key
  = [8; 161; 162; 11] ∧
  GearboxCrypt._combine_keys 8 4096 [0; 1; 2; 3; 99; 88; 77; 66] example_master_key
  = Ok (KeyScheduleSpec.combine_keys 4096 [0; 1; 2; 3; 99; 88; 77; 66] example_master_key).
Proof. repeat split; vm_compute; reflexivity. Qed.

(** * Further properties of the code *)

(** * Further properties of the code *)

(** ** The cipher *)

Lemma keyed_bytes_inverse' self d o :
  is_bytes d →
  keyed_bytes self (λ c k, Z.land 255 (c - k))
    (keyed_bytes self (λ c k, Z.land 255 (c + k)) d o) o = d.
Proof.
  intros Hd. revert o. induction Hd as [|c d Hc Hd IH]; intros o; simpl.
  - reflexivity.
  - rewrite IH. f_equal. rewrite !land_255.
    rewrite Zminus_mod_idemp_l.
    replace (c + keystream self o - keystream self o) with c by lia.
    apply Z.mod_small. exact Hc.
Qed.

(** X1: the round trip the other way.  For every cipher object made by the
    constructor from a non-empty local key, every byte sequence [d] and every
    offset [o], [encrypt(decrypt(d, o), o)] returns [d]. *)
Theorem decrypt_then_encrypt ds lk gk cs self (d : bytes) (o : Z) :
  GearboxCrypt.__init__ ds lk gk cs = Ok self → lk ≠ [] → is_bytes d →
  (e ← GearboxCrypt.decrypt self d o; GearboxCrypt.encrypt self e o) = Ok d.
Proof.
  intros Hinit Hne Hd. pose proof (init_keyed _ _ _ _ _ Hinit Hne) as Hk.
  rewrite decrypt_keyed, keyed_ok by exact Hk. simpl.
  rewrite encrypt_keyed, keyed_ok by exact Hk.
  f_equal. apply keyed_bytes_inverse', Hd.
Qed.

Lemma decrypt_then_encrypt_witness :
  GearboxCrypt.__init__ 100 [1;2;3;4;5;6;7;8] example_master_key 4096
    = Ok (GearboxCrypt.mk 4096 100 8 [98;5;87;42;106;5;95;82]) ∧
  [1;2;3;4;5;6;7;8] ≠ ([] : bytes) ∧ is_bytes [0;255;17] ∧
  (e ← GearboxCrypt.decrypt (GearboxCrypt.mk 4096 100 8 [98;5;87;42;106;5;95;82])
         [0;255;17] 1000;
   GearboxCrypt.encrypt (GearboxCrypt.mk 4096 100 8 [98;5;87;42;106;5;95;82]) e 1000)
  = Ok [0;255;17].
Proof.
  assert (is_bytes [0;255;17]) as Hd by (apply is_bytes_check; reflexivity).
  split; [vm_compute; reflexivity|]. split; [discriminate|]. split; [exact Hd|].
  apply (decrypt_then_encrypt 100 [1;2;3;4;5;6;7;8] example_master_key 4096).
  - vm_compute; reflexivity.
  - discriminate.
  - exact Hd.
Defined.

Lemma keyed_output self op (d : list Z) : ∀ o e,
  (∀ c k, is_byte (op c k)) →
  keyed self op d o = Ok e → length e = length d ∧ is_bytes e.
Proof.
  induction d as [|c d IH]; intros o e Hop H.
  - rewrite keyed_nil in H. injection H as <-. split; [reflexivity|constructor].
  - rewrite keyed_cons in H.
    apply bind_Ok in H as (kv & _ & H). apply bind_Ok in H as (out & Hout & H).
    injection H as <-. destruct (IH _ _ Hop Hout) as [Hl Hb].
    split; [simpl; congruence|]. constructor; [apply Hop|exact Hb].
Qed.

Lemma land_255_byte (x : Z) : is_byte (Z.land 255 x).
Proof. rewrite land_255. unfold is_byte. apply Z.mod_pos_bound. lia. Qed.

Lemma cipher_output (self : GearboxCrypt.t) (d e : list Z) (o : Z) :
  GearboxCrypt.decrypt self d o = Ok e ∨ GearboxCrypt.encrypt self d o = Ok e →
  length e = length d ∧ is_bytes e.
Proof.
  intros [H|H].
  - rewrite decrypt_keyed in H. eapply keyed_output; [|exact H].
    intros c k. apply land_255_byte.
  - rewrite encrypt_keyed in H. eapply keyed_output; [|exact H].
    intros c k. apply land_255_byte.
Qed.

(** X2: whatever the cipher object, the input and the offset, what [decrypt]
    or [encrypt] returns has the length of the input and holds bytes only:
    the additions and subtractions wrap around at 256. *)
Theorem cipher_output_bytes (self : GearboxCrypt.t) (d e : list Z) (o : Z) :
  GearboxCrypt.decrypt self d o = Ok e ∨ GearboxCrypt.encrypt self d o = Ok e →
  length e = length d ∧ is_bytes e.
Proof. exact (cipher_output self d e o). Qed.

Lemma cipher_output_bytes_witness :
  (GearboxCrypt.decrypt example_cipher [254; 255] 7 = Ok [2; 0]
   ∨ GearboxCrypt.encrypt example_cipher [254; 255] 7 = Ok [2; 0]) ∧
  length [2; 0] = length [254; 255] ∧ is_bytes [2; 0].
Proof.
  split; [left; vm_compute; reflexivity|].
  apply (cipher_output_bytes example_cipher [254; 255] [2; 0] 7).
  left. vm_compute. reflexivity.
Defined.

Lemma key_item_period (self : GearboxCrypt.t) (i k : Z) :
  GearboxCrypt.key_item self (i + k * GearboxCrypt._key_size self)
  = GearboxCrypt.key_item self i.
Proof.
  unfold GearboxCrypt.key_item. case_bool_decide; [reflexivity|].
  rewrite Z_mod_plus_full. reflexivity.
Qed.

Lemma keyed_period self op (d : list Z) : ∀ o k,
  keyed self op d (o + k * GearboxCrypt._key_size self) = keyed self op d o.
Proof.
  induction d as [|c d IH]; intros o k.
  - reflexivity.
  - rewrite !keyed_cons, key_item_period.
    replace (o + k * GearboxCrypt._key_size self + 1)
      with (o + 1 + k * GearboxCrypt._key_size self) by lia.
    rewrite IH. reflexivity.
Qed.

(** X3: the cipher is periodic.  For every cipher object, shifting the offset
    by any multiple of the key size changes nothing: [decrypt] and [encrypt]
    give the same outcome at [o + k * key_size] as at [o]. *)
Theorem cipher_periodic (self : GearboxCrypt.t) (d : list Z) (o k : Z) :
  GearboxCrypt.decrypt self d (o + k * GearboxCrypt._key_size self)
  = GearboxCrypt.decrypt self d o ∧
  GearboxCrypt.encrypt self d (o + k * GearboxCrypt._key_size self)
  = GearboxCrypt.encrypt self d o.
Proof. rewrite !decrypt_keyed, !encrypt_keyed, !keyed_period. done. Qed.


(** *** The constructor *)

Lemma for_each_app {A B : Type} (body : A → B → result A) (xs ys : list B) : ∀ acc,
  for_each body acc (xs ++ ys) = acc' ← for_each body acc xs; for_each body acc' ys.
Proof.
  induction xs as [|x xs IH]; intros acc; simpl; [reflexivity|].
  destruct (body acc x); simpl; [apply IH|reflexivity].
Qed.

Lemma for_each_raise {A B : Type} (P : exn → Prop) (body : A → B → result A) xs :
  (∀ a x e, body a x = Raise e → P e) →
  ∀ acc e, for_each body acc xs = Raise e → P e.
Proof.
  intros Hbody. induction xs as [|x xs IH]; intros acc e H; simpl in H; [discriminate|].
  destruct (body acc x) as [a'|e'] eqn:E; simpl in H; [eauto|].
  injection H as <-. eauto.
Qed.

Lemma bind_Raise {A B : Type} (m : result A) (f : A → result B) (e : exn) :
  m ≫= f = Raise e → m = Raise e ∨ ∃ a, m = Ok a ∧ f a = Raise e.
Proof. destruct m as [a|e']; simpl; [eauto|]. intros [= ->]. auto. Qed.

Lemma getitem_raise {A : Type} (l : list A) i e : getitem l i = Raise e → e = IndexError.
Proof.
  unfold getitem. case_bool_decide; [congruence|].
  destruct (l !! _); congruence.
Qed.

Lemma setitem_raise {A : Type} (l : list A) i x e :
  setitem l i x = Raise e → e = IndexError.
Proof. unfold setitem. case_bool_decide; congruence. Qed.

Lemma setitem_ok {A : Type} (l l' : list A) i x :
  setitem l i x = Ok l' → i < len l.
Proof.
  unfold setitem. case_bool_decide as H; [|discriminate]. intros _.
  case_bool_decide; pose proof (len_nonneg l); lia.
Qed.

Lemma inner_round_raise gw bs c j e :
  GearboxCrypt.inner_round gw bs c j = Raise e → e = IndexError.
Proof.
  unfold GearboxCrypt.inner_round. intros H.
  apply bind_Raise in H as [H|(bj & _ & H)]; [eapply getitem_raise, H|].
  apply bind_Raise in H as [H|(g & _ & H)]; [eapply getitem_raise, H|discriminate].
Qed.

Lemma sub_round_raise ds gw i st b e :
  GearboxCrypt.sub_round ds gw i st b = Raise e → e = IndexError.
Proof.
  unfold GearboxCrypt.sub_round. intros H.
  apply bind_Raise in H as [H|(c & _ & H)].
  - eapply (for_each_raise (λ e, e = IndexError)); [|exact H].
    intros a x e'. apply inner_round_raise.
  - apply bind_Raise in H as [H|(ck & _ & H)]; [eapply setitem_raise, H|discriminate].
Qed.

Lemma block_raise ds lw gw ck i e :
  GearboxCrypt.block ds lw gw ck i = Raise e → e = IndexError.
Proof.
  unfold GearboxCrypt.block. intros H.
  apply bind_Raise in H as [H|(c & _ & H)]; [eapply getitem_raise, H|].
  apply bind_Raise in H as [H|(st & _ & H)]; [|discriminate].
  eapply (for_each_raise (λ e, e = IndexError)); [|exact H].
  intros a x e'. apply sub_round_raise.
Qed.

(** A block that completes wrote at [i + 3], which is then inside the key. *)
Lemma block_ok_bound ds lw gw (ck ck' : list Z) i :
  GearboxCrypt.block ds lw gw ck i = Ok ck' → i + 3 < len ck.
Proof.
  unfold GearboxCrypt.block. intros H.
  apply bind_Ok in H as (c & _ & H). apply bind_Ok in H as (st & Hloop & _).
  change (range 4) with ([0; 1; 2] ++ [3]) in Hloop.
  rewrite for_each_app in Hloop. apply bind_Ok in Hloop as (st3 & H3 & Hlast).
  apply (for_each_inv (λ st : Z * bytes, length st.2 = length ck)) in H3; auto.
  2:{ intros a x a' Ha Hb. apply sub_round_length in Hb. congruence. }
  simpl in Hlast. apply bind_Ok in Hlast as (st4 & Hlast & _).
  unfold GearboxCrypt.sub_round in Hlast.
  apply bind_Ok in Hlast as (c' & _ & Hlast).
  apply bind_Ok in Hlast as (ck4 & Hset & _).
  apply setitem_ok in Hset. unfold len in *. lia.
Qed.

Lemma combine_keys_not_multiple ks ds lk gk :
  0 < ks → ks `mod` 4 ≠ 0 →
  GearboxCrypt._combine_keys ks ds lk gk = Raise IndexError.
Proof.
  intros Hpos Hmod.
  destruct (GearboxCrypt._combine_keys ks ds lk gk) as [key|e] eqn:E.
  - exfalso. unfold GearboxCrypt._combine_keys, GearboxCrypt.combine_words in E.
    set (n := Z.to_nat ((ks - 0 + 4 - 1) `div` 4)) in *.
    unfold xrange in E. fold n in E.
    assert (0 < (ks - 0 + 4 - 1) `div` 4) as Hn
      by (apply Z.div_str_pos; lia).
    destruct n as [|m] eqn:En; [lia|].
    rewrite seq_S, fmap_app, for_each_app in E. simpl in E.
    apply bind_Ok in E as (ck & Hck & Hlast).
    apply (for_each_inv (λ ck : bytes, length ck = Z.to_nat ks)) in Hck.
    2:{ intros a x a' Ha Hb. apply block_length in Hb. congruence. }
    2:{ apply length_replicate. }
    apply bind_Ok in Hlast as (ck' & Hblock & _).
    apply block_ok_bound in Hblock. unfold len in Hblock. rewrite Hck in Hblock.
    assert (Z.of_nat (S m) = (ks - 0 + 4 - 1) `div` 4) as Hm by lia.
    revert Hblock Hm. clear -Hpos Hmod. intros.
    assert (Z.of_nat m = (ks + 3) `div` 4 - 1)
      by (replace (ks + 3) with (ks - 0 + 4 - 1) by lia; lia).
    Z.div_mod_to_equations. lia.
  - f_equal.
    unfold GearboxCrypt._combine_keys, GearboxCrypt.combine_words in E.
    eapply (for_each_raise (λ e, e = IndexError)); [|exact E].
    intros a x e'. apply block_raise.
Qed.

Lemma init_not_multiple ds (lk gk : bytes) cs :
  len lk `mod` 4 ≠ 0 → GearboxCrypt.__init__ ds lk gk cs = Raise IndexError.
Proof.
  intros Hmod. unfold GearboxCrypt.__init__.
  rewrite combine_keys_not_multiple; [reflexivity| |exact Hmod].
  pose proof (len_nonneg lk). destruct (decide (len lk = 0)) as [H0|]; [|lia].
  rewrite H0 in Hmod. done.
Qed.

(** X4: the constructor takes local keys of a length that is a multiple of 4
    only.  For every data size, global key and chunk size, a local key whose
    length is not a multiple of 4 makes [GearboxCrypt(...)] raise
    [IndexError]: the short last chunk still gives a word, and the block of
    that word writes past the end of the combined key (or the substitution
    table runs out before). *)
Theorem init_key_length_not_multiple ds (lk gk : bytes) cs :
  len lk `mod` 4 ≠ 0 → GearboxCrypt.__init__ ds lk gk cs = Raise IndexError.
Proof. exact (init_not_multiple ds lk gk cs). Qed.

Lemma init_key_length_not_multiple_witness :
  len ([1; 2; 3; 4; 5; 6] : bytes) `mod` 4 ≠ 0 ∧
  GearboxCrypt.__init__ 100 [1; 2; 3; 4; 5; 6] example_master_key 4096 = Raise IndexError.
Proof.
  split; [vm_compute; congruence|].
  apply (init_key_length_not_multiple 100 [1; 2; 3; 4; 5; 6] example_master_key 4096).
  vm_compute. congruence.
Defined.


Lemma cast_to_char_is_byte (x : Z) : is_byte (util.CAST_TO_CHAR x).
Proof. exact (proj2 (cast_to_char_byte x)). Qed.

Lemma setitem_bytes (l l' : list Z) i x :
  is_bytes l → is_byte x → setitem l i x = Ok l' → is_bytes l'.
Proof.
  unfold setitem. case_bool_decide; [|discriminate].
  intros Hl Hx [= <-]. apply Forall_insert; assumption.
Qed.

Lemma combine_keys_bytes ks ds lk gk key :
  GearboxCrypt._combine_keys ks ds lk gk = Ok key → is_bytes key.
Proof.
  unfold GearboxCrypt._combine_keys, GearboxCrypt.combine_words. intros H.
  apply (for_each_inv is_bytes) in H; [exact H| |].
  - intros ck i ck' Hck Hblock. unfold GearboxCrypt.block in Hblock.
    apply bind_Ok in Hblock as (c & _ & Hblock).
    apply bind_Ok in Hblock as (st & Hloop & Hret). injection Hret as <-.
    apply (for_each_inv (λ st : Z * bytes, is_bytes st.2)) in Hloop; [exact Hloop| |exact Hck].
    intros a b a' Ha Hsub. unfold GearboxCrypt.sub_round in Hsub.
    apply bind_Ok in Hsub as (c' & _ & Hsub).
    apply bind_Ok in Hsub as (ck2 & Hset & Hret). injection Hret as <-. simpl.
    eapply setitem_bytes; [exact Ha|apply cast_to_char_is_byte|exact Hset].
  - apply Forall_replicate. unfold is_byte. lia.
Qed.

Lemma init_invariants ds (lk gk : bytes) cs self :
  GearboxCrypt.__init__ ds lk gk cs = Ok self →
  GearboxCrypt._key_size self = len lk ∧
  len lk `mod` 4 = 0 ∧
  len (GearboxCrypt._encryption_key self) = len lk ∧
  is_bytes (GearboxCrypt._encryption_key self).
Proof.
  intros Hinit. pose proof (init_fields _ _ _ _ _ Hinit) as (_ & _ & Hks & Hlen).
  split; [exact Hks|]. split; [|split; [exact Hlen|]].
  - destruct (decide (len lk `mod` 4 = 0)) as [H|H]; [exact H|].
    rewrite (init_not_multiple ds lk gk cs H) in Hinit. discriminate.
  - unfold GearboxCrypt.__init__ in Hinit.
    apply bind_Ok in Hinit as (key & Hkey & Hret). injection Hret as <-.
    simpl. eapply combine_keys_bytes, Hkey.
Qed.

(** X5: what every cipher object the constructor returns satisfies: the key
    size is the length of the local key and a multiple of 4, and the combined
    key has that many bytes, each in [0, 256). *)
Theorem init_key_invariants ds (lk gk : bytes) cs self :
  GearboxCrypt.__init__ ds lk gk cs = Ok self →
  GearboxCrypt._key_size self = len lk ∧
  len lk `mod` 4 = 0 ∧
  len (GearboxCrypt._encryption_key self) = len lk ∧
  is_bytes (GearboxCrypt._encryption_key self).
Proof. exact (init_invariants ds lk gk cs self). Qed.

Lemma init_key_invariants_witness :
  GearboxCrypt.__init__ 100 [1;2;3;4;5;6;7;8] example_master_key 4096
    = Ok (GearboxCrypt.mk 4096 100 8 [98;5;87;42;106;5;95;82]) ∧
  GearboxCrypt._key_size (GearboxCrypt.mk 4096 100 8 [98;5;87;42;106;5;95;82])
    = len ([1;2;3;4;5;6;7;8] : bytes) ∧
  len ([1;2;3;4;5;6;7;8] : bytes) `mod` 4 = 0 ∧
  len (GearboxCrypt._encryption_key
         (GearboxCrypt.mk 4096 100 8 [98;5;87;42;106;5;95;82]))
    = len ([1;2;3;4;5;6;7;8] : bytes) ∧
  is_bytes (GearboxCrypt._encryption_key
              (GearboxCrypt.mk 4096 100 8 [98;5;87;42;106;5;95;82])).
Proof.
  split; [vm_compute; reflexivity|].
  apply (init_key_invariants 100 [1;2;3;4;5;6;7;8] example_master_key 4096).
  vm_compute; reflexivity.
Defined.

(** X6: the empty local key.  For every data size, global key and chunk
    size the constructor accepts an empty local key and returns a cipher with
    an empty combined key; that cipher returns the empty byte string
    unchanged, and raises [ZeroDivisionError] on every other input, at every
    offset, in both directions. *)
Theorem empty_key_cipher ds (gk : bytes) cs :
  GearboxCrypt.__init__ ds [] gk cs = Ok (GearboxCrypt.mk cs ds 0 []) ∧
  (∀ o, GearboxCrypt.decrypt (GearboxCrypt.mk cs ds 0 []) [] o = Ok [] ∧
        GearboxCrypt.encrypt (GearboxCrypt.mk cs ds 0 []) [] o = Ok []) ∧
  (∀ c (d : list Z) o,
     GearboxCrypt.decrypt (GearboxCrypt.mk cs ds 0 []) (c :: d) o
       = Raise ZeroDivisionError ∧
     GearboxCrypt.encrypt (GearboxCrypt.mk cs ds 0 []) (c :: d) o
       = Raise ZeroDivisionError).
Proof.
  split; [reflexivity|]. split; [intros o; split; reflexivity|].
  intros c d o. rewrite decrypt_keyed, encrypt_keyed, !keyed_cons.
  split; reflexivity.
Qed.

(** *** Streaming with other chunk sizes *)

Lemma read_zero (f : PyFile.t) : PyFile.read (Some 0) f = ([], f).
Proof.
  unfold PyFile.read. simpl. destruct f as [c p]. simpl.
  rewrite Nat.add_0_r. reflexivity.
Qed.

Lemma read_all (n : Z) (f : PyFile.t) :
  n < 0 → PyFile.read (Some n) f = (PyFile.remaining f, at_end f).
Proof. intros Hn. unfold PyFile.read. rewrite bool_decide_true by lia. reflexivity. Qed.

Lemma remaining_at_end (f : PyFile.t) : PyFile.remaining (at_end f) = [].
Proof.
  unfold at_end, PyFile.remaining. simpl. apply drop_ge.
  rewrite length_drop. lia.
Qed.

Lemma at_end_idem (f : PyFile.t) : at_end (at_end f) = at_end f.
Proof.
  unfold at_end at 1. rewrite remaining_at_end. unfold at_end. simpl.
  f_equal. lia.
Qed.

(** X7: a chunk size of 0.  The first read returns nothing, so the stream
    functions write nothing, leave the input where it was and return 0,
    whatever the input holds. *)
Theorem stream_chunk_size_zero (self : GearboxCrypt.t) (fuel : nat)
    (inp : PyFile.t) (out : bytes) (o : Z) :
  (1 ≤ fuel)%nat →
  GearboxCrypt._chunk_size self = 0 →
  GearboxCrypt.decrypt_stream fuel self inp out o = Some (inp, out, Ok 0) ∧
  GearboxCrypt.encrypt_stream fuel self inp out o = Some (inp, out, Ok 0).
Proof.
  intros Hfuel Hcs. destruct fuel as [|fuel]; [lia|].
  unfold GearboxCrypt.decrypt_stream, GearboxCrypt.encrypt_stream, GearboxCrypt.stream.
  rewrite Hcs, read_zero. cbn [fst snd GearboxCrypt.stream_loop].
  rewrite bool_decide_true by reflexivity. simpl.
  replace (PyFile.tell inp - PyFile.tell inp) with 0 by lia. done.
Qed.

Lemma stream_chunk_size_zero_witness :
  (1 ≤ 1)%nat ∧
  GearboxCrypt._chunk_size (GearboxCrypt.mk 0 100 4 [1;2;3;4]) = 0 ∧
  GearboxCrypt.decrypt_stream 1 (GearboxCrypt.mk 0 100 4 [1;2;3;4]) example_input [] 5
    = Some (example_input, [], Ok 0) ∧
  GearboxCrypt.encrypt_stream 1 (GearboxCrypt.mk 0 100 4 [1;2;3;4]) example_input [] 5
    = Some (example_input, [], Ok 0).
Proof.
  split; [lia|]. split; [reflexivity|].
  apply (stream_chunk_size_zero (GearboxCrypt.mk 0 100 4 [1;2;3;4]) 1
           example_input [] 5); [lia|reflexivity].
Defined.

(** X28: a negative chunk size.  The first read returns all that is left,
    which is ciphered in one call, and the second read returns nothing: the
    stream functions end after two loop tests with the outcome they have for
    a chunk size of 1 or more. *)
Theorem stream_chunk_size_negative (self : GearboxCrypt.t) (fuel : nat)
    (inp : PyFile.t) (out : bytes) (o : Z) :
  (2 ≤ fuel)%nat →
  GearboxCrypt._chunk_size self < 0 →
  (∃ inp' out' r,
     GearboxCrypt.decrypt_stream fuel self inp out o = Some (inp', out', r) ∧
     match GearboxCrypt.decrypt self (PyFile.remaining inp) (o + PyFile.tell inp) with
     | Ok data => inp' = at_end inp ∧ out' = out ++ data
                  ∧ r = Ok (len (PyFile.remaining inp))
     | Raise e => r = Raise e
     end) ∧
  (∃ inp' out' r,
     GearboxCrypt.encrypt_stream fuel self inp out o = Some (inp', out', r) ∧
     match GearboxCrypt.encrypt self (PyFile.remaining inp) (o + PyFile.tell inp) with
     | Ok data => inp' = at_end inp ∧ out' = out ++ data
                  ∧ r = Ok (len (PyFile.remaining inp))
     | Raise e => r = Raise e
     end).
Proof.
  intros Hfuel Hcs. destruct fuel as [|[|fuel]]; [lia|lia|].
  assert (∀ cipher : bytes → Z → result bytes,
    cipher [] (o + PyFile.tell inp) = Ok [] →
    ∃ inp' out' r,
      GearboxCrypt.stream (S (S fuel)) cipher (GearboxCrypt._chunk_size self) inp out o
      = Some (inp', out', r) ∧
      match cipher (PyFile.remaining inp) (o + PyFile.tell inp) with
      | Ok data => inp' = at_end inp ∧ out' = out ++ data
                   ∧ r = Ok (len (PyFile.remaining inp))
      | Raise e => r = Raise e
      end) as Hstream.
  { intros cipher Hnil. unfold GearboxCrypt.stream.
    rewrite read_all by exact Hcs. cbn [fst snd GearboxCrypt.stream_loop].
    case_bool_decide as Hrem.
    - rewrite Hrem, Hnil. eexists _, _, _. split; [reflexivity|].
      rewrite app_nil_r. split; [reflexivity|]. split; [reflexivity|].
      simpl. f_equal. unfold PyFile.tell, at_end, len. cbn [PyFile.pos].
      rewrite Hrem. simpl. lia.
    - destruct (cipher (PyFile.remaining inp) (o + PyFile.tell inp)) as [data|e].
      + rewrite read_all by exact Hcs. cbn [fst snd].
        rewrite remaining_at_end, at_end_idem, bool_decide_true by reflexivity.
        eexists _, _, _. split; [reflexivity|].
        split; [reflexivity|]. split; [reflexivity|].
        simpl. f_equal. unfold PyFile.tell, at_end, len. simpl. lia.
      + eexists _, _, _. split; reflexivity. }
  split; apply Hstream; reflexivity.
Qed.

Lemma stream_chunk_size_negative_witness :
  (2 ≤ 2)%nat ∧
  GearboxCrypt._chunk_size (GearboxCrypt.mk (-1) 100 4 [1;2;3;4]) < 0 ∧
  (∃ inp' out' r,
     GearboxCrypt.decrypt_stream 2 (GearboxCrypt.mk (-1) 100 4 [1;2;3;4]) example_input [] 5
       = Some (inp', out', r) ∧
     match GearboxCrypt.decrypt (GearboxCrypt.mk (-1) 100 4 [1;2;3;4])
             (PyFile.remaining example_input) (5 + PyFile.tell example_input) with
     | Ok data => inp' = at_end example_input ∧ out' = [] ++ data
                  ∧ r = Ok (len (PyFile.remaining example_input))
     | Raise e => r = Raise e
     end) ∧
  (∃ inp' out' r,
     GearboxCrypt.encrypt_stream 2 (GearboxCrypt.mk (-1) 100 4 [1;2;3;4]) example_input [] 5
       = Some (inp', out', r) ∧
     match GearboxCrypt.encrypt (GearboxCrypt.mk (-1) 100 4 [1;2;3;4])
             (PyFile.remaining example_input) (5 + PyFile.tell example_input) with
     | Ok data => inp' = at_end example_input ∧ out' = [] ++ data
                  ∧ r = Ok (len (PyFile.remaining example_input))
     | Raise e => r = Raise e
     end).
Proof.
  split; [lia|]. split; [simpl; lia|].
  apply (stream_chunk_size_negative (GearboxCrypt.mk (-1) 100 4 [1;2;3;4]) 2
           example_input [] 5); simpl; lia.
Defined.

Lemma stream_whole (self : GearboxCrypt.t) (fuel : nat)
    (inp : PyFile.t) (out : bytes) (o : Z) :
  1 ≤ GearboxCrypt._chunk_size self →
  (length (PyFile.remaining inp) < fuel)%nat →
  (∃ inp' out' r,
     GearboxCrypt.decrypt_stream fuel self inp out o = Some (inp', out', r) ∧
     match GearboxCrypt.decrypt self (PyFile.remaining inp) (o + PyFile.tell inp) with
     | Ok data => inp' = at_end inp ∧ out' = out ++ data
                  ∧ r = Ok (len (PyFile.remaining inp))
     | Raise e => r = Raise e
     end) ∧
  (∃ inp' out' r,
     GearboxCrypt.encrypt_stream fuel self inp out o = Some (inp', out', r) ∧
     match GearboxCrypt.encrypt self (PyFile.remaining inp) (o + PyFile.tell inp) with
     | Ok data => inp' = at_end inp ∧ out' = out ++ data
                  ∧ r = Ok (len (PyFile.remaining inp))
     | Raise e => r = Raise e
     end).
Proof.
  intros Hcs Hfuel. split.
  - apply stream_spec; auto. intros a b o'. apply keyed_app.
  - apply stream_spec; auto. intros a b o'. apply keyed_app.
Qed.

(** X8: streams are inverse to each other.  For every cipher object made by
    the constructor from a non-empty local key with a chunk size of at least
    1, every input of bytes and every offset [o]: [encrypt_stream] writes a
    ciphertext as long as what the input had left, and [decrypt_stream] over
    that ciphertext, read from its start with the offset [o] plus the position
    the input had, writes back the bytes the input had left. *)
Theorem stream_round_trip ds lk gk cs self (fuel : nat) (inp : PyFile.t) (o : Z) :
  GearboxCrypt.__init__ ds lk gk cs = Ok self → lk ≠ [] → 1 ≤ cs →
  is_bytes (PyFile.remaining inp) →
  (length (PyFile.remaining inp) < fuel)%nat →
  ∃ ct : bytes,
    GearboxCrypt.encrypt_stream fuel self inp [] o
      = Some (at_end inp, ct, Ok (len (PyFile.remaining inp))) ∧
    length ct = length (PyFile.remaining inp) ∧
    GearboxCrypt.decrypt_stream fuel self (PyFile.mk ct 0) [] (o + PyFile.tell inp)
      = Some (at_end (PyFile.mk ct 0), PyFile.remaining inp,
              Ok (len (PyFile.remaining inp))).
Proof.
  intros Hinit Hne Hcs Hbytes Hfuel.
  pose proof (init_keyed _ _ _ _ _ Hinit Hne) as Hk.
  pose proof (init_fields _ _ _ _ _ Hinit) as (Hchunk & _).
  set (rest := PyFile.remaining inp) in *.
  set (ct := keyed_bytes self (λ c k, Z.land 255 (c - k)) rest (o + PyFile.tell inp)).
  assert (length ct = length rest) as Hlen by apply keyed_bytes_length.
  exists ct. split; [|split; [exact Hlen|]].
  - destruct (stream_whole self fuel inp [] o)
      as [_ (inp' & out' & r & Hs & Hres)]; [rewrite Hchunk; exact Hcs|exact Hfuel|].
    fold rest in Hres. rewrite encrypt_keyed, keyed_ok in Hres by exact Hk.
    destruct Hres as (-> & -> & ->). exact Hs.
  - destruct (stream_whole self fuel (PyFile.mk ct 0) []
                (o + PyFile.tell inp))
      as [(inp' & out' & r & Hs & Hres) _];
      [rewrite Hchunk; exact Hcs
      |change (PyFile.remaining (PyFile.mk ct 0)) with ct; lia|].
    change (PyFile.remaining (PyFile.mk ct 0)) with ct in *.
    change (PyFile.tell (PyFile.mk ct 0)) with 0 in Hres.
    rewrite Z.add_0_r, decrypt_keyed, keyed_ok in Hres by exact Hk.
    assert (keyed_bytes self (λ c k, Z.land 255 (c + k)) ct (o + PyFile.tell inp) = rest)
      as Hinv by (apply keyed_bytes_inverse, Hbytes).
    rewrite Hinv in Hres. destruct Hres as (-> & -> & ->).
    rewrite Hs. unfold len. rewrite Hlen. reflexivity.
Qed.

Lemma stream_round_trip_witness :
  GearboxCrypt.__init__ 100 [1;2;3;4;5;6;7;8] example_master_key 3
    = Ok (GearboxCrypt.mk 3 100 8 [98;5;87;42;106;5;95;82]) ∧
  [1;2;3;4;5;6;7;8] ≠ ([] : bytes) ∧ 1 ≤ 3 ∧
  is_bytes (PyFile.remaining example_input) ∧
  (length (PyFile.remaining example_input) < 10)%nat ∧
  ∃ ct : bytes,
    GearboxCrypt.encrypt_stream 10 (GearboxCrypt.mk 3 100 8 [98;5;87;42;106;5;95;82])
      example_input [] 5
      = Some (at_end example_input, ct, Ok (len (PyFile.remaining example_input))) ∧
    length ct = length (PyFile.remaining example_input) ∧
    GearboxCrypt.decrypt_stream 10 (GearboxCrypt.mk 3 100 8 [98;5;87;42;106;5;95;82])
      (PyFile.mk ct 0) [] (5 + PyFile.tell example_input)
      = Some (at_end (PyFile.mk ct 0), PyFile.remaining example_input,
              Ok (len (PyFile.remaining example_input))).
Proof.
  assert (is_bytes (PyFile.remaining example_input)) as Hb
    by (apply is_bytes_check; reflexivity).
  split; [vm_compute; reflexivity|]. split; [discriminate|]. split; [lia|].
  split; [exact Hb|]. split; [simpl; lia|].
  apply (stream_round_trip 100 [1;2;3;4;5;6;7;8] example_master_key 3
           (GearboxCrypt.mk 3 100 8 [98;5;87;42;106;5;95;82]) 10 example_input 5).
  - vm_compute; reflexivity.
  - discriminate.
  - lia.
  - exact Hb.
  - simpl; lia.
Defined.

(** ** naabal.util *)

Lemma split_by_take {A : Type} (l : list A) (n : Z) (m : nat) :
  0 < n →
  mjoin ((λ pos, slice l pos (pos + n)) <$> ((λ k : nat, 0 + n * Z.of_nat k) <$> seq 0 m))
  = take (Z.to_nat n * m) l.
Proof.
  intros Hn. induction m as [|m IH].
  - rewrite Nat.mul_0_r. reflexivity.
  - rewrite seq_S, !fmap_app, join_app, IH. simpl. rewrite app_nil_r.
    unfold slice.
    replace (Z.to_nat (0 + n * Z.of_nat m + n - (0 + n * Z.of_nat m))) with (Z.to_nat n)
      by lia.
    replace (Z.to_nat (0 + n * Z.of_nat m)) with (Z.to_nat n * m)%nat by lia.
    rewrite take_take_drop. f_equal. lia.
Qed.

(** X9: [split_by] cuts without loss.  For every sequence and every chunk
    size of at least 1, the chunks joined in order are the sequence; no chunk
    is empty and none is longer than the chunk size. *)
Theorem split_by_join {A : Type} (l : list A) (n : Z) :
  1 ≤ n →
  mjoin (util.split_by l n) = l ∧
  Forall (λ chunk, (1 ≤ length chunk ≤ Z.to_nat n)%nat) (util.split_by l n).
Proof.
  intros Hn. split.
  - unfold util.split_by, xrange. rewrite split_by_take by lia.
    apply take_ge.
    assert (len l ≤ n * ((len l - 0 + n - 1) `div` n)).
    { pose proof (Z.mul_div_le (len l - 0 + n - 1) n ltac:(lia)).
      pose proof (Z.mod_pos_bound (len l - 0 + n - 1) n ltac:(lia)).
      pose proof (Z.div_mod (len l - 0 + n - 1) n ltac:(lia)). lia. }
    pose proof (len_nonneg l).
    assert (0 ≤ (len l - 0 + n - 1) `div` n) by (apply Z.div_pos; lia).
    unfold len in *. nia.
  - unfold util.split_by, xrange. apply Forall_fmap, Forall_fmap, Forall_forall.
    intros k Hk. apply elem_of_seq in Hk. simpl.
    unfold slice. rewrite length_take, length_drop.
    assert (Z.of_nat k < (len l - 0 + n - 1) `div` n) as Hk' by lia.
    assert (n * Z.of_nat k < len l).
    { assert (n * (Z.of_nat k + 1) ≤ len l - 0 + n - 1); [|lia].
      etrans; [|apply (Z.mul_div_le _ n); lia].
      apply Z.mul_le_mono_nonneg_l; lia. }
    unfold len in *. lia.
Qed.

Lemma split_by_join_witness :
  1 ≤ 4 ∧
  mjoin (util.split_by [1; 2; 3; 4; 5; 6; 7; 8; 9; 10] 4) = [1; 2; 3; 4; 5; 6; 7; 8; 9; 10] ∧
  Forall (λ chunk, (1 ≤ length chunk ≤ Z.to_nat 4)%nat)
    (util.split_by [1; 2; 3; 4; 5; 6; 7; 8; 9; 10] 4).
Proof.
  split; [lia|]. apply (split_by_join [1; 2; 3; 4; 5; 6; 7; 8; 9; 10] 4). lia.
Defined.

Lemma split_to_bytes_eq (x : Z) :
  util.SPLIT_TO_BYTES x
  = [x `mod` 256; (x `div` 2 ^ 8) `mod` 256; (x `div` 2 ^ 16) `mod` 256;
     (x `div` 2 ^ 24) `mod` 256].
Proof.
  unfold util.SPLIT_TO_BYTES.
  change (xrange 0 32 8) with [0; 8; 16; 24]. cbn [fmap list_fmap].
  rewrite !byte_at by lia. change (2 ^ 0) with 1. rewrite Z.div_1_r. reflexivity.
Qed.

(** X10: [SPLIT_TO_BYTES] gives the low 32 bits.  For every integer, negative
    ones included, the result has 4 elements, each a byte, and read back as a
    little-endian number it is the integer modulo [2^32]. *)
Theorem split_to_bytes_low_word (x : Z) :
  length (util.SPLIT_TO_BYTES x) = 4%nat ∧
  is_bytes (util.SPLIT_TO_BYTES x) ∧
  le_uint (util.SPLIT_TO_BYTES x) = x `mod` 2 ^ 32.
Proof.
  rewrite split_to_bytes_eq. split; [reflexivity|]. split.
  - repeat constructor; apply Z.mod_pos_bound; lia.
  - unfold le_uint. simpl foldr.
    change (2 ^ 8) with 256. change (2 ^ 16) with (256 * 256).
    change (2 ^ 24) with (256 * (256 * 256)).
    change (2 ^ 32) with (256 * (256 * (256 * 256))).
    rewrite (Z.rem_mul_r x 256 (256 * (256 * 256))) by lia.
    rewrite (Z.rem_mul_r (x `div` 256) 256 (256 * 256)) by lia.
    rewrite (Z.rem_mul_r ((x `div` 256) `div` 256) 256 256) by lia.
    rewrite !Z.div_div by lia.
    change (256 * 256 * 256) with (256 * (256 * 256)). lia.
Qed.

(** X11: on an argument of 32 bits, [ROTL] by 8 rotates the bytes.  For
    every [x] with [0 <= x < 2^32], if the bytes of [x] are [b0, b1, b2, b3]
    (least significant first), those of [ROTL(x, 8)] are [b3, b0, b1, b2]. *)
Theorem rotl_8_rotates_bytes (x b0 b1 b2 b3 : Z) :
  0 ≤ x < 2 ^ 32 →
  util.SPLIT_TO_BYTES x = [b0; b1; b2; b3] →
  util.SPLIT_TO_BYTES (util.ROTL x 8) = [b3; b0; b1; b2].
Proof.
  intros Hx. rewrite ROTL_8 by exact Hx. rewrite !split_to_bytes_eq.
  intros [= <- <- <- <-].
  change (2 ^ 8) with 256. change (2 ^ 16) with 65536.
  change (2 ^ 24) with 16777216. change (2 ^ 32) with 4294967296 in Hx.
  set (q := x `div` 16777216).
  assert (0 ≤ q < 256) as Hq by (unfold q; Z.div_mod_to_equations; lia).
  assert (q `mod` 256 = q) as Hqm by (apply Z.mod_small; lia).
  assert ((q + 256 * x) `div` 256 = x) as Hd.
  { replace (q + 256 * x) with (q + x * 256) by lia.
    rewrite Z.div_add by lia. rewrite Z.div_small by lia. lia. }
  f_equal; [|f_equal; [|f_equal; [|f_equal]]].
  - replace (q + 256 * x) with (q + x * 256) by lia.
    rewrite Z_mod_plus_full. reflexivity.
  - rewrite Hd. reflexivity.
  - change 65536 with (256 * 256). rewrite <- Z.div_div, Hd by lia. reflexivity.
  - change 16777216 with (256 * 65536) at 1. rewrite <- Z.div_div, Hd by lia.
    reflexivity.
Qed.

Lemma rotl_8_rotates_bytes_witness :
  0 ≤ 305419896 < 2 ^ 32 ∧
  util.SPLIT_TO_BYTES 305419896 = [120; 86; 52; 18] ∧
  util.SPLIT_TO_BYTES (util.ROTL 305419896 8) = [18; 120; 86; 52].
Proof.
  split; [lia|]. split; [vm_compute; reflexivity|].
  apply (rotl_8_rotates_bytes 305419896 120 86 52 18); [lia|vm_compute; reflexivity].
Defined.

(** ** Lookup and insertion of members *)

Lemma find_member_app n (l k : list BigInfo.t) :
  BigFile.find_member n (l ++ k)
  = match BigFile.find_member n l with
    | Return m => Return m
    | Throw _ => BigFile.find_member n k
    end.
Proof.
  induction l as [|x l IH]; simpl; [reflexivity|].
  destruct (decide (BigInfo.name x = n)); [reflexivity|exact IH].
Qed.

Lemma key_leb_refl (a : option string) : key_leb a a = true.
Proof. destruct (key_le_total a a) as [H|H]; exact H. Qed.

(** The sort is stable, so the first member of a name stays the first. *)
Lemma find_member_insert n x (l : list BigInfo.t) :
  BigFile.find_member n (insert_by BigInfo.name x l) = BigFile.find_member n (x :: l).
Proof.
  induction l as [|y l IH]; [reflexivity|].
  cbn [insert_by]. destruct (key_leb (BigInfo.name x) (BigInfo.name y)) eqn:E;
    [reflexivity|].
  cbn [BigFile.find_member] in *. rewrite IH.
  destruct (decide (BigInfo.name y = n)) as [Hy|Hy];
    destruct (decide (BigInfo.name x = n)) as [Hx|Hx]; try reflexivity.
  rewrite Hx, Hy, key_leb_refl in E. discriminate.
Qed.

Lemma find_member_sort n (l : list BigInfo.t) :
  BigFile.find_member n (list_sort BigInfo.name l) = BigFile.find_member n l.
Proof.
  induction l as [|x l IH]; [reflexivity|].
  cbn [list_sort foldr]. fold (list_sort BigInfo.name l).
  rewrite find_member_insert. cbn [BigFile.find_member]. rewrite IH. reflexivity.
Qed.

(** X12: what [get_member] returns.  For every archive and name: a member it
    returns has that name and is the first of that name in [get_members()];
    it raises [KeyError] carrying the name exactly when no member has it. *)
Theorem get_member_first_match (w : BigFile.world) (self : nat) (filename : option string) :
  match BigFile.get_member w self filename with
  | Return m =>
      ∃ pre post, BigFile.get_members w self = pre ++ m :: post ∧
                  BigInfo.name m = filename ∧
                  Forall (λ x, BigInfo.name x ≠ filename) pre
  | Throw e => e = KeyError filename ∧ filename ∉ BigFile.get_filenames w self
  end.
Proof.
  unfold BigFile.get_member, BigFile.get_filenames.
  induction (BigFile.get_members w self) as [|x l IH]; simpl.
  - split; [reflexivity|]. apply not_elem_of_nil.
  - destruct (decide (BigInfo.name x = filename)) as [Hx|Hx].
    + exists [], l. split; [reflexivity|]. split; [exact Hx|constructor].
    + destruct (BigFile.find_member filename l) as [m|e].
      * destruct IH as (pre & post & -> & Hm & Hpre).
        exists (x :: pre), post. split; [reflexivity|]. split; [exact Hm|].
        constructor; assumption.
      * destruct IH as [-> Hnot]. split; [reflexivity|].
        rewrite not_elem_of_cons. split; [congruence|exact Hnot].
Qed.

(** X13: lookup after insertion.  For every archive, member and name, after
    [add] (sorting or not) [get_member] returns what it returned before when
    a member of that name was there already (the added one is behind it);
    otherwise it returns the added member if the name is its name, and raises
    [KeyError] if not. *)
Theorem get_member_after_add (w : BigFile.world) (self : nat) (bi : BigInfo.t)
    (sort_after : bool) (filename : option string) :
  BigFile.get_member (BigFile.add w self bi sort_after) self filename
  = match BigFile.get_member w self filename with
    | Return m => Return m
    | Throw _ => if decide (BigInfo.name bi = filename) then Return bi
                 else Throw (KeyError filename)
    end.
Proof.
  unfold BigFile.get_member. rewrite get_members_add.
  assert (BigFile.find_member filename
            ((if sort_after then list_sort BigInfo.name else id)
               (BigFile.get_members w self ++ [bi]))
          = BigFile.find_member filename (BigFile.get_members w self ++ [bi])) as ->
    by (destruct sort_after; [apply find_member_sort|reflexivity]).
  rewrite find_member_app. reflexivity.
Qed.

(** X14: [add_file] never adds.  It calls [get_biginfo] without an
    [alt_filename], and [ExternalBigInfo.load] then reads the variable
    [filename], which is bound nowhere: whatever the file system, for a path
    and for a file object with a name the call raises [NameError] and the
    archive is as before. *)
Theorem add_file_raises (os_stat : string → option stat_result)
    (w : BigFile.world) (self : nat) (fileobj : file_arg) :
  BigFile.get_biginfo os_stat self fileobj None = Raise NameError ∧
  BigFile.add_file os_stat w self fileobj = (w, Raise NameError).
Proof.
  assert (BigFile.get_biginfo os_stat self fileobj None = Raise NameError) as H
    by reflexivity.
  split; [exact H|]. unfold BigFile.add_file. rewrite H. reflexivity.
Qed.

Lemma list_sort_sorted_id {A : Type} (key : A → option string) (l : list A) :
  Sorted (by_key key) l → list_sort key l = l.
Proof.
  induction 1 as [|x l Hs IH Hhd]; [reflexivity|].
  cbn [list_sort foldr]. fold (list_sort key l). rewrite IH.
  destruct Hhd as [|y l Hxy]; [reflexivity|].
  cbn [insert_by]. unfold by_key, key_le in Hxy. rewrite Hxy. reflexivity.
Qed.

(** X15: sorting twice is sorting once.  For every archive, after
    [_sort_members] a further [_sort_members] leaves [get_members()] as it
    is. *)
Theorem sort_members_idempotent (w : BigFile.world) (self : nat) :
  BigFile.get_members (BigFile._sort_members (BigFile._sort_members w self) self) self
  = BigFile.get_members (BigFile._sort_members w self) self.
Proof.
  rewrite !get_members_sort. apply list_sort_sorted_id, list_sort_sorted.
Qed.

(** ** What calls leave in place *)

Section frame.
Variables (os_stat : string → option stat_result)
          (os_walk : string → list (string * list string * list string))
          (os_path_join : string → string → string)
          (replace_first : string → string → string).
Variable self : nat.

Lemma extends_refl w : extends self w w.
Proof.
  split; [reflexivity|]. split; [|reflexivity]. exists []. rewrite app_nil_r. done.
Qed.

Lemma extends_trans w1 w2 w3 : extends self w1 w2 → extends self w2 w3 → extends self w1 w3.
Proof.
  intros (Ha1 & (b1 & Hm1) & Hh1) (Ha2 & (b2 & Hm2) & Hh2).
  split; [congruence|]. split.
  - exists (b1 ++ b2). rewrite Hm2, Hm1, app_assoc. reflexivity.
  - intros l Hl. rewrite Hh2, Hh1; [reflexivity|exact Hl|].
    unfold BigFile._members in *. rewrite Ha1. exact Hl.
Qed.

Lemma extends_add w bi : extends self w (BigFile.add w self bi false).
Proof.
  split; [reflexivity|]. split.
  - exists [bi]. exact (get_members_add w self bi false).
  - intros l Hl. unfold BigFile.add. cbn [BigFile.heap].
    rewrite lookup_insert_ne by done. reflexivity.
Qed.

Lemma for_each_st_extends {B : Type}
    (body : BigFile.world → B → BigFile.world * result unit) :
  (∀ w x, extends self w (body w x).1) →
  ∀ xs w, extends self w (BigFile.for_each_st body w xs).1.
Proof.
  intros Hbody. induction xs as [|x xs IH]; intros w; simpl.
  - apply extends_refl.
  - pose proof (Hbody w x) as Hx. destruct (body w x) as [w1 [[]|e]]; simpl in *.
    + eapply extends_trans; [exact Hx|apply IH].
    + exact Hx.
Qed.

Lemma add_all_file_extends path exclude w filename :
  extends self w (BigFile.add_all_file os_stat replace_first self path exclude w filename).1.
Proof.
  unfold BigFile.add_all_file. destruct (negb (exclude filename)).
  - destruct (BigFile.get_biginfo _ _ _ _); simpl;
      [apply extends_add|apply extends_refl].
  - apply extends_refl.
Qed.

Lemma add_all_dir_extends path exclude w entry :
  extends self w (BigFile.add_all_dir os_stat os_path_join replace_first self path exclude
               w entry).1.
Proof.
  destruct entry as [[dirpath dirnames] filenames]. unfold BigFile.add_all_dir.
  apply for_each_st_extends. intros w0 x. apply add_all_file_extends.
Qed.

Lemma add_all_loop_extends path exclude w :
  extends self w (BigFile.for_each_st
               (BigFile.add_all_dir os_stat os_path_join replace_first self path exclude)
               w (os_walk path)).1.
Proof. apply for_each_st_extends. intros w0 x. apply add_all_dir_extends. Qed.
End frame.

Section frame_calls.
Variables (os_stat : string → option stat_result)
          (os_walk : string → list (string * list string * list string))
          (os_path_join : string → string → string)
          (replace_first : string → string → string).
Variable self : nat.

Lemma frame_refl w : frame self w w.
Proof. split; reflexivity. Qed.

Lemma frame_trans w1 w2 w3 : frame self w1 w2 → frame self w2 w3 → frame self w1 w3.
Proof.
  intros (Ha1 & Hh1) (Ha2 & Hh2). split; [congruence|].
  intros l Hl. rewrite Hh2, Hh1; [reflexivity|exact Hl|].
  unfold BigFile._members in *. rewrite Ha1. exact Hl.
Qed.

Lemma frame_sort w : frame self w (BigFile._sort_members w self).
Proof.
  split; [reflexivity|]. intros l Hl. unfold BigFile._sort_members.
  cbn [BigFile.heap]. rewrite lookup_insert_ne by done. reflexivity.
Qed.

Lemma extends_frame w w' : extends self w w' → frame self w w'.
Proof. intros (Ha & _ & Hh). split; assumption. Qed.

Lemma do_call_outcome w c :
  let r := BigFile.do_call os_stat os_walk os_path_join replace_first self w c in
  frame self w r.1 ∧
  (∃ bis, BigFile.get_members r.1 self ≡ₚ BigFile.get_members w self ++ bis) ∧
  (∀ e, r.2 = Raise e →
        ∃ bis, BigFile.get_members r.1 self = BigFile.get_members w self ++ bis).
Proof.
  destruct c as [bi|path exclude]; cbn [BigFile.do_call fst snd].
  - split; [|split].
    + eapply frame_trans; [apply extends_frame, (extends_add self w bi)|].
      apply frame_sort.
    + exists [bi]. rewrite (get_members_add w self bi true).
      apply list_sort_perm.
    + discriminate.
  - unfold BigFile.add_all.
    pose proof (add_all_loop_extends os_stat os_walk os_path_join replace_first self
                  path exclude w) as Hext.
    destruct (BigFile.for_each_st _ w (os_walk path)) as [w1 [[]|e]];
      cbn [fst snd] in *.
    + split; [|split].
      * eapply frame_trans; [apply extends_frame, Hext|apply frame_sort].
      * destruct Hext as (_ & (bis & Hm) & _). exists bis.
        rewrite get_members_sort, list_sort_perm, Hm. reflexivity.
      * discriminate.
    + split; [apply extends_frame, Hext|]. destruct Hext as (_ & (bis & Hm) & _).
      split; [exists bis; rewrite Hm; reflexivity|]. intros e' _. exists bis. exact Hm.
Qed.

Lemma frame_get_members w w' other :
  frame self w w' → BigFile._members w other ≠ BigFile._members w self →
  BigFile.get_members w' other = BigFile.get_members w other ∧
  BigFile._members w' other = BigFile._members w other ∧
  BigFile._members w' self = BigFile._members w self.
Proof.
  intros (Ha & Hh) Hne. unfold BigFile.get_members, BigFile._members in *.
  rewrite Ha, Hh by exact Hne. done.
Qed.

Lemma calls_frame calls : ∀ w other,
  BigFile._members w other ≠ BigFile._members w self →
  BigFile.get_members
    (BigFile.for_each_st
       (BigFile.do_call os_stat os_walk os_path_join replace_first self) w calls).1 other
  = BigFile.get_members w other.
Proof.
  induction calls as [|c calls IH]; intros w other Hne; [reflexivity|].
  cbn [BigFile.for_each_st].
  destruct (do_call_outcome w c) as (Hf & _).
  destruct (frame_get_members _ _ other Hf Hne) as (Hg & Ho & Hs).
  destruct (BigFile.do_call _ _ _ _ self w c) as [w1 [[]|e]]; cbn [fst snd] in *.
  - rewrite IH by congruence. exact Hg.
  - exact Hg.
Qed.
End frame_calls.

Lemma loaded_distinct w a b ma mb :
  a ≠ b →
  BigFile._members (BigFile.load (BigFile.load w a ma) b mb) a
  ≠ BigFile._members (BigFile.load (BigFile.load w a ma) b mb) b.
Proof.
  intros Hab.
  set (w1 := BigFile.load w a ma) in *.
  set (la := fresh (dom (BigFile.heap w))).
  assert (BigFile.attrs w1 !! a = Some la) as Ha.
  { unfold w1, BigFile.load, BigFile._sort_members. cbn [BigFile.attrs].
    apply lookup_insert_eq. }
  assert (la ∈ dom (BigFile.heap w1)) as Hin.
  { unfold w1, BigFile.load, BigFile._sort_members, BigFile._members.
    cbn [BigFile.attrs BigFile.heap]. rewrite lookup_insert_eq. simpl.
    fold la. set_solver. }
  unfold BigFile.load. rewrite !members_sort.
  unfold BigFile._members. cbn [BigFile.attrs].
  rewrite lookup_insert_ne by done. rewrite Ha, lookup_insert_eq. simpl.
  intros Heq. rewrite Heq in Hin. exact (is_fresh _ Hin).
Qed.

(** X16: calls never drop a member.  For every call of [add] or [add_all] on
    an archive, whether it returns or raises, the members afterwards are the
    members before and some more, rearranged; when the call raises (an
    [os.stat] that fails during [add_all]) the former members are still in
    their places and the members added so far follow them, unsorted. *)
Theorem call_keeps_members (os_stat : string → option stat_result)
    (os_walk : string → list (string * list string * list string))
    (os_path_join replace_first : string → string → string)
    (self : nat) (w : BigFile.world) (c : BigFile.call) :
  (∃ bis, BigFile.get_members
            (BigFile.do_call os_stat os_walk os_path_join replace_first self w c).1 self
          ≡ₚ BigFile.get_members w self ++ bis) ∧
  (∀ e, (BigFile.do_call os_stat os_walk os_path_join replace_first self w c).2 = Raise e →
        ∃ bis, BigFile.get_members
                 (BigFile.do_call os_stat os_walk os_path_join replace_first self w c).1
                 self
               = BigFile.get_members w self ++ bis).
Proof.
  destruct (do_call_outcome os_stat os_walk os_path_join replace_first self w c)
    as (_ & H1 & H2). split; assumption.
Qed.

(** X17: archives that were loaded do not share members.  For every two
    distinct archives that both called [load] (each getting a list of its own
    from [_get_members]), every sequence of calls of [add] and [add_all] on
    the first, returning or raising, leaves [get_members()] and
    [get_filenames()] of the second as they were. *)
Theorem loaded_archives_isolated (os_stat : string → option stat_result)
    (os_walk : string → list (string * list string * list string))
    (os_path_join replace_first : string → string → string)
    (w : BigFile.world) (a b : nat) (ma mb : list BigInfo.t)
    (calls : list BigFile.call) :
  a ≠ b →
  BigFile.get_members
    (BigFile.for_each_st
       (BigFile.do_call os_stat os_walk os_path_join replace_first a)
       (BigFile.load (BigFile.load w a ma) b mb) calls).1 b
  = BigFile.get_members (BigFile.load (BigFile.load w a ma) b mb) b ∧
  BigFile.get_filenames
    (BigFile.for_each_st
       (BigFile.do_call os_stat os_walk os_path_join replace_first a)
       (BigFile.load (BigFile.load w a ma) b mb) calls).1 b
  = BigFile.get_filenames (BigFile.load (BigFile.load w a ma) b mb) b.
Proof.
  intros Hab.
  assert (BigFile.get_members
    (BigFile.for_each_st
       (BigFile.do_call os_stat os_walk os_path_join replace_first a)
       (BigFile.load (BigFile.load w a ma) b mb) calls).1 b
  = BigFile.get_members (BigFile.load (BigFile.load w a ma) b mb) b) as H.
  { apply calls_frame. intros Heq. symmetry in Heq. revert Heq.
    apply loaded_distinct, Hab. }
  split; [exact H|]. unfold BigFile.get_filenames. rewrite H. reflexivity.
Qed.

Lemma loaded_archives_isolated_witness :
  1%nat ≠ 2%nat ∧
  BigFile.get_members
    (BigFile.for_each_st
       (BigFile.do_call example_stat example_walk example_join example_replace 1%nat)
       (BigFile.load (BigFile.load BigFile.initial 1%nat [member_c]) 2%nat [member_b])
       example_calls).1 2%nat
  = BigFile.get_members
      (BigFile.load (BigFile.load BigFile.initial 1%nat [member_c]) 2%nat [member_b])
      2%nat ∧
  BigFile.get_filenames
    (BigFile.for_each_st
       (BigFile.do_call example_stat example_walk example_join example_replace 1%nat)
       (BigFile.load (BigFile.load BigFile.initial 1%nat [member_c]) 2%nat [member_b])
       example_calls).1 2%nat
  = BigFile.get_filenames
      (BigFile.load (BigFile.load BigFile.initial 1%nat [member_c]) 2%nat [member_b])
      2%nat.
Proof.
  split; [lia|].
  apply (loaded_archives_isolated example_stat example_walk example_join example_replace
           BigFile.initial 1%nat 2%nat [member_c] [member_b] example_calls).
  lia.
Defined.

(** ** The encrypted archive *)

Lemma slice_app {A : Type} (c : list A) (a b d : Z) :
  0 ≤ a → a ≤ b → b ≤ d → slice c a b ++ slice c b d = slice c a d.
Proof.
  intros Ha Hab Hbd. unfold slice.
  replace (Z.to_nat b) with (Z.to_nat a + Z.to_nat (b - a))%nat by lia.
  rewrite <- drop_drop.
  replace (Z.to_nat (d - a)) with (Z.to_nat (b - a) + Z.to_nat (d - b))%nat by lia.
  rewrite take_take_drop. reflexivity.
Qed.

Lemma read_encrypted_eq crypto (n : Z) (c : bytes) (p : nat) :
  0 ≤ n →
  GearboxEncryptedBigFile._read_encrypted crypto (Some n) (PyFile.mk c p)
  = (PyFile.mk c (p + length (slice c (Z.of_nat p) (Z.of_nat p + n))),
     GearboxCrypt.decrypt crypto (slice c (Z.of_nat p) (Z.of_nat p + n)) (Z.of_nat p)).
Proof.
  intros Hn. unfold GearboxEncryptedBigFile._read_encrypted.
  rewrite io_bind_unfold. unfold io_tell at 1.
  rewrite io_bind_unfold, io_read_at by exact Hn. reflexivity.
Qed.

(** The read inside the encrypted region, with its clamped end. *)
Lemma read_inside (self : GearboxEncryptedBigFile.t) crypto (c : bytes) (p : nat)
    (size : option Z) :
  GearboxEncryptedBigFile._crypto self = Some crypto →
  GearboxEncryptedBigFile._handle self = PyFile.mk c p →
  Z.of_nat p < GearboxCrypt._data_size crypto →
  (∀ s, size = Some s → 0 ≤ s) →
  let stop := match size with
              | None => GearboxCrypt._data_size crypto
              | Some s => Z.min (Z.of_nat p + s) (GearboxCrypt._data_size crypto)
              end in
  GearboxEncryptedBigFile.read self size
  = (GearboxEncryptedBigFile.mk
       (PyFile.mk c (p + length (slice c (Z.of_nat p) stop)))
       (GearboxEncryptedBigFile._real_handle self) (Some crypto),
     GearboxCrypt.decrypt crypto (slice c (Z.of_nat p) stop) (Z.of_nat p)).
Proof.
  intros Hcrypto Hhandle Hp Hsize stop.
  unfold GearboxEncryptedBigFile.read. rewrite Hcrypto, Hhandle.
  unfold PyFile.tell. cbn [PyFile.pos].
  rewrite bool_decide_true by exact Hp.
  set (size' := match size with
                | None => GearboxCrypt._data_size crypto - Z.of_nat p
                | Some s => if bool_decide (Z.of_nat p + s > GearboxCrypt._data_size crypto)
                            then GearboxCrypt._data_size crypto - Z.of_nat p else s
                end).
  assert (0 ≤ size' ∧ Z.of_nat p + size' = stop) as [Hs' Hstop].
  { unfold size', stop. destruct size as [s|]; [|lia].
    pose proof (Hsize s eq_refl). case_bool_decide; lia. }
  rewrite read_encrypted_eq by exact Hs'. rewrite Hstop. reflexivity.
Qed.

(** X18: a read that starts inside the encrypted region stays inside.  For
    every archive with a cipher loaded and its handle at [p] below the data
    size, a read of a size [s >= 0], or without a size, leaves the handle at a
    position between [p] and the data size, and what it returns has as many
    bytes as the handle moved, at most [s]. *)
Theorem read_stays_inside (self : GearboxEncryptedBigFile.t) crypto (c : bytes)
    (p : nat) (size : option Z) :
  GearboxEncryptedBigFile._crypto self = Some crypto →
  GearboxEncryptedBigFile._handle self = PyFile.mk c p →
  Z.of_nat p < GearboxCrypt._data_size crypto →
  (∀ s, size = Some s → 0 ≤ s) →
  Z.of_nat p ≤ PyFile.tell (GearboxEncryptedBigFile._handle
                              (GearboxEncryptedBigFile.read self size).1)
    ≤ GearboxCrypt._data_size crypto ∧
  ∀ d, (GearboxEncryptedBigFile.read self size).2 = Ok d →
       len d = PyFile.tell (GearboxEncryptedBigFile._handle
                              (GearboxEncryptedBigFile.read self size).1)
               - Z.of_nat p ∧
       ∀ s, size = Some s → len d ≤ s.
Proof.
  intros Hcrypto Hhandle Hp Hsize.
  rewrite (read_inside self crypto c p size Hcrypto Hhandle Hp Hsize).
  cbn [fst snd GearboxEncryptedBigFile._handle]. unfold PyFile.tell. cbn [PyFile.pos].
  set (stop := match size with
               | None => GearboxCrypt._data_size crypto
               | Some s => Z.min (Z.of_nat p + s) (GearboxCrypt._data_size crypto)
               end).
  assert (Z.of_nat p ≤ stop ≤ GearboxCrypt._data_size crypto) as Hstop.
  { unfold stop. destruct size as [s|]; [|lia]. pose proof (Hsize s eq_refl). lia. }
  pose proof (len_slice c (Z.of_nat p) stop ltac:(lia)) as Hlen.
  unfold len in Hlen. split; [lia|].
  intros d Hd. destruct (cipher_output crypto _ d _ (or_introl Hd)) as [Hl _].
  unfold len. split; [lia|].
  intros s ->. pose proof (Hsize s eq_refl). unfold stop in *. lia.
Qed.

Lemma read_stays_inside_witness :
  GearboxEncryptedBigFile._crypto loaded_archive
  = Some (GearboxCrypt.mk 4096 12 8 [10; 189; 39; 2; 18; 173; 95; 42]) ∧
  GearboxEncryptedBigFile._handle loaded_archive
  = PyFile.mk (PyFile.content good_file) 5 ∧
  Z.of_nat 5 < GearboxCrypt._data_size
                 (GearboxCrypt.mk 4096 12 8 [10; 189; 39; 2; 18; 173; 95; 42]) ∧
  (∀ s, Some 100 = Some s → 0 ≤ s) ∧
  Z.of_nat 5 ≤ PyFile.tell (GearboxEncryptedBigFile._handle
                              (GearboxEncryptedBigFile.read loaded_archive (Some 100)).1)
    ≤ GearboxCrypt._data_size
        (GearboxCrypt.mk 4096 12 8 [10; 189; 39; 2; 18; 173; 95; 42]) ∧
  ∀ d, (GearboxEncryptedBigFile.read loaded_archive (Some 100)).2 = Ok d →
       len d = PyFile.tell (GearboxEncryptedBigFile._handle
                              (GearboxEncryptedBigFile.read loaded_archive (Some 100)).1)
               - Z.of_nat 5 ∧
       ∀ s, Some 100 = Some s → len d ≤ s.
Proof.
  assert (∀ s, Some 100 = Some s → 0 ≤ s) as Hs by (intros s [= <-]; lia).
  split; [reflexivity|]. split; [reflexivity|]. split; [simpl; lia|]. split; [exact Hs|].
  apply (read_stays_inside loaded_archive
           (GearboxCrypt.mk 4096 12 8 [10; 189; 39; 2; 18; 173; 95; 42])
           (PyFile.content good_file) 5 (Some 100) eq_refl eq_refl);
    [simpl; lia|exact Hs].
Defined.

(** X19: reading in two pieces.  For every archive with a cipher loaded and
    its handle at [p], and sizes [s1, s2 >= 0] such that the first piece is
    all in the file and ends below the data size: a read of [s1] followed by
    a read of [s2] returns, joined, what one read of [s1 + s2] returns (or
    raises what it raises), and leaves the archive in the same state. *)
Theorem read_in_pieces (self : GearboxEncryptedBigFile.t) crypto (c : bytes)
    (p : nat) (s1 s2 : Z) :
  GearboxEncryptedBigFile._crypto self = Some crypto →
  GearboxEncryptedBigFile._handle self = PyFile.mk c p →
  0 ≤ s1 → 0 ≤ s2 →
  Z.of_nat p + s1 ≤ len c →
  Z.of_nat p + s1 < GearboxCrypt._data_size crypto →
  let first := GearboxEncryptedBigFile.read self (Some s1) in
  let second := GearboxEncryptedBigFile.read first.1 (Some s2) in
  let whole := GearboxEncryptedBigFile.read self (Some (s1 + s2)) in
  whole.2 = (x ← first.2; y ← second.2; mret (x ++ y)) ∧ whole.1 = second.1.
Proof.
  intros Hcrypto Hhandle Hs1 Hs2 Hfile Hinside first second whole.
  assert (∀ s, 0 ≤ s → ∀ s', Some s = Some s' → 0 ≤ s') as Hsz
    by (intros s Hs s' [= <-]; exact Hs).
  unfold whole, second, first.
  rewrite (read_inside self crypto c p (Some s1) Hcrypto Hhandle ltac:(lia) (Hsz s1 Hs1)).
  rewrite (read_inside self crypto c p (Some (s1 + s2)) Hcrypto Hhandle ltac:(lia)
             (Hsz (s1 + s2) ltac:(lia))).
  cbn [fst snd].
  rewrite (Z.min_l (Z.of_nat p + s1)) by lia.
  assert (length (slice c (Z.of_nat p) (Z.of_nat p + s1)) = Z.to_nat s1) as Hl1.
  { pose proof (len_slice c (Z.of_nat p) (Z.of_nat p + s1) ltac:(lia)) as H.
    unfold len in *. lia. }
  rewrite Hl1.
  rewrite (read_inside
             (GearboxEncryptedBigFile.mk (PyFile.mk c (p + Z.to_nat s1))
                (GearboxEncryptedBigFile._real_handle self) (Some crypto))
             crypto c (p + Z.to_nat s1) (Some s2) eq_refl eq_refl ltac:(lia)
             (Hsz s2 Hs2)).
  cbn [fst snd GearboxEncryptedBigFile._real_handle].
  set (ers := GearboxCrypt._data_size crypto) in *.
  replace (Z.of_nat (p + Z.to_nat s1)) with (Z.of_nat p + s1) by lia.
  replace (Z.of_nat p + s1 + s2) with (Z.of_nat p + (s1 + s2)) by lia.
  set (stop := Z.min (Z.of_nat p + (s1 + s2)) ers).
  rewrite <- (slice_app c (Z.of_nat p) (Z.of_nat p + s1) stop) by (unfold stop; lia).
  rewrite !decrypt_keyed, keyed_app.
  replace (len (slice c (Z.of_nat p) (Z.of_nat p + s1))) with s1
    by (unfold len; lia).
  split; [reflexivity|]. rewrite length_app, Hl1. do 2 f_equal. lia.
Qed.

Lemma read_in_pieces_witness :
  GearboxEncryptedBigFile._crypto loaded_archive
  = Some (GearboxCrypt.mk 4096 12 8 [10; 189; 39; 2; 18; 173; 95; 42]) ∧
  GearboxEncryptedBigFile._handle loaded_archive
  = PyFile.mk (PyFile.content good_file) 5 ∧
  0 ≤ 3 ∧ 0 ≤ 10 ∧
  Z.of_nat 5 + 3 ≤ len (PyFile.content good_file) ∧
  Z.of_nat 5 + 3 < GearboxCrypt._data_size
                     (GearboxCrypt.mk 4096 12 8 [10; 189; 39; 2; 18; 173; 95; 42]) ∧
  (GearboxEncryptedBigFile.read loaded_archive (Some (3 + 10))).2
  = (x ← (GearboxEncryptedBigFile.read loaded_archive (Some 3)).2;
     y ← (GearboxEncryptedBigFile.read
            (GearboxEncryptedBigFile.read loaded_archive (Some 3)).1 (Some 10)).2;
     mret (x ++ y)) ∧
  (GearboxEncryptedBigFile.read loaded_archive (Some (3 + 10))).1
  = (GearboxEncryptedBigFile.read
       (GearboxEncryptedBigFile.read loaded_archive (Some 3)).1 (Some 10)).1.
Proof.
  split; [reflexivity|]. split; [reflexivity|]. split; [lia|]. split; [lia|].
  split; [vm_compute; congruence|]. split; [vm_compute; congruence|].
  apply (read_in_pieces loaded_archive
           (GearboxCrypt.mk 4096 12 8 [10; 189; 39; 2; 18; 173; 95; 42])
           (PyFile.content good_file) 5 3 10 eq_refl eq_refl);
    first [lia | vm_compute; congruence].
Defined.

Lemma load_encryption_inv MK (h h' : PyFile.t) (crypto : GearboxCrypt.t) :
  is_bytes (PyFile.content h) →
  GearboxEncryptedBigFile._load_encryption MK h = (h', Ok crypto) →
  let c := PyFile.content h in
  4 ≤ EOF c ∧ backptr c < EOF c - 10 ∧
  len (marker_field c) = 4 ∧ le_uint (marker_field c) = 0 ∧
  len (key_len_field c) = 2 ∧ 0 ≤ key_len c ≤ 1024 ∧
  GearboxCrypt._data_size crypto = encrypted_region_size c ∧
  len (key_field c) = Z.min (key_len c) (backptr c - 6) ∧
  ∃ master_key,
    MK = Some master_key ∧
    GearboxCrypt.__init__ (encrypted_region_size c) (key_field c) master_key
      GearboxCrypt.default_chunk_size = Ok crypto.
Proof.
  intros Hbytes Hload c.
  pose proof (load_encryption_result MK h) as Hres.
  rewrite Hload in Hres. cbn [snd] in Hres. cbn zeta in Hres. fold c in Hres.
  repeat (case_bool_decide; [|discriminate]). case_bool_decide; [discriminate|].
  do 5 (case_bool_decide; [|discriminate]).
  assert (0 ≤ key_len c) as Hkl by (apply le_uint_nonneg, is_bytes_slice, Hbytes).
  assert (0 ≤ encrypted_region_size c) as Hp
    by (unfold encrypted_region_size, EOF in *; lia).
  rewrite read_slice in Hres by lia. fold (key_field c) in Hres.
  symmetry in Hres.
  assert (6 ≤ backptr c) as Hb6.
  { match goal with H : len (key_len_field c) = 2 |- _ => revert H end.
    unfold key_len_field. rewrite len_slice by lia.
    unfold encrypted_region_size, EOF. lia. }
  repeat split; try lia; try done.
  - unfold GearboxEncryptedBigFile.new_crypt in Hres.
    destruct MK as [mk|]; [|discriminate].
    apply init_fields in Hres. tauto.
  - unfold key_field. rewrite len_slice by lia.
    unfold encrypted_region_size, EOF in *. lia.
  - unfold GearboxEncryptedBigFile.new_crypt in Hres.
    destruct MK as [mk|]; [|discriminate]. eauto.
Qed.

(** X20: what every cipher [_load_encryption] returns satisfies.  On a file of
    bytes: the data size is above 10 and leaves at least 6 bytes of trailer,
    the chunk size is the default 4096, and the key has a size that is a
    multiple of 4 and at most 1024, with every byte in [0, 256). *)
Theorem loaded_cipher_invariants MK (h h' : PyFile.t) (crypto : GearboxCrypt.t) :
  is_bytes (PyFile.content h) →
  GearboxEncryptedBigFile._load_encryption MK h = (h', Ok crypto) →
  10 < GearboxCrypt._data_size crypto ≤ len (PyFile.content h) - 6 ∧
  GearboxCrypt._chunk_size crypto = 4096 ∧
  GearboxCrypt._key_size crypto `mod` 4 = 0 ∧
  0 ≤ GearboxCrypt._key_size crypto ≤ 1024 ∧
  len (GearboxCrypt._encryption_key crypto) = GearboxCrypt._key_size crypto ∧
  is_bytes (GearboxCrypt._encryption_key crypto).
Proof.
  intros Hbytes Hload.
  destruct (load_encryption_inv MK h h' crypto Hbytes Hload)
    as (HE & HB & HM & _ & HK & HL & Hds & Hkf & (mk & _ & Hinit)).
  pose proof (init_invariants _ _ _ _ _ Hinit) as (Hks & Hmod & Hlen & Hkb).
  pose proof (init_fields _ _ _ _ _ Hinit) as (Hcs & _).
  set (c := PyFile.content h) in *.
  assert (6 ≤ backptr c) as Hb6.
  { revert HK. unfold key_len_field. rewrite len_slice
      by (unfold encrypted_region_size, EOF in *; lia).
    unfold encrypted_region_size, EOF. lia. }
  rewrite Hds, Hks, Hlen. unfold encrypted_region_size, EOF in *.
  repeat split; try lia; try assumption.
Qed.

Lemma loaded_cipher_invariants_witness :
  is_bytes (PyFile.content good_file) ∧
  GearboxEncryptedBigFile._load_encryption (Some example_master_key) good_file
  = (PyFile.mk (PyFile.content good_file) 26,
     Ok (GearboxCrypt.mk 4096 12 8 [10; 189; 39; 2; 18; 173; 95; 42])) ∧
  10 < GearboxCrypt._data_size (GearboxCrypt.mk 4096 12 8 [10; 189; 39; 2; 18; 173; 95; 42])
    ≤ len (PyFile.content good_file) - 6 ∧
  GearboxCrypt._chunk_size (GearboxCrypt.mk 4096 12 8 [10; 189; 39; 2; 18; 173; 95; 42])
  = 4096 ∧
  GearboxCrypt._key_size (GearboxCrypt.mk 4096 12 8 [10; 189; 39; 2; 18; 173; 95; 42])
    `mod` 4 = 0 ∧
  0 ≤ GearboxCrypt._key_size (GearboxCrypt.mk 4096 12 8 [10; 189; 39; 2; 18; 173; 95; 42])
    ≤ 1024 ∧
  len (GearboxCrypt._encryption_key
         (GearboxCrypt.mk 4096 12 8 [10; 189; 39; 2; 18; 173; 95; 42]))
  = GearboxCrypt._key_size (GearboxCrypt.mk 4096 12 8 [10; 189; 39; 2; 18; 173; 95; 42]) ∧
  is_bytes (GearboxCrypt._encryption_key
              (GearboxCrypt.mk 4096 12 8 [10; 189; 39; 2; 18; 173; 95; 42])).
Proof.
  assert (is_bytes (PyFile.content good_file)) as Hb
    by (apply is_bytes_check; vm_compute; reflexivity).
  split; [exact Hb|]. split; [vm_compute; reflexivity|].
  apply (loaded_cipher_invariants (Some example_master_key) good_file
           (PyFile.mk (PyFile.content good_file) 26)
           (GearboxCrypt.mk 4096 12 8 [10; 189; 39; 2; 18; 173; 95; 42]) Hb).
  vm_compute; reflexivity.
Defined.

(** X21: a key length that is not a multiple of 4 is not an encryption-format
    error.  For every archive over a file whose back pointer passes the
    bound and leaves room for marker and key length, whose marker is zero and
    whose declared key length is between 0 and 1024, if the key field read
    has a length that is not a multiple of 4 then, with a master key set,
    [_load_encryption] and [load] raise the [IndexError] of the cipher's
    constructor, and the archive keeps the [_crypto] it had. *)
Theorem key_length_not_multiple_raises_IndexError master_key super_load
    (self : GearboxEncryptedBigFile.t) (c : bytes) :
  PyFile.content (GearboxEncryptedBigFile._handle self) = c →
  4 ≤ EOF c → 6 ≤ backptr c < EOF c - 4 - 6 →
  le_uint (marker_field c) = 0 → 0 ≤ key_len c ≤ 1024 →
  len (key_field c) `mod` 4 ≠ 0 →
  (GearboxEncryptedBigFile._load_encryption (Some master_key)
     (GearboxEncryptedBigFile._handle self)).2 = Raise IndexError ∧
  (GearboxEncryptedBigFile.load (Some master_key) super_load self).2 = Raise IndexError ∧
  GearboxEncryptedBigFile._crypto
    (GearboxEncryptedBigFile.load (Some master_key) super_load self).1
  = GearboxEncryptedBigFile._crypto self.
Proof.
  intros Hc HE HB HM HL Hmod.
  assert ((GearboxEncryptedBigFile._load_encryption (Some master_key)
             (GearboxEncryptedBigFile._handle self)).2 = Raise IndexError) as Hres.
  { rewrite load_encryption_result. cbn zeta. rewrite Hc.
    assert (0 ≤ encrypted_region_size c) as Hp
      by (unfold encrypted_region_size, EOF in *; lia).
    rewrite bool_decide_false by lia. rewrite bool_decide_true by lia.
    rewrite bool_decide_true
      by (unfold marker_field; rewrite len_slice by lia;
          unfold encrypted_region_size, EOF in *; lia).
    rewrite bool_decide_true by exact HM.
    rewrite bool_decide_true
      by (unfold key_len_field; rewrite len_slice by lia;
          unfold encrypted_region_size, EOF in *; lia).
    rewrite bool_decide_true by lia.
    rewrite read_slice by lia. fold (key_field c).
    unfold GearboxEncryptedBigFile.new_crypt.
    apply init_not_multiple, Hmod. }
  split; [exact Hres|]. apply load_raise, Hres.
Qed.

Lemma key_length_not_multiple_raises_IndexError_witness :
  PyFile.content (GearboxEncryptedBigFile._handle odd_key_archive)
  = PyFile.content odd_key_file ∧
  4 ≤ EOF (PyFile.content odd_key_file) ∧
  6 ≤ backptr (PyFile.content odd_key_file)
    < EOF (PyFile.content odd_key_file) - 4 - 6 ∧
  le_uint (marker_field (PyFile.content odd_key_file)) = 0 ∧
  0 ≤ key_len (PyFile.content odd_key_file) ≤ 1024 ∧
  len (key_field (PyFile.content odd_key_file)) `mod` 4 ≠ 0 ∧
  (GearboxEncryptedBigFile._load_encryption (Some example_master_key)
     (GearboxEncryptedBigFile._handle odd_key_archive)).2 = Raise IndexError ∧
  (GearboxEncryptedBigFile.load (Some example_master_key) (λ s, (s, Ok ()))
     odd_key_archive).2 = Raise IndexError ∧
  GearboxEncryptedBigFile._crypto
    (GearboxEncryptedBigFile.load (Some example_master_key) (λ s, (s, Ok ()))
       odd_key_archive).1
  = GearboxEncryptedBigFile._crypto odd_key_archive.
Proof.
  split; [reflexivity|].
  split; [vm_compute; discriminate|].
  split; [split; vm_compute; [discriminate|reflexivity]|].
  split; [vm_compute; reflexivity|].
  split; [split; vm_compute; discriminate|].
  split; [vm_compute; discriminate|].
  apply (key_length_not_multiple_raises_IndexError example_master_key
           (λ s, (s, Ok ())) odd_key_archive (PyFile.content odd_key_file)).
  - reflexivity.
  - vm_compute; discriminate.
  - split; vm_compute; [discriminate|reflexivity].
  - vm_compute; reflexivity.
  - split; vm_compute; discriminate.
  - vm_compute; discriminate.
Defined.

(** ** The record framework *)

Lemma le_bytes_length (n : nat) (x : Z) : length (struct.le_bytes n x) = n.
Proof. revert x. induction n as [|n IH]; intros x; simpl; [reflexivity|]. by rewrite IH. Qed.

Lemma le_bytes_is_bytes (n : nat) (x : Z) : is_bytes (struct.le_bytes n x).
Proof.
  revert x. induction n as [|n IH]; intros x; simpl.
  - constructor.
  - constructor; [|apply IH]. unfold is_byte. apply Z.mod_pos_bound. lia.
Qed.

Lemma le_uint_le_bytes (n : nat) (x : Z) :
  0 ≤ x < 256 ^ Z.of_nat n → le_uint (struct.le_bytes n x) = x.
Proof.
  revert x. induction n as [|n IH]; intros x Hx.
  - simpl in *. lia.
  - cbn [struct.le_bytes le_uint foldr]. fold (le_uint (struct.le_bytes n (x `div` 256))).
    rewrite IH.
    + pose proof (Z.div_mod x 256). lia.
    + rewrite Nat2Z.inj_succ, Z.pow_succ_r in Hx by lia. split.
      * apply Z.div_pos; lia.
      * apply Z.div_lt_upper_bound; lia.
Qed.

Lemma le_uint_bound (data : list Z) :
  is_bytes data → 0 ≤ le_uint data < 256 ^ Z.of_nat (length data).
Proof.
  induction 1 as [|b data Hb _ IH].
  - simpl. lia.
  - cbn [le_uint foldr length]. fold (le_uint data).
    rewrite Nat2Z.inj_succ, Z.pow_succ_r by lia. unfold is_byte in Hb. lia.
Qed.

Lemma le_bytes_le_uint (data : list Z) :
  is_bytes data → struct.le_bytes (length data) (le_uint data) = data.
Proof.
  induction 1 as [|b data Hb _ IH].
  - reflexivity.
  - cbn [le_uint foldr length struct.le_bytes]. fold (le_uint data).
    unfold is_byte in Hb.
    replace ((b + 256 * le_uint data) `mod` 256) with b.
    2:{ replace (b + 256 * le_uint data) with (b + le_uint data * 256) by lia.
        rewrite Z_mod_plus_full, Z.mod_small; lia. }
    replace ((b + 256 * le_uint data) `div` 256) with (le_uint data).
    2:{ replace (b + 256 * le_uint data) with (b + le_uint data * 256) by lia.
        rewrite Z.div_add, (Z.div_small b) by lia. lia. }
    by rewrite IH.
Qed.

Lemma is_bytes_reverse (data : list Z) : is_bytes data → is_bytes (reverse data).
Proof. unfold is_bytes. intros H. by apply Forall_reverse. Qed.

Lemma encode_length (o : struct.order) (n : nat) (x : Z) :
  length (struct.encode o n x) = n.
Proof. destruct o; simpl; rewrite ?length_reverse; apply le_bytes_length. Qed.

Lemma encode_is_bytes (o : struct.order) (n : nat) (x : Z) :
  is_bytes (struct.encode o n x).
Proof. destruct o; simpl; [|apply is_bytes_reverse]; apply le_bytes_is_bytes. Qed.

Lemma decode_encode (o : struct.order) (n : nat) (x : Z) :
  0 ≤ x < 256 ^ Z.of_nat n → struct.decode o (struct.encode o n x) = x.
Proof.
  intros Hx. destruct o; simpl; rewrite ?reverse_involutive; by apply le_uint_le_bytes.
Qed.

Lemma decode_bound (o : struct.order) (data : list Z) :
  is_bytes data → 0 ≤ struct.decode o data < 256 ^ Z.of_nat (length data).
Proof.
  intros H. destruct o; simpl.
  - by apply le_uint_bound.
  - rewrite <- (length_reverse data). by apply le_uint_bound, is_bytes_reverse.
Qed.

Lemma encode_decode (o : struct.order) (data : list Z) :
  is_bytes data → struct.encode o (length data) (struct.decode o data) = data.
Proof.
  intros H. destruct o; simpl.
  - by apply le_bytes_le_uint.
  - rewrite <- (length_reverse data), le_bytes_le_uint by by apply is_bytes_reverse.
    apply reverse_involutive.
Qed.

Lemma calcsize_nonneg (fmt : list struct.code) : 0 ≤ struct.calcsize fmt.
Proof. induction fmt as [|c fmt IH]; simpl; lia. Qed.

Lemma calcsize_app (f1 f2 : list struct.code) :
  struct.calcsize (f1 ++ f2) = struct.calcsize f1 + struct.calcsize f2.
Proof. induction f1 as [|c f1 IH]; simpl; lia. Qed.

Lemma unpack_values_length (o : struct.order) (fmt : list struct.code) (data : list Z) :
  length (struct.unpack_values o fmt data) = length fmt.
Proof. revert data. induction fmt as [|c fmt IH]; intros data; simpl; [done|]. by rewrite IH. Qed.

Lemma pack_unpack_values (o : struct.order) (fmt : list struct.code) (data : list Z) :
  is_bytes data → len data = struct.calcsize fmt →
  struct.pack o fmt (RInt <$> struct.unpack_values o fmt data) = Ok data.
Proof.
  revert data. induction fmt as [|c fmt IH]; intros data Hb Hlen.
  - simpl in *. unfold len in Hlen. destruct data; [reflexivity|simpl in Hlen; lia].
  - cbn [struct.unpack_values fmap list_fmap struct.pack].
    pose proof (calcsize_nonneg fmt) as Hnn.
    cbn [struct.calcsize foldr] in Hlen. fold (struct.calcsize fmt) in Hlen.
    unfold len in Hlen.
    assert (Htake : length (take (struct.size c) data) = struct.size c)
      by (rewrite length_take; lia).
    assert (Hbt : is_bytes (take (struct.size c) data)) by by apply Forall_take.
    pose proof (decode_bound o _ Hbt) as Hbound. rewrite Htake in Hbound.
    rewrite bool_decide_true by exact Hbound.
    change (list_fmap Z raw RInt) with (fmap (M:=list) RInt).
    rewrite IH.
    + cbn [mbind result_bind mret result_ret]. f_equal.
      rewrite <- Htake at 1. rewrite encode_decode by exact Hbt.
      apply take_drop.
    + by apply Forall_drop.
    + unfold len. rewrite length_drop. lia.
Qed.

Lemma unpack_values_pack (o : struct.order) (fmt : list struct.code)
    (values : list raw) (data : list Z) :
  struct.pack o fmt values = Ok data →
  values = RInt <$> struct.unpack_values o fmt data
  ∧ len data = struct.calcsize fmt ∧ is_bytes data.
Proof.
  revert values data. induction fmt as [|c fmt IH]; intros values data Hp.
  - destruct values; simpl in Hp; [|discriminate]. injection Hp as <-.
    repeat split. constructor.
  - destruct values as [|[x|xs] values]; simpl in Hp; try discriminate.
    case_bool_decide as Hx; [|discriminate].
    destruct (struct.pack o fmt values) as [rest|] eqn:Hrest; [|discriminate].
    cbn [mbind result_bind mret result_ret] in Hp. injection Hp as <-.
    destruct (IH _ _ Hrest) as (-> & Hlen & Hb).
    cbn [struct.unpack_values].
    rewrite take_app_length' by (symmetry; apply encode_length).
    rewrite drop_app_length' by (symmetry; apply encode_length).
    rewrite decode_encode by exact Hx. repeat split.
    + unfold len in *. rewrite length_app, encode_length.
      cbn [struct.calcsize foldr]. fold (struct.calcsize fmt). lia.
    + apply Forall_app. split; [apply encode_is_bytes|exact Hb].
Qed.

Lemma getitem_app_mid {A : Type} (pre rest : list A) (x : A) :
  getitem (pre ++ x :: rest) (len pre) = Ok x.
Proof.
  rewrite getitem_nonneg by (unfold len; lia). unfold len. rewrite Nat2Z.id.
  by rewrite list_lookup_middle.
Qed.

Lemma slice_app_mid {A : Type} (pre l rest : list A) (n : Z) :
  n = len l → slice (pre ++ l ++ rest) (len pre) (len pre + n) = l.
Proof.
  intros ->. unfold slice, len. rewrite Nat2Z.id, drop_app_length.
  replace (Z.to_nat (_ + _ - _)) with (length l) by lia.
  by rewrite take_app_length.
Qed.

Lemma outcome_bind_Return {A B : Type} (m : outcome A) (f : A → outcome B) (b : B) :
  m ≫= f = Return b → ∃ a, m = Return a ∧ f a = Return b.
Proof. destruct m as [a|e]; [|discriminate]. intros H. by exists a. Qed.

Lemma fmap_RInt_inj (a b : list Z) : RInt <$> a = RInt <$> b → a = b.
Proof.
  revert b. induction a as [|x a IH]; intros [|y b] H; try discriminate; [done|].
  injection H as -> H. f_equal. by apply IH.
Qed.

Section section_facts.
Context {V : Type}.
Implicit Types (m : StructuredFileSection.member V)
  (ms : list (StructuredFileSection.member V)) (d : gmap string V).

Import StructuredFileSection.

Lemma data_format_length ms :
  Forall (λ m, length (fmt m) = 1%nat) ms →
  length (data_format ms) = sum_list (len_ <$> ms).
Proof.
  unfold data_format. induction 1 as [|m ms Hm _ IH]; [reflexivity|].
  change (length (mjoin (replicate (len_ m) (fmt m))
                   ++ (ms ≫= λ m, mjoin (replicate (len_ m) (fmt m))))
          = (len_ m + sum_list (len_ <$> ms))%nat).
  rewrite length_app, IH. f_equal.
  destruct (fmt m) as [|c [|??]]; try discriminate.
  clear. induction (len_ m) as [|n IHn]; simpl; [done|]. by rewrite IHn.
Qed.

Lemma load_members_other (unpacked : list Z) ms : ∀ d i d' i' k,
  load_members unpacked (d, i) ms = Return (d', i') →
  k ∉ key <$> ms → d' !! k = d !! k.
Proof.
  induction ms as [|m ms IH]; intros d i d' i' k Hl Hk.
  - by injection Hl as <- <-.
  - cbn [load_members] in Hl. apply outcome_bind_Return in Hl as ([d1 i1] & H1 & Hl).
    rewrite fmap_cons in Hk. apply not_elem_of_cons in Hk as [Hk1 Hk2].
    rewrite (IH _ _ _ _ _ Hl Hk2).
    unfold load_member in H1.
    apply outcome_bind_Return in H1 as (g & _ & H1).
    apply outcome_bind_Return in H1 as (v & _ & H1).
    injection H1 as <- <-. cbn [fst]. by rewrite lookup_insert_ne.
Qed.

Lemma load_member_inv (unpacked : list Z) d i m d' i' :
  load_member unpacked (d, i) m = Return (d', i') →
  ∃ g v, (if bool_decide (len_ m = 1%nat)
          then of_result (x ← getitem unpacked i; Ok (RInt x))
          else Return (RTuple (slice unpacked i (i + Z.of_nat (len_ m))))) = Return g
         ∧ read m g = Some v
         ∧ d' = <[key m := v]> d ∧ i' = i + Z.of_nat (len_ m).
Proof.
  unfold load_member. cbn [fst snd]. intros H.
  apply outcome_bind_Return in H as (g & Hg & H).
  apply outcome_bind_Return in H as (v & Hv & H).
  injection H as <- <-. exists g, v. repeat split.
  - rewrite <- Hg. case_bool_decide; [|reflexivity].
    by destruct (getitem unpacked i).
  - by destruct (read m g) as [v'|]; [injection Hv as ->|].
Qed.

Lemma save_after_load ms : ∀ (pre vs : list Z) d d' i' dfinal (u : list raw),
  length vs = sum_list (len_ <$> ms) →
  NoDup (key <$> ms) →
  Forall (λ m, (1 ≤ len_ m)%nat ∧ write_inverts_read m) ms →
  load_members (pre ++ vs) (d, len pre) ms = Return (d', i') →
  (∀ m, m ∈ ms → dfinal !! key m = d' !! key m) →
  save_members dfinal u ms = Return (u ++ (RInt <$> vs)).
Proof.
  induction ms as [|m ms IH]; intros pre vs d d' i' dfinal u Hlen Hnd Hwf Hl Hfin.
  - destruct vs; [|discriminate]. simpl. by rewrite app_nil_r.
  - cbn [load_members] in Hl. apply outcome_bind_Return in Hl as ([d1 i1] & H1 & Hl).
    apply load_member_inv in H1 as (g & v & Hg & Hv & -> & ->).
    change (length vs = (len_ m + sum_list (len_ <$> ms))%nat) in Hlen.
    rewrite fmap_cons in Hnd.
    apply NoDup_cons in Hnd as [Hk Hnd].
    apply Forall_cons in Hwf as [[Hm inverse] Hwf].
    rewrite <- (take_drop (len_ m) vs) in Hl, Hg |- *.
    assert (Ht : length (take (len_ m) vs) = len_ m) by (rewrite length_take; lia).
    set (v1 := take (len_ m) vs) in *. set (v2 := drop (len_ m) vs) in *.
    assert (Hd' : d' !! key m = Some v).
    { rewrite (load_members_other _ _ _ _ _ _ _ Hl Hk). apply lookup_insert_eq. }
    cbn [save_members]. unfold save_member.
    rewrite Hfin, Hd' by left. cbn [mbind outcome_bind].
    rewrite (inverse _ _ Hv).
    assert (Hu : (if bool_decide (1 < len_ m)%nat
                  then match g with
                       | RTuple xs => Return (u ++ (RInt <$> xs))
                       | RInt _ => Throw (Builtin TypeError)
                       end
                  else Return (u ++ [g])) = Return (u ++ (RInt <$> v1))).
    { destruct (decide (1 < len_ m)%nat) as [H1|H1].
      - rewrite (bool_decide_true _ H1).
        rewrite bool_decide_false in Hg by lia. injection Hg as <-.
        by rewrite slice_app_mid by (unfold len; lia).
      - rewrite (bool_decide_false _ H1).
        rewrite bool_decide_true in Hg by lia.
        destruct v1 as [|x [|??]] eqn:Ev1; simpl in Ht; try lia.
        simpl app in Hg. rewrite getitem_app_mid in Hg. by injection Hg as <-. }
    cbn [mbind outcome_bind]. rewrite Hu.
    rewrite fmap_app, app_assoc.
    apply (IH (pre ++ v1) v2 (<[key m := v]> d) d' i').
    + subst v2. rewrite length_drop. lia.
    + exact Hnd.
    + exact Hwf.
    + rewrite <- app_assoc. rewrite <- Hl. f_equal. f_equal.
      unfold len. rewrite length_app. lia.
    + intros m' Hm'. apply Hfin. by right.
Qed.

Lemma save_members_prefix d ms : ∀ (u r : list raw),
  save_members d u ms = Return r → ∃ t, r = u ++ t.
Proof.
  induction ms as [|m ms IH]; intros u r Hs.
  - injection Hs as <-. exists []. by rewrite app_nil_r.
  - cbn [save_members] in Hs. apply outcome_bind_Return in Hs as (u1 & H1 & Hs).
    apply IH in Hs as (t & ->). unfold save_member in H1.
    apply outcome_bind_Return in H1 as (v & _ & H1).
    apply outcome_bind_Return in H1 as (g & _ & H1).
    case_bool_decide.
    + destruct g; [discriminate|]. injection H1 as <-. eexists. by rewrite <- app_assoc.
    + injection H1 as <-. eexists. by rewrite <- app_assoc.
Qed.

Lemma load_after_save d ms : ∀ (pre vs : list Z) d0 (u : list raw),
  Forall read_inverts_write ms →
  save_members d u ms = Return (u ++ (RInt <$> vs)) →
  ∃ d1, load_members (pre ++ vs) (d0, len pre) ms = Return (d1, len pre + len vs)
        ∧ ∀ k, d1 !! k = if bool_decide (k ∈ key <$> ms) then d !! k else d0 !! k.
Proof.
  induction ms as [|m ms IH]; intros pre vs d0 u Hinv Hs.
  - injection Hs as Hs. apply (f_equal length) in Hs.
    rewrite length_app, length_fmap in Hs. destruct vs; [|simpl in Hs; lia].
    exists d0. split.
    + simpl. do 2 f_equal. unfold len. simpl. lia.
    + intros k. rewrite bool_decide_false; [done|]. apply not_elem_of_nil.
  - cbn [save_members] in Hs. apply outcome_bind_Return in Hs as (u1 & H1 & Hs).
    unfold save_member in H1.
    apply outcome_bind_Return in H1 as (v & Hv & H1).
    apply outcome_bind_Return in H1 as (g & Hg & H1).
    destruct (d !! key m) as [v'|] eqn:Hdk; [injection Hv as ->|discriminate].
    apply Forall_cons in Hinv as [inverse Hinv].
    destruct (inverse _ _ Hg) as [Hshape Hread].
    destruct (save_members_prefix _ _ _ _ Hs) as (t & Ht).
    assert (Hsplit : ∃ v1 v2, vs = v1 ++ v2 ∧ u1 = u ++ (RInt <$> v1)
              ∧ length v1 = len_ m
              ∧ load_member (pre ++ vs) (d0, len pre) m
                = Return (<[key m := v]> d0, len pre + Z.of_nat (len_ m))).
    { unfold load_member. cbn [fst snd]. case_bool_decide as Hlen.
      - destruct g as [x|xs]; [discriminate|]. destruct Hshape as [Hne Hxs].
        injection H1 as <-. rewrite <- app_assoc in Ht. apply app_inv_head in Ht.
        apply fmap_app_inv in Ht as (v1 & v2 & E1 & E2 & ->).
        apply fmap_RInt_inj in E1. subst xs.
        exists v1, v2. repeat split; [done|].
        rewrite bool_decide_false by done.
        cbn [mbind outcome_bind].
        rewrite slice_app_mid by (unfold len; lia). by rewrite Hread.
      - injection H1 as <-. rewrite <- app_assoc in Ht. apply app_inv_head in Ht.
        destruct vs as [|x vs]; [discriminate|]. cbn [fmap list_fmap app] in Ht.
        injection Ht as <- Ht. cbn [shaped] in Hshape.
        exists [x], vs. repeat split; [done|].
        rewrite bool_decide_true by done.
        rewrite getitem_app_mid. cbn [mbind outcome_bind result_bind of_result].
        by rewrite Hread. }
    destruct Hsplit as (v1 & v2 & -> & -> & Hl1 & Hload).
    rewrite fmap_app, app_assoc in Hs.
    destruct (IH (pre ++ v1) v2 (<[key m := v]> d0) _ Hinv Hs) as (d1 & Hl & Hd1).
    exists d1. split.
    + cbn [load_members]. rewrite Hload. cbn [mbind outcome_bind].
      rewrite <- app_assoc in Hl.
      replace (len pre + Z.of_nat (len_ m)) with (len (pre ++ v1))
        by (unfold len; rewrite length_app; lia).
      rewrite Hl. do 2 f_equal. unfold len. rewrite !length_app. lia.
    + intros k. rewrite Hd1. cbn [fmap list_fmap].
      change (list_fmap _ _ key ms) with (key <$> ms).
      destruct (decide (k ∈ key <$> ms)) as [Hin|Hin].
      * rewrite !bool_decide_true; [done| |done]. by right.
      * rewrite (bool_decide_false _ Hin).
        destruct (decide (k = key m)) as [->|Hne].
        -- rewrite bool_decide_true by left. by rewrite lookup_insert_eq.
        -- rewrite bool_decide_false by (intros [?|?]%elem_of_cons; done).
           by rewrite lookup_insert_ne.
Qed.
End section_facts.

Lemma load_data_inv {V : Type} o (STRUCTURE : list (StructuredFileSection.member V))
    (data : list Z) d :
  StructuredFileSection.load_data o STRUCTURE data = Return d →
  len data = StructuredFileSection.data_size STRUCTURE
  ∧ ∃ i, StructuredFileSection.load_members
           (struct.unpack_values o (StructuredFileSection.data_format STRUCTURE) data)
           (∅, 0) STRUCTURE = Return (d, i).
Proof.
  unfold StructuredFileSection.load_data, StructuredFileSection.unpack, struct.unpack.
  fold (StructuredFileSection.data_size STRUCTURE).
  intros H. apply outcome_bind_Return in H as (vs & Hvs & H).
  apply outcome_bind_Return in H as ([d' i] & Hl & H). injection H as <-.
  destruct (decide (len data = StructuredFileSection.data_size STRUCTURE)) as [Hlen|Hlen].
  - rewrite bool_decide_false in Hvs by (intros H; by apply H).
    rewrite bool_decide_true in Hvs by exact Hlen. injection Hvs as <-.
    split; [exact Hlen|]. by exists i.
  - by rewrite bool_decide_true in Hvs.
Qed.

Lemma save_data_after_load_data {V : Type} (o : struct.order)
    (STRUCTURE : list (StructuredFileSection.member V)) (data : list Z)
    (d : gmap string V) :
  Forall (λ m, length (StructuredFileSection.fmt m) = 1%nat
               ∧ (1 ≤ StructuredFileSection.len_ m)%nat
               ∧ StructuredFileSection.write_inverts_read m) STRUCTURE →
  NoDup (StructuredFileSection.keys STRUCTURE) →
  is_bytes data →
  StructuredFileSection.load_data o STRUCTURE data = Return d →
  StructuredFileSection.save_data o STRUCTURE d = Return data.
Proof.
  intros Hwf Hnd Hb Hl. apply load_data_inv in Hl as (Hlen & i & Hl).
  unfold StructuredFileSection.save_data.
  set (vs := struct.unpack_values o (StructuredFileSection.data_format STRUCTURE) data) in *.
  rewrite (save_after_load STRUCTURE [] vs ∅ d i d []).
  - cbn [mbind outcome_bind app]. unfold vs. by rewrite pack_unpack_values.
  - unfold vs. rewrite unpack_values_length. apply data_format_length.
    eapply Forall_impl; [exact Hwf|]. by intros m (? & _).
  - exact Hnd.
  - eapply Forall_impl; [exact Hwf|]. by intros m (_ & ? & ?).
  - exact Hl.
  - done.
Qed.

(** X22: saving what was loaded gives back the bytes.  For a structure whose
    fields have one format code and a length of at least 1, whose keys differ
    and whose [write] functions give back what [read] was given, every byte
    string that [load] decodes into a dictionary is what [save] packs from
    that dictionary. *)
Theorem section_load_then_save {V : Type} (o : struct.order)
    (STRUCTURE : list (StructuredFileSection.member V)) (data : list Z)
    (d : gmap string V) :
  Forall (λ m, length (StructuredFileSection.fmt m) = 1%nat
               ∧ (1 ≤ StructuredFileSection.len_ m)%nat
               ∧ StructuredFileSection.write_inverts_read m) STRUCTURE →
  NoDup (StructuredFileSection.keys STRUCTURE) →
  is_bytes data →
  StructuredFileSection.load_data o STRUCTURE data = Return d →
  StructuredFileSection.save_data o STRUCTURE d = Return data.
Proof. apply save_data_after_load_data. Qed.

Lemma int_field_inverse (k : string) (c : struct.code) :
  StructuredFileSection.write_inverts_read (int_field k c)
  ∧ StructuredFileSection.read_inverts_write (int_field k c).
Proof.
  split.
  - by intros [x|xs] v [= <-].
  - by intros [x|xs] g [= <-].
Qed.

Lemma tuple_field_inverse (k : string) (c : struct.code) (n : nat) :
  n ≠ 1%nat →
  StructuredFileSection.write_inverts_read (tuple_field k c n)
  ∧ StructuredFileSection.read_inverts_write (tuple_field k c n).
Proof.
  intros Hn. split.
  - intros [x|xs] v H; [discriminate|]. cbn in H.
    destruct (decide (length xs = n)) as [Hl|Hl].
    + rewrite (bool_decide_true _ Hl) in H. injection H as <-. cbn.
      by rewrite (bool_decide_true _ Hl).
    + by rewrite (bool_decide_false _ Hl) in H.
  - intros [x|xs] g H; [discriminate|]. cbn in H.
    destruct (decide (length xs = n)) as [Hl|Hl].
    + rewrite (bool_decide_true _ Hl) in H. injection H as <-. cbn.
      by rewrite (bool_decide_true _ Hl).
    + by rewrite (bool_decide_false _ Hl) in H.
Qed.

Lemma example_structure_write_inverts_read :
  Forall (λ m, length (StructuredFileSection.fmt m) = 1%nat
               ∧ (1 ≤ StructuredFileSection.len_ m)%nat
               ∧ StructuredFileSection.write_inverts_read m) example_structure.
Proof.
  unfold example_structure.
  apply Forall_cons; split; [|apply Forall_cons; split; [|apply Forall_cons; split;
    [|by apply Forall_nil]]].
  - split; [done|]. split; [cbn; lia|]. apply int_field_inverse.
  - split; [done|]. split; [cbn; lia|]. by apply tuple_field_inverse.
  - split; [done|]. split; [cbn; lia|]. apply int_field_inverse.
Qed.

Lemma section_load_then_save_witness :
  StructuredFileSection.load_data struct.LittleEndian example_structure example_record
  = Return (delete "comment" example_values)
  ∧ StructuredFileSection.save_data struct.LittleEndian example_structure
      (delete "comment" example_values) = Return example_record.
Proof.
  assert (H : StructuredFileSection.load_data struct.LittleEndian example_structure
                example_record = Return (delete "comment" example_values))
    by (vm_compute; reflexivity).
  split; [exact H|].
  apply (section_load_then_save struct.LittleEndian example_structure example_record).
  - exact example_structure_write_inverts_read.
  - apply (bool_decide_unpack _). vm_compute. exact I.
  - apply is_bytes_check. reflexivity.
  - exact H.
Defined.

(** X23: loading what was saved gives back the dictionary.  For a structure
    whose [write] functions return values of the shape of their field and whose
    [read] functions give back what [write] was given, the bytes that [save]
    packs from a dictionary have the size of the record and [load] decodes
    them into that dictionary, restricted to the keys of the structure. *)
Theorem section_save_then_load {V : Type} (o : struct.order)
    (STRUCTURE : list (StructuredFileSection.member V)) (d : gmap string V)
    (data : list Z) :
  Forall StructuredFileSection.read_inverts_write STRUCTURE →
  StructuredFileSection.save_data o STRUCTURE d = Return data →
  len data = StructuredFileSection.data_size STRUCTURE
  ∧ StructuredFileSection.load_data o STRUCTURE data
    = Return (filter (λ kv, kv.1 ∈ StructuredFileSection.keys STRUCTURE) d).
Proof.
  intros Hinv Hs. unfold StructuredFileSection.save_data in Hs.
  apply outcome_bind_Return in Hs as (raws & Hs & Hp).
  destruct (struct.pack o _ raws) as [data'|] eqn:Hpack; [|discriminate].
  injection Hp as ->.
  apply unpack_values_pack in Hpack as (-> & Hlen & Hb).
  split; [exact Hlen|].
  destruct (load_after_save d STRUCTURE [] _ ∅ [] Hinv Hs) as (d1 & Hl & Hd1).
  unfold StructuredFileSection.load_data, StructuredFileSection.unpack, struct.unpack.
  fold (StructuredFileSection.data_size STRUCTURE) in Hlen |- *.
  rewrite bool_decide_false by (intros H; apply H; exact Hlen).
  rewrite bool_decide_true by exact Hlen.
  cbn [of_result mbind outcome_bind app] in Hl |- *.
  change (len (@nil Z)) with 0 in Hl. rewrite Hl.
  cbn [mbind outcome_bind mret outcome_ret fst]. f_equal.
  apply map_eq. intros k. rewrite Hd1, lookup_empty.
  unfold StructuredFileSection.keys.
  destruct (d !! k) as [v|] eqn:Hk.
  - case_bool_decide as Hin; symmetry.
    + by apply map_lookup_filter_Some_2.
    + apply map_lookup_filter_None_2. right. intros v' Hv'. done.
  - symmetry. assert (filter (λ kv, kv.1 ∈ StructuredFileSection.key <$> STRUCTURE) d !! k
                      = None) as ->.
    { apply map_lookup_filter_None_2. by left. }
    by case_bool_decide.
Qed.

Lemma example_structure_read_inverts_write :
  Forall StructuredFileSection.read_inverts_write example_structure.
Proof.
  unfold example_structure.
  apply Forall_cons; split; [|apply Forall_cons; split; [|apply Forall_cons; split;
    [|by apply Forall_nil]]].
  - apply int_field_inverse.
  - by apply tuple_field_inverse.
  - apply int_field_inverse.
Qed.

Lemma section_save_then_load_witness :
  StructuredFileSection.save_data struct.LittleEndian example_structure example_values
  = Return example_record
  ∧ len example_record = StructuredFileSection.data_size example_structure
  ∧ StructuredFileSection.load_data struct.LittleEndian example_structure example_record
    = Return (filter (λ kv, kv.1 ∈ StructuredFileSection.keys example_structure)
                example_values).
Proof.
  assert (H : StructuredFileSection.save_data struct.LittleEndian example_structure
                example_values = Return example_record)
    by (vm_compute; reflexivity).
  split; [exact H|].
  apply (section_save_then_load struct.LittleEndian example_structure example_values).
  - exact example_structure_read_inverts_write.
  - exact H.
Defined.

(** ** Records in a file *)

Lemma st_bind_unfold {St A B : Type} (m : st St A) (f : A → st St B) (s : St) :
  (m ≫= f) s = match m s with
               | (s', Return a) => f a s'
               | (s', Throw e) => (s', Throw e)
               end.
Proof. reflexivity. Qed.

Lemma data_size_nonneg {V : Type} (STRUCTURE : list (StructuredFileSection.member V)) :
  0 ≤ StructuredFileSection.data_size STRUCTURE.
Proof. apply calcsize_nonneg. Qed.

Lemma file_read_at (n : Z) (c : bytes) (p : nat) :
  0 ≤ n →
  file_read n (PyFile.mk c p)
  = (PyFile.mk c (p + length (slice c (Z.of_nat p) (Z.of_nat p + n))),
     Return (slice c (Z.of_nat p) (Z.of_nat p + n))).
Proof.
  intros Hn. unfold file_read, PyFile.read, PyFile.remaining, slice. simpl.
  rewrite bool_decide_false by lia.
  replace (Z.to_nat (Z.of_nat p + n - Z.of_nat p)) with (Z.to_nat n) by lia.
  rewrite Nat2Z.id. reflexivity.
Qed.

Lemma section_load_file {V : Type} o (STRUCTURE : list (StructuredFileSection.member V))
    (c : bytes) (p : nat) :
  let data := slice c (Z.of_nat p)
                (Z.of_nat p + StructuredFileSection.data_size STRUCTURE) in
  StructuredFileSection.load o STRUCTURE file_tell file_read (PyFile.mk c p)
  = (PyFile.mk c (p + length data), StructuredFileSection.load_data o STRUCTURE data).
Proof.
  intros data. unfold StructuredFileSection.load.
  rewrite st_bind_unfold. unfold file_tell at 1.
  rewrite st_bind_unfold, file_read_at by apply data_size_nonneg. reflexivity.
Qed.

Lemma file_write_back (c : list Z) (p : nat) (n : Z) :
  len (slice c (Z.of_nat p) (Z.of_nat p + n)) = n →
  file_write_at (slice c (Z.of_nat p) (Z.of_nat p + n)) (PyFile.mk c p)
  = PyFile.mk c (p + Z.to_nat n).
Proof.
  intros Hlen. unfold file_write_at. cbn [PyFile.content PyFile.pos].
  destruct (slice c (Z.of_nat p) (Z.of_nat p + n)) as [|b data] eqn:E.
  - unfold len in Hlen. simpl in Hlen. subst n. by rewrite Nat.add_0_r.
  - assert (Hpos : 0 < n) by (unfold len in Hlen; simpl in Hlen; lia).
    rewrite <- E in Hlen |- *. clear b data E. f_equal; [|unfold len in Hlen; lia].
    unfold slice, len in *. rewrite length_take, length_drop in Hlen |- *.
    rewrite Nat2Z.id in *.
    replace (Z.to_nat (Z.of_nat p + n - Z.of_nat p)) with (Z.to_nat n) in * by lia.
    replace (p - length c)%nat with 0%nat by lia. cbn [replicate app].
    rewrite Nat.min_l by lia. rewrite <- drop_drop.
    rewrite take_drop. apply take_drop.
Qed.

Lemma section_save_file {V : Type} o (STRUCTURE : list (StructuredFileSection.member V))
    (d : gmap string V) (data : bytes) (f : PyFile.t) :
  StructuredFileSection.save_data o STRUCTURE d = Return data →
  StructuredFileSection.save o STRUCTURE file_write d f
  = (file_write_at data f, Return ()).
Proof.
  intros H. unfold StructuredFileSection.save.
  rewrite st_bind_unfold. unfold st_lift at 1. rewrite H. reflexivity.
Qed.

Lemma section_load_save_file {V : Type} o
    (STRUCTURE : list (StructuredFileSection.member V)) (f f1 : PyFile.t)
    (d : gmap string V) :
  Forall (λ m, length (StructuredFileSection.fmt m) = 1%nat
               ∧ (1 ≤ StructuredFileSection.len_ m)%nat
               ∧ StructuredFileSection.write_inverts_read m) STRUCTURE →
  NoDup (StructuredFileSection.keys STRUCTURE) →
  is_bytes (PyFile.content f) →
  StructuredFileSection.load o STRUCTURE file_tell file_read f = (f1, Return d) →
  StructuredFileSection.save o STRUCTURE file_write d f = (f1, Return ())
  ∧ PyFile.content f1 = PyFile.content f
  ∧ PyFile.tell f1 = PyFile.tell f + StructuredFileSection.data_size STRUCTURE.
Proof.
  intros Hwf Hnd Hb Hl. destruct f as [c p]. cbn [PyFile.content] in Hb.
  rewrite section_load_file in Hl. injection Hl as <- Hl.
  pose proof (load_data_inv _ _ _ _ Hl) as [Hlen _].
  pose proof (save_data_after_load_data o STRUCTURE _ d Hwf Hnd
                (is_bytes_slice c _ _ Hb) Hl) as Hs.
  rewrite (section_save_file _ _ _ _ _ Hs), (file_write_back _ _ _ Hlen).
  pose proof (data_size_nonneg STRUCTURE).
  unfold PyFile.tell, len in *. cbn [PyFile.content PyFile.pos].
  replace (Z.to_nat (StructuredFileSection.data_size STRUCTURE))
    with (length (slice c (Z.of_nat p)
                    (Z.of_nat p + StructuredFileSection.data_size STRUCTURE))) by lia.
  repeat split. lia.
Qed.

(** X24: a record cut short by the end of the file.  When fewer bytes than
    the size of the record are left in the file, [load] raises
    [StructuredFileFormatException] and leaves the cursor behind the bytes
    that were left. *)
Theorem section_load_short_file {V : Type} (o : struct.order)
    (STRUCTURE : list (StructuredFileSection.member V)) (f : PyFile.t) :
  len (PyFile.remaining f) < StructuredFileSection.data_size STRUCTURE →
  StructuredFileSection.load o STRUCTURE file_tell file_read f
  = (PyFile.mk (PyFile.content f) (PyFile.pos f + length (PyFile.remaining f)),
     Throw StructuredFileFormatException).
Proof.
  destruct f as [c p]. unfold PyFile.remaining. cbn [PyFile.content PyFile.pos].
  intros Hshort. rewrite section_load_file. cbv zeta.
  assert (Hs : slice c (Z.of_nat p) (Z.of_nat p + StructuredFileSection.data_size STRUCTURE)
               = drop p c).
  { unfold slice. rewrite Nat2Z.id. apply take_ge. unfold len in Hshort. lia. }
  rewrite Hs. f_equal.
  unfold StructuredFileSection.load_data, StructuredFileSection.unpack.
  rewrite bool_decide_true by lia. reflexivity.
Qed.

Lemma section_load_short_file_witness :
  len (PyFile.remaining (PyFile.mk [1; 2; 0; 0; 128] 0))
  < StructuredFileSection.data_size example_structure
  ∧ StructuredFileSection.load struct.LittleEndian example_structure file_tell file_read
      (PyFile.mk [1; 2; 0; 0; 128] 0)
    = (PyFile.mk [1; 2; 0; 0; 128] 5, Throw StructuredFileFormatException).
Proof.
  split; [vm_compute; reflexivity|].
  apply (section_load_short_file struct.LittleEndian example_structure
           (PyFile.mk [1; 2; 0; 0; 128] 0)).
  vm_compute. reflexivity.
Defined.

Lemma children_load_save {V : Type} o
    (STRUCTURE : list (StructuredFileSection.member V)) :
  Forall (λ m, length (StructuredFileSection.fmt m) = 1%nat
               ∧ (1 ≤ StructuredFileSection.len_ m)%nat
               ∧ StructuredFileSection.write_inverts_read m) STRUCTURE →
  NoDup (StructuredFileSection.keys STRUCTURE) →
  ∀ (n : nat) (f f1 : PyFile.t) (cs : list (gmap string V)),
  is_bytes (PyFile.content f) →
  StructuredFileSequence.load_children
    (StructuredFileSection.load o STRUCTURE file_tell file_read) n f = (f1, Return cs) →
  StructuredFileSequence.save_children
    (StructuredFileSection.save o STRUCTURE file_write) cs f = (f1, Return ())
  ∧ length cs = n
  ∧ PyFile.content f1 = PyFile.content f
  ∧ PyFile.tell f1
    = PyFile.tell f + Z.of_nat n * StructuredFileSection.data_size STRUCTURE.
Proof.
  intros Hwf Hnd. induction n as [|n IH]; intros f f1 cs Hb Hl.
  - injection Hl as <- <-. repeat split. lia.
  - cbn [StructuredFileSequence.load_children] in Hl.
    rewrite st_bind_unfold in Hl.
    destruct (StructuredFileSection.load o STRUCTURE file_tell file_read f)
      as [f' [c|e]] eqn:Hc; [|discriminate].
    rewrite st_bind_unfold in Hl.
    destruct (StructuredFileSequence.load_children _ n f') as [f'' [cs'|e]] eqn:Hcs;
      [|discriminate].
    injection Hl as <- <-.
    destruct (section_load_save_file o STRUCTURE f f' c Hwf Hnd Hb Hc)
      as (Hs & Hcont & Htell).
    destruct (IH f' f'' cs' ltac:(by rewrite Hcont) Hcs) as (Hs' & Hlen & Hcont' & Htell').
    cbn [StructuredFileSequence.save_children].
    rewrite st_bind_unfold, Hs. repeat split.
    + exact Hs'.
    + simpl. by rewrite Hlen.
    + by rewrite Hcont'.
    + rewrite Htell', Htell. lia.
Qed.

(** X25: a sequence of records read from a file and saved back.  For a
    child type as in X22 and a sequence that expects [n] children, when [load]
    returns on a file of bytes it returns [max 0 n] children and leaves the
    file as it was with the cursor [max 0 n] records further; [save] of these
    children at the cursor where [load] began writes the bytes that were
    there, so the file and the final cursor are the ones [load] left. *)
Theorem sequence_load_then_save {V : Type} (o : struct.order)
    (STRUCTURE : list (StructuredFileSection.member V)) (n : Z)
    (f f1 : PyFile.t) (cs : list (gmap string V)) :
  Forall (λ m, length (StructuredFileSection.fmt m) = 1%nat
               ∧ (1 ≤ StructuredFileSection.len_ m)%nat
               ∧ StructuredFileSection.write_inverts_read m) STRUCTURE →
  NoDup (StructuredFileSection.keys STRUCTURE) →
  is_bytes (PyFile.content f) →
  StructuredFileSequence.load
    (StructuredFileSection.load o STRUCTURE file_tell file_read) (mret n) f
  = (f1, Return cs) →
  len cs = Z.max 0 n
  ∧ PyFile.content f1 = PyFile.content f
  ∧ PyFile.tell f1
    = PyFile.tell f + Z.max 0 n * StructuredFileSection.data_size STRUCTURE
  ∧ StructuredFileSequence.save
      (StructuredFileSection.save o STRUCTURE file_write) (mret n) cs f
    = (f1, Return ()).
Proof.
  intros Hwf Hnd Hb Hl. unfold StructuredFileSequence.load in Hl.
  rewrite !st_bind_unfold in Hl. cbn [mret st_ret] in Hl.
  destruct (children_load_save o STRUCTURE Hwf Hnd _ _ _ _ Hb Hl)
    as (Hs & Hlen & Hcont & Htell).
  unfold len. rewrite Hlen, Htell.
  replace (Z.of_nat (Z.to_nat n)) with (Z.max 0 n) by lia.
  repeat split; [exact Hcont|].
  unfold StructuredFileSequence.save. rewrite st_bind_unfold. exact Hs.
Qed.

Lemma sequence_load_then_save_witness :
  StructuredFileSequence.load
    (StructuredFileSection.load struct.LittleEndian example_structure file_tell file_read)
    (mret 2) example_records
  = (PyFile.mk (PyFile.content example_records) 18,
     Return [delete "comment" example_values;
             <["flags" := RInt 255]> (<["size" := RTuple [1; 2]]>
               (<["count" := RInt 3]> ∅))])
  ∧ StructuredFileSequence.save
      (StructuredFileSection.save struct.LittleEndian example_structure file_write)
      (mret 2)
      [delete "comment" example_values;
       <["flags" := RInt 255]> (<["size" := RTuple [1; 2]]> (<["count" := RInt 3]> ∅))]
      example_records
    = (PyFile.mk (PyFile.content example_records) 18, Return ()).
Proof.
  assert (H : StructuredFileSequence.load
                (StructuredFileSection.load struct.LittleEndian example_structure
                   file_tell file_read) (mret 2) example_records
              = (PyFile.mk (PyFile.content example_records) 18,
                 Return [delete "comment" example_values;
                         <["flags" := RInt 255]> (<["size" := RTuple [1; 2]]>
                           (<["count" := RInt 3]> ∅))]))
    by (vm_compute; reflexivity).
  split; [exact H|].
  apply (sequence_load_then_save struct.LittleEndian example_structure 2
           example_records).
  - exact example_structure_write_inverts_read.
  - apply (bool_decide_unpack _). vm_compute. exact I.
  - apply is_bytes_check. reflexivity.
  - exact H.
Defined.

(** ** Records through an encrypted archive, and through a closed file *)

(** X26: a record loaded through an encrypted archive is decoded from the
    decrypted bytes.  With a cipher loaded, the cursor at [p] inside the
    encrypted region and the whole record inside the region and the file,
    [load] leaves the cursor one record further and returns what the bytes of
    the record in the file, decrypted at offset [p], decode to; an exception
    of the cipher is the one [load] raises. *)
Theorem section_load_through_archive {V : Type} (o : struct.order)
    (STRUCTURE : list (StructuredFileSection.member V))
    (self : GearboxEncryptedBigFile.t) (crypto : GearboxCrypt.t)
    (c : bytes) (p : nat) :
  GearboxEncryptedBigFile._crypto self = Some crypto →
  GearboxEncryptedBigFile._handle self = PyFile.mk c p →
  Z.of_nat p < GearboxCrypt._data_size crypto →
  Z.of_nat p + StructuredFileSection.data_size STRUCTURE
    ≤ GearboxCrypt._data_size crypto →
  GearboxCrypt._data_size crypto ≤ len c →
  StructuredFileSection.load o STRUCTURE archive_tell archive_read self
  = (GearboxEncryptedBigFile.mk
       (PyFile.mk c (p + Z.to_nat (StructuredFileSection.data_size STRUCTURE)))
       (GearboxEncryptedBigFile._real_handle self) (Some crypto),
     plain ← of_result
               (GearboxCrypt.decrypt crypto
                  (slice c (Z.of_nat p)
                     (Z.of_nat p + StructuredFileSection.data_size STRUCTURE))
                  (Z.of_nat p));
     StructuredFileSection.load_data o STRUCTURE plain).
Proof.
  intros Hcrypto Hhandle Hp Hin Hfile.
  pose proof (data_size_nonneg STRUCTURE) as Hnn.
  unfold StructuredFileSection.load.
  rewrite st_bind_unfold. unfold archive_tell at 1.
  rewrite st_bind_unfold. unfold archive_read at 1.
  rewrite (read_inside self crypto c p
             (Some (StructuredFileSection.data_size STRUCTURE)) Hcrypto Hhandle Hp)
    by (intros s [= <-]; exact Hnn).
  cbv zeta. cbn [fst snd].
  rewrite Z.min_l by lia.
  set (n := StructuredFileSection.data_size STRUCTURE) in *.
  assert (Hl : length (slice c (Z.of_nat p) (Z.of_nat p + n)) = Z.to_nat n).
  { pose proof (len_slice c (Z.of_nat p) (Z.of_nat p + n) ltac:(lia)) as H.
    unfold len in *. lia. }
  rewrite Hl.
  destruct (GearboxCrypt.decrypt crypto _ _) as [plain|e]; reflexivity.
Qed.

Lemma section_load_through_archive_witness :
  GearboxEncryptedBigFile._crypto loaded_archive
  = Some (GearboxCrypt.mk 4096 12 8 [10; 189; 39; 2; 18; 173; 95; 42]) ∧
  GearboxEncryptedBigFile._handle loaded_archive
  = PyFile.mk (PyFile.content good_file) 5 ∧
  Z.of_nat 5 < GearboxCrypt._data_size
                 (GearboxCrypt.mk 4096 12 8 [10; 189; 39; 2; 18; 173; 95; 42]) ∧
  Z.of_nat 5 + StructuredFileSection.data_size example_header
    ≤ GearboxCrypt._data_size
        (GearboxCrypt.mk 4096 12 8 [10; 189; 39; 2; 18; 173; 95; 42]) ∧
  GearboxCrypt._data_size (GearboxCrypt.mk 4096 12 8 [10; 189; 39; 2; 18; 173; 95; 42])
    ≤ len (PyFile.content good_file) ∧
  StructuredFileSection.load struct.LittleEndian example_header archive_tell archive_read
    loaded_archive
  = (GearboxEncryptedBigFile.mk
       (PyFile.mk (PyFile.content good_file)
          (5 + Z.to_nat (StructuredFileSection.data_size example_header)))
       (GearboxEncryptedBigFile._real_handle loaded_archive)
       (Some (GearboxCrypt.mk 4096 12 8 [10; 189; 39; 2; 18; 173; 95; 42])),
     plain ← of_result
               (GearboxCrypt.decrypt
                  (GearboxCrypt.mk 4096 12 8 [10; 189; 39; 2; 18; 173; 95; 42])
                  (slice (PyFile.content good_file) (Z.of_nat 5)
                     (Z.of_nat 5 + StructuredFileSection.data_size example_header))
                  (Z.of_nat 5));
     StructuredFileSection.load_data struct.LittleEndian example_header plain).
Proof.
  split; [reflexivity|]. split; [reflexivity|].
  split; [vm_compute; reflexivity|].
  split; [vm_compute; discriminate|].
  split; [vm_compute; discriminate|].
  apply (section_load_through_archive struct.LittleEndian example_header loaded_archive
           (GearboxCrypt.mk 4096 12 8 [10; 189; 39; 2; 18; 173; 95; 42])
           (PyFile.content good_file) 5 eq_refl eq_refl).
  - vm_compute; reflexivity.
  - vm_compute; discriminate.
  - vm_compute; discriminate.
Defined.

(** X27: a closed file.  After [close()], whether it returned or raised, the
    file is closed and has no handle: [read], [seek], [tell], [write], a
    second [close], [load()] and [save()] raise [AttributeError] and change
    nothing, [isatty] answers [False], and loading a record from the file
    raises [AttributeError]. *)
Theorem closed_file_raises {V : Type} (self : StructuredFile.t V)
    (size : option Z) (offset whence : Z) (data : bytes) (o : struct.order)
    (STRUCTURE : list (StructuredFileSection.member V))
    (FILE_STRUCTURE : list (string * StructuredFile.member_type V)) :
  StructuredFile.closed (StructuredFile.close self).1 = true
  ∧ StructuredFile.read size (StructuredFile.close self).1
    = ((StructuredFile.close self).1, Throw (Builtin AttributeError))
  ∧ StructuredFile.seek offset whence (StructuredFile.close self).1
    = ((StructuredFile.close self).1, Throw (Builtin AttributeError))
  ∧ StructuredFile.tell (StructuredFile.close self).1
    = ((StructuredFile.close self).1, Throw (Builtin AttributeError))
  ∧ StructuredFile.write data (StructuredFile.close self).1
    = ((StructuredFile.close self).1, Throw (Builtin AttributeError))
  ∧ StructuredFile.close (StructuredFile.close self).1
    = ((StructuredFile.close self).1, Throw (Builtin AttributeError))
  ∧ StructuredFile.load FILE_STRUCTURE (StructuredFile.close self).1
    = ((StructuredFile.close self).1, Throw (Builtin AttributeError))
  ∧ StructuredFile.save FILE_STRUCTURE (StructuredFile.close self).1
    = ((StructuredFile.close self).1, Throw (Builtin AttributeError))
  ∧ StructuredFile.isatty (StructuredFile.close self).1
    = ((StructuredFile.close self).1, Return false)
  ∧ StructuredFile.section_load o STRUCTURE (StructuredFile.close self).1
    = ((StructuredFile.close self).1, Throw (Builtin AttributeError)).
Proof.
  assert (Hc : (StructuredFile.close self).1
               = StructuredFile.mk None None None true (StructuredFile._data self)).
  { unfold StructuredFile.close. by destruct (StructuredFile._handle self). }
  rewrite Hc. repeat split.
Qed.

(** ** Whole files *)

Section file_facts.
Context {V : Type}.
Implicit Types (self : StructuredFile.t V) (f : PyFile.t).

Import StructuredFile.

Lemma with_handle_handle self f : _handle (with_handle self f) = Some f.
Proof. reflexivity. Qed.

Lemma with_handle_twice self f f' : with_handle (with_handle self f) f' = with_handle self f'.
Proof. reflexivity. Qed.

Lemma with_handle_same self f : _handle self = Some f → with_handle self f = self.
Proof. destruct self. simpl. by intros ->. Qed.

Lemma with_data_handle self d f :
  with_handle (with_data self d) f = with_data (with_handle self f) d.
Proof. reflexivity. Qed.

Lemma with_data_twice self d d' : with_data (with_data self d) d' = with_data self d'.
Proof. reflexivity. Qed.

Lemma with_data_same self d : _data self = Some d → with_data self d = self.
Proof. destruct self. simpl. by intros ->. Qed.

Lemma section_load_on_file o S self f :
  _handle self = Some f → readable (_mode self) = true →
  section_load o S self
  = (with_handle self (StructuredFileSection.load o S file_tell file_read f).1,
     (StructuredFileSection.load o S file_tell file_read f).2).
Proof.
  intros Hh Hr. unfold section_load, StructuredFileSection.load.
  rewrite !st_bind_unfold. unfold tell at 1, on_handle at 1. rewrite Hh.
  unfold file_tell at 1 2. cbn [fst snd].
  rewrite !st_bind_unfold. unfold read at 1, on_handle at 1.
  cbn [_handle with_handle _mode]. rewrite Hr.
  unfold file_read at 1 2. cbn [fst snd]. unfold st_lift. reflexivity.
Qed.

Lemma section_save_on_file o S (d : gmap string V) self f :
  _handle self = Some f → writable (_mode self) = true → appending (_mode self) = false →
  section_save o S d self
  = (with_handle self (StructuredFileSection.save o S file_write d f).1,
     (StructuredFileSection.save o S file_write d f).2).
Proof.
  intros Hh Hw Ha. unfold section_save, StructuredFileSection.save.
  rewrite !st_bind_unfold. unfold st_lift at 1 2.
  destruct (StructuredFileSection.save_data o S d) as [data|e].
  - unfold write, on_handle. rewrite Hh, Hw, Ha. reflexivity.
  - cbn [fst snd]. by rewrite with_handle_same.
Qed.

Lemma load_children_on_file o S (n : nat) : ∀ self f,
  _handle self = Some f → readable (_mode self) = true →
  StructuredFileSequence.load_children (section_load o S) n self
  = (with_handle self
       (StructuredFileSequence.load_children
          (StructuredFileSection.load o S file_tell file_read) n f).1,
     (StructuredFileSequence.load_children
        (StructuredFileSection.load o S file_tell file_read) n f).2).
Proof.
  induction n as [|n IH]; intros self f Hh Hr.
  - cbn. by rewrite with_handle_same.
  - cbn [StructuredFileSequence.load_children].
    rewrite !st_bind_unfold, (section_load_on_file o S self f Hh Hr).
    destruct (StructuredFileSection.load o S file_tell file_read f) as [f' [c|e]];
      [|reflexivity].
    cbn [fst snd]. rewrite !st_bind_unfold.
    rewrite (IH (with_handle self f') f' eq_refl Hr).
    destruct (StructuredFileSequence.load_children _ n f') as [f'' [cs|e]]; reflexivity.
Qed.

Lemma save_children_on_file o S (cs : list (gmap string V)) : ∀ self f,
  _handle self = Some f → writable (_mode self) = true → appending (_mode self) = false →
  StructuredFileSequence.save_children (section_save o S) cs self
  = (with_handle self
       (StructuredFileSequence.save_children
          (StructuredFileSection.save o S file_write) cs f).1,
     (StructuredFileSequence.save_children
        (StructuredFileSection.save o S file_write) cs f).2).
Proof.
  induction cs as [|c cs IH]; intros self f Hh Hw Ha.
  - cbn. by rewrite with_handle_same.
  - cbn [StructuredFileSequence.save_children].
    rewrite !st_bind_unfold, (section_save_on_file o S c self f Hh Hw Ha).
    destruct (StructuredFileSection.save o S file_write c f) as [f' [[]|e]];
      [|reflexivity].
    cbn [fst snd]. exact (IH (with_handle self f') f' eq_refl Hw Ha).
Qed.

(** Loading one member and saving it back from where the load began. *)
Lemma construct_save_instance (mt : member_type V) self self' f x
    (d dfin : gmap string (instance V)) :
  member_type_ok mt →
  _handle self = Some f → _data self = Some d → is_bytes (PyFile.content f) →
  readable (_mode self) = true → writable (_mode self) = true →
  appending (_mode self) = false →
  construct mt self = (self', Return x) →
  d ⊆ dfin →
  ∃ f', self' = with_handle self f'
        ∧ PyFile.content f' = PyFile.content f
        ∧ save_instance x (with_data self dfin)
          = (with_data (with_handle self f') dfin, Return ()).
Proof.
  intros Hok Hh Hd Hb Hr Hw Ha Hc Hsub.
  destruct mt as [o S|o S fexp]; cbn [construct] in Hc.
  - destruct Hok as [Hwf Hnd].
    rewrite st_bind_unfold, (section_load_on_file o S self f Hh Hr) in Hc.
    destruct (StructuredFileSection.load o S file_tell file_read f) as [f' [dd|e]] eqn:Hl;
      [|discriminate].
    cbn [fst snd] in Hc. injection Hc as <- <-.
    destruct (section_load_save_file o S f f' dd Hwf Hnd Hb Hl) as (Hs & Hcont & _).
    exists f'. split; [reflexivity|]. split; [exact Hcont|].
    cbn [save_instance].
    rewrite (section_save_on_file o S dd (with_data self dfin) f Hh Hw Ha), Hs.
    reflexivity.
  - destruct Hok as [[Hwf Hnd] Hstable].
    unfold StructuredFileSequence.load in Hc. rewrite !st_bind_unfold in Hc.
    unfold _get_expected_length at 1 in Hc. rewrite Hd in Hc.
    destruct (fexp (data_of <$> d)) as [n|e] eqn:Hn; [|discriminate].
    rewrite st_bind_unfold in Hc.
    unfold _get_expected_length at 1 in Hc. rewrite Hd, Hn in Hc.
    rewrite (load_children_on_file o S _ self f Hh Hr) in Hc.
    destruct (StructuredFileSequence.load_children _ (Z.to_nat n) f) as [f' [cs|e]] eqn:Hl;
      [|discriminate].
    cbn [fst snd] in Hc. injection Hc as <- <-.
    destruct (children_load_save o S Hwf Hnd _ _ _ _ Hb Hl) as (Hs & _ & Hcont & _).
    exists f'. split; [reflexivity|]. split; [exact Hcont|].
    cbn [save_instance]. unfold StructuredFileSequence.save.
    rewrite st_bind_unfold. unfold _get_expected_length at 1. cbn [_data with_data].
    destruct (Hstable (data_of <$> d) (data_of <$> dfin) n) as [n' Hn'];
      [by apply map_fmap_mono|exact Hn|].
    rewrite Hn'.
    rewrite (save_children_on_file o S cs (with_data self dfin) f Hh Hw Ha), Hs.
    reflexivity.
Qed.

Lemma load_members_save_members (ms : list (string * member_type V)) :
  ∀ self self1 f (d : gmap string (instance V)),
  Forall (λ km, member_type_ok km.2) ms → NoDup ms.*1 →
  (∀ k, k ∈ ms.*1 → d !! k = None) →
  _handle self = Some f → _data self = Some d → is_bytes (PyFile.content f) →
  readable (_mode self) = true → writable (_mode self) = true →
  appending (_mode self) = false →
  load_members ms self = (self1, Return ()) →
  ∃ f1 d1, self1 = with_data (with_handle self f1) d1
           ∧ PyFile.content f1 = PyFile.content f
           ∧ d ⊆ d1
           ∧ ∀ dfin, d1 ⊆ dfin →
               save_members ms (with_data self dfin)
               = (with_data (with_handle self f1) dfin, Return ()).
Proof.
  induction ms as [|[key mt] ms IH];
    intros self self1 f d Hok Hnd Hfresh Hh Hd Hb Hr Hw Ha Hl.
  - injection Hl as <-. exists f, d. split; [|split; [done|split; [done|]]].
    + by rewrite with_handle_same, with_data_same.
    + intros dfin _. cbn. by rewrite with_handle_same.
  - apply Forall_cons in Hok as [Hmt Hok]. rewrite fmap_cons in Hnd, Hfresh.
    apply NoDup_cons in Hnd as [Hkey Hnd]. cbn [fst] in Hkey.
    cbn [load_members] in Hl. rewrite st_bind_unfold in Hl.
    destruct (construct mt self) as [self' [x|e]] eqn:Hc; [|discriminate].
    assert (Hc' := Hc).
    destruct (construct_save_instance mt self self' f x d d Hmt Hh Hd Hb Hr Hw Ha Hc
                ltac:(done)) as (f' & -> & Hcont & _).
    rewrite st_bind_unfold in Hl. unfold set_item at 1 in Hl.
    cbn [_data with_handle] in Hl. rewrite Hd in Hl.
    assert (Hfresh' : ∀ k, k ∈ ms.*1 → <[key := x]> d !! k = None).
    { intros k Hk. rewrite lookup_insert_ne by (intros ->; done).
      apply Hfresh. by right. }
    destruct (IH (with_data (with_handle self f') (<[key := x]> d)) self1 f'
                (<[key := x]> d) Hok Hnd Hfresh' eq_refl eq_refl
                ltac:(by rewrite Hcont) Hr Hw Ha Hl)
      as (f1 & d1 & -> & Hcont1 & Hsub1 & Hsave).
    exists f1, d1. split; [reflexivity|]. split; [by rewrite Hcont1|].
    assert (Hdsub : d ⊆ <[key := x]> d).
    { apply insert_subseteq, Hfresh. by left. }
    split; [by etrans|].
    intros dfin Hfin.
    destruct (construct_save_instance mt self _ f x d dfin Hmt Hh Hd Hb Hr Hw Ha Hc'
                ltac:(by etrans; [|exact Hfin]; etrans)) as (f'' & Heq & _ & Hsi).
    assert (f'' = f') as -> by (by injection Heq).
    cbn [save_members]. rewrite st_bind_unfold. unfold get_item at 1.
    cbn [_data with_data].
    assert (dfin !! key = Some x) as ->.
    { eapply lookup_weaken; [|exact Hfin]. eapply lookup_weaken; [|exact Hsub1].
      apply lookup_insert_eq. }
    rewrite st_bind_unfold, Hsi.
    exact (Hsave dfin Hfin).
Qed.
End file_facts.

(** X29: a file loaded and saved.  For a file opened for reading and
    writing in place, on bytes, whose [STRUCTURE] has distinct keys and member
    types that are sections, or sequences of sections, of records that [save]
    can write back: when [load()] returns, [save()] returns too and leaves the
    object exactly as [load] left it, the bytes of the file, the cursor and
    [_data] included; the bytes are the ones the file had before [load]. *)
Theorem file_load_then_save {V : Type}
    (STRUCTURE : list (string * StructuredFile.member_type V))
    (self self1 : StructuredFile.t V) (f : PyFile.t) :
  Forall (λ km, member_type_ok km.2) STRUCTURE → NoDup STRUCTURE.*1 →
  StructuredFile._handle self = Some f → is_bytes (PyFile.content f) →
  StructuredFile.readable (StructuredFile._mode self) = true →
  StructuredFile.writable (StructuredFile._mode self) = true →
  StructuredFile.appending (StructuredFile._mode self) = false →
  StructuredFile.load STRUCTURE self = (self1, Return ()) →
  StructuredFile.save STRUCTURE self1 = (self1, Return ())
  ∧ ∃ f1, StructuredFile._handle self1 = Some f1
          ∧ PyFile.content f1 = PyFile.content f.
Proof.
  intros Hok Hnd Hh Hb Hr Hw Ha Hl.
  unfold StructuredFile.load in Hl. rewrite st_bind_unfold in Hl.
  unfold StructuredFile.seek at 1, StructuredFile.on_handle at 1 in Hl. rewrite Hh in Hl.
  change (PyFile.seek 0 PyFile.SEEK_SET f) with (Ok (PyFile.mk (PyFile.content f) 0)) in Hl.
  cbn [fst snd] in Hl. rewrite st_bind_unfold in Hl.
  set (f0 := PyFile.mk (PyFile.content f) 0) in *.
  set (s0 := StructuredFile.with_data (StructuredFile.with_handle self f0) ∅) in *.
  destruct (load_members_save_members STRUCTURE s0 self1 f0 ∅ Hok Hnd
              ltac:(intros; apply lookup_empty) eq_refl eq_refl Hb Hr Hw Ha Hl)
    as (f1 & d1 & -> & Hcont & _ & Hsave).
  split; [|exists f1; split; [reflexivity|exact Hcont]].
  unfold StructuredFile.save. rewrite st_bind_unfold.
  unfold StructuredFile.seek at 1, StructuredFile.on_handle at 1.
  cbn [StructuredFile._handle StructuredFile.with_data StructuredFile.with_handle].
  change (PyFile.seek 0 PyFile.SEEK_SET f1) with (Ok (PyFile.mk (PyFile.content f1) 0)).
  cbn [fst snd]. rewrite Hcont. fold f0.
  exact (Hsave d1 ltac:(done)).
Qed.

Lemma example_file_structure_ok :
  Forall (λ km, member_type_ok km.2) example_file_structure.
Proof.
  unfold example_file_structure.
  apply Forall_cons; split; [|apply Forall_cons; split; [|by apply Forall_nil]].
  - split.
    + apply Forall_cons; split; [|by apply Forall_nil].
      split; [done|]. split; [cbn; lia|]. apply int_field_inverse.
    + apply (bool_decide_unpack _). vm_compute. exact I.
  - split; [split|].
    + exact example_structure_write_inverts_read.
    + apply (bool_decide_unpack _). vm_compute. exact I.
    + intros d d' n Hsub. unfold example_entry_count.
      destruct (d !! "header") as [[h|l]|] eqn:Hd; try discriminate.
      rewrite (lookup_weaken _ _ _ _ Hd Hsub). eauto.
Qed.

Lemma file_load_then_save_witness :
  StructuredFile.load example_file_structure example_structured_file
  = (example_loaded_file, Return ())
  ∧ StructuredFile.save example_file_structure example_loaded_file
    = (example_loaded_file, Return ())
  ∧ ∃ f1, StructuredFile._handle example_loaded_file = Some f1
          ∧ PyFile.content f1
            = [2] ++ example_record ++ [3; 0; 0; 0; 1; 0; 2; 0; 255] ++ [9; 9].
Proof.
  assert (H : StructuredFile.load example_file_structure example_structured_file
              = (example_loaded_file, Return ())) by (vm_compute; reflexivity).
  split; [exact H|].
  apply (file_load_then_save example_file_structure example_structured_file
           example_loaded_file
           (PyFile.mk ([2] ++ example_record ++ [3; 0; 0; 0; 1; 0; 2; 0; 255] ++ [9; 9]) 5)).
  - exact example_file_structure_ok.
  - apply (bool_decide_unpack _). vm_compute. exact I.
  - reflexivity.
  - apply is_bytes_check. reflexivity.
  - vm_compute. reflexivity.
  - vm_compute. reflexivity.
  - vm_compute. reflexivity.
  - exact H.
Defined.
